(** * mlp.py: a multilayer perceptron trained by mini-batch gradient descent

    A shallow embedding of [src/mlp.py] and the verification of its
    specification.

    Numbers.  numpy's [float64] and Python's [float] are IEEE-754 binary64;
    they are modelled by Rocq's primitive [float], which is the same format
    with the same correctly rounded operations, infinities and NaN.  Python's
    unbounded [int] is [Z]; lengths and counters are [nat].

    Arrays.  A column matrix (shape n x 1) and a one-dimensional array are both
    a [vector], the list of their entries; a matrix is the list of its rows.

    Exceptions.  Code that can raise returns a [res]: [Ok v] or [Raise e].
    Where the shapes of two operands differ numpy raises [ValueError] or, for
    some shapes, broadcasts; the model raises [ValueError] in both cases, and
    the theorems that state a result are about operands of matching shapes.
    The order in which numpy adds the terms of a sum or of a dot product is
    not fixed by its interface; the model adds from left to right, and no
    theorem depends on that order.

    External library functions.  [np.exp], [np.log], [np.random.randn] and
    [np.random.shuffle] are not part of the program: they are variables of the
    sections that use them. *)

From Stdlib Require Import List ZArith Bool Lia String Ascii Floats Uint63.
From Stdlib Require Import Permutation SetoidList SetoidPermutation.
From Stdlib Require DecimalString.
Import ListNotations.

Set Implicit Arguments.

(** ** Exceptions *)

Inductive exn : Type :=
| ZeroDivisionError
| ValueError
| IndexError
| OverflowError
| UnboundLocalError.

Inductive res (A : Type) : Type :=
| Ok (a : A)
| Raise (e : exn).

Arguments Ok {A} a.
Arguments Raise {A} e.

Definition bind {A B : Type} (c : res A) (k : A -> res B) : res B :=
  match c with
  | Ok a => k a
  | Raise e => Raise e
  end.

Notation "x <- c ;; k" := (bind c (fun x => k))
  (at level 61, c at next level, right associativity).

(** A [for] loop whose body can raise, as a monadic left fold. *)
Fixpoint for_each {A B : Type} (body : A -> B -> res A) (l : list B) (a : A)
  : res A :=
  match l with
  | [] => Ok a
  | x :: l' => a' <- body a x ;; for_each body l' a'
  end.

(** A list comprehension whose element expression can raise. *)
Fixpoint map_res {A B : Type} (f : A -> res B) (l : list A) : res (list B) :=
  match l with
  | [] => Ok []
  | x :: l' => y <- f x ;; ys <- map_res f l' ;; Ok (y :: ys)
  end.

(** ** Python lists *)

(** [l[-1]] *)
Definition py_last {A : Type} (l : list A) : res A :=
  match rev l with
  | [] => Raise IndexError
  | x :: _ => Ok x
  end.

(** [l[i] = x] for an index [0 <= i]. *)
Fixpoint list_set {A : Type} (i : nat) (x : A) (l : list A) : res (list A) :=
  match l, i with
  | [], _ => Raise IndexError
  | _ :: l', O => Ok (x :: l')
  | y :: l', S i' => r <- list_set i' x l' ;; Ok (y :: r)
  end.

(** [l[-1] = x] *)
Definition set_last {A : Type} (x : A) (l : list A) : res (list A) :=
  match l with
  | [] => Raise IndexError
  | _ => list_set (length l - 1) x l
  end.

(** ** numpy arrays *)

Definition vector : Type := list float.
Definition matrix : Type := list vector.

Definition fsum (l : list float) : float := fold_left PrimFloat.add l 0%float.

Definition vec_dot (a b : vector) : float :=
  fsum (map (fun p => (fst p * snd p)%float) (combine a b)).

Definition ncols (m : matrix) : nat :=
  match m with
  | [] => 0
  | r :: _ => length r
  end.

Definition column (j : nat) (m : matrix) : vector :=
  map (fun r => nth j r 0%float) m.

(** [np.dot(v, w)] for a one-dimensional [v] and a matrix [w]: the row [v w]. *)
Definition np_dot (v : vector) (w : matrix) : res vector :=
  if (length v =? length w)%nat
  then Ok (map (fun j => vec_dot v (column j w)) (seq 0 (ncols w)))
  else Raise ValueError.

(** [m * v] for [np.matrix] operands, [v] a column: the column [m v]. *)
Definition mat_vec (m : matrix) (v : vector) : res vector :=
  if forallb (fun r => (length r =? length v)%nat) m
  then Ok (map (fun r => vec_dot r v) m)
  else Raise ValueError.

(** [a - b] for two columns of one shape. *)
Definition vec_sub (a b : vector) : res vector :=
  if (length a =? length b)%nat
  then Ok (map (fun p => (fst p - snd p)%float) (combine a b))
  else Raise ValueError.

(** [np.outer(a, b)] *)
Definition np_outer (a b : vector) : matrix :=
  map (fun x => map (fun y => (x * y)%float) b) a.

(** ** Network math *)

Section NetworkMath.

(** [np.exp] on one float64. *)
Variable np_exp : float -> float.

Definition sigm1 (x : float) : float := (1 / (1 + np_exp (- x)))%float.

(** [sigm], elementwise. *)
Definition sigm (x : vector) : vector := map sigm1 x.

Definition dsigm (x : vector) : vector :=
  map (fun o => (o * (1 - o))%float) x.

Definition dcost (expect predict : vector) : res vector :=
  vec_sub predict expect.

Fixpoint execute (inp : vector) (weights : list matrix) : res (list vector) :=
  match weights with
  | [] => Ok []
  | w :: ws =>
      z <- np_dot (1%float :: inp) w ;;
      let inp' := sigm z in
      result <- execute inp' ws ;;
      Ok (inp' :: result)
  end.

(** One iteration of the loop of [gradients]: [k] is the loop variable,
    [i = len(weights) - k - 2] the layer it fills. *)
Definition gradients_body (weights : list matrix) (result : list vector)
  (k : nat) : res (list vector) :=
  let i := length weights - k - 2 in
  g <- mat_vec (tl (nth (i + 1) weights [])) (nth (i + 1) result []) ;;
  list_set i g result.

(** The placeholders [0.0] of the initial [result] are the vector [[0.0]]:
    each is overwritten before it is read. *)
Definition gradients (expect : vector) (out : list vector)
  (weights : list matrix) : res (list vector) :=
  let result := repeat [0%float] (length weights) in
  predict <- py_last out ;;
  g <- dcost expect predict ;;
  result <- set_last g result ;;
  for_each (gradients_body weights) (seq 0 (length weights - 1)) result.

(** [delta]: the loop over [zip(grad, out)], [inp] chained forward. *)
Fixpoint delta (inp : vector) (grad out : list vector) : list matrix :=
  match grad, out with
  | g :: grad', o :: out' => np_outer (1%float :: inp) g :: delta o grad' out'
  | _, _ => []
  end.

End NetworkMath.

(** ** Classification error and cost *)

(** A sample: the input column and the one-hot target column. *)
Definition sample : Type := (vector * vector)%type.

(** The scan of [np.argmax] over float64 entries: [mp] is the running maximum,
    [idx] its index, [i] the index of the head of [l].  An entry replaces the
    maximum when it is not [<=] it; a NaN ends the scan. *)
Fixpoint argmax_scan (mp : float) (idx i : nat) (l : list float) : nat :=
  match l with
  | [] => idx
  | x :: l' =>
      if (x <=? mp)%float then argmax_scan mp idx (S i) l'
      else if is_nan x then i
      else argmax_scan x i (S i) l'
  end.

Definition np_argmax (v : vector) : res nat :=
  match v with
  | [] => Raise ValueError
  | x :: l => Ok (if is_nan x then 0 else argmax_scan x 0 1 l)
  end.

(** [float(n)] for a length or a counter. *)
Definition float_of_nat (n : nat) : float :=
  of_uint63 (Uint63.of_Z (Z.of_nat n)).

(** [c / n] for two Python [int]s that are counters: true division.  Python
    rounds the exact quotient once; below [2^53] that is the quotient of the
    two conversions. *)
Definition py_truediv (c n : nat) : res float :=
  match n with
  | O => Raise ZeroDivisionError
  | S _ => Ok (float_of_nat c / float_of_nat n)%float
  end.

(** The largest finite float64. *)
Definition max_float : float := 0x1.fffffffffffffp+1023%float.

Definition nan_to_num (x : float) : float :=
  if is_nan x then 0%float
  else if (x =? infinity)%float then max_float
  else if (x =? neg_infinity)%float then (- max_float)%float
  else x.

Section Metrics.

Variable np_exp : float -> float.
(** [np.log] on one float64. *)
Variable np_log : float -> float.

(** The body of the loop of [error]. *)
Definition error_body (weights : list matrix) (count : nat) (s : sample)
  : res nat :=
  let '(inp, expect) := s in
  a <- np_argmax expect ;;
  out <- execute np_exp inp weights ;;
  predict <- py_last out ;;
  b <- np_argmax predict ;;
  Ok (if (a =? b)%nat then count else S count).

Definition error (data : list sample) (weights : list matrix) : res float :=
  count <- for_each (error_body weights) data 0 ;;
  py_truediv count (length data).

(** One entry of [predict] after the two masked assignments of [cost]. *)
Definition cost_term (e p : float) : float :=
  if (e =? 0)%float then nan_to_num (np_log (1 - p)%float)
  else (e * np_log p)%float.

(** The body of the loop of [cost].  The two boolean masks have the length
    of [expect]; indexing [predict] by them needs that length. *)
Definition cost_body (weights : list matrix) (accum : float) (s : sample)
  : res float :=
  let '(inp, expect) := s in
  out <- execute np_exp inp weights ;;
  predict <- py_last out ;;
  let psum := fsum predict in
  let predict :=
    if (0 <? psum)%float then map (fun p => (p / psum)%float) predict
    else predict in
  if (length expect =? length predict)%nat
  then Ok (accum - fsum (map (fun ep => cost_term (fst ep) (snd ep))
                             (combine expect predict)))%float
  else Raise IndexError.

Definition cost (data : list sample) (weights : list matrix) : res float :=
  accum <- for_each (cost_body weights) data 0%float ;;
  match length data with
  | O => Raise ZeroDivisionError
  | S _ => Ok (accum / float_of_nat (length data))%float
  end.

End Metrics.

(** ** Dataset loader *)

(** A line of the file is a Python [str].  The model has the characters with a
    code point below 256, as Rocq's [ascii]; a line with another character is
    outside the model.  [int] is the built-in of Python 3.11 with its default
    settings. *)

(** The white space [int] skips at both ends of a literal.  It skips the ASCII
    characters 9 to 13 and 32, after it has replaced every other white space
    character above 126 by a space: below 256 these are U+0085 and U+00A0.
    The separators 28 to 31, which [str.strip] removes, are not skipped. *)
Definition is_space (c : ascii) : bool :=
  let n := nat_of_ascii c in
  ((9 <=? n) && (n <=? 13) || (n =? 32) || (n =? 133) || (n =? 160))%nat.

Fixpoint lstrip (s : list ascii) : list ascii :=
  match s with
  | [] => []
  | c :: s' => if is_space c then lstrip s' else s
  end.

Definition strip (s : list ascii) : list ascii :=
  rev (lstrip (rev (lstrip s))).

Definition digit_val (c : ascii) : option Z :=
  let n := nat_of_ascii c in
  if ((48 <=? n) && (n <=? 57))%nat then Some (Z.of_nat (n - 48)) else None.

(** Decimal digits, single underscores allowed between two digits. *)
Fixpoint parse_digits (acc : Z) (after_digit : bool) (s : list ascii)
  : option Z :=
  match s with
  | [] => if after_digit then Some acc else None
  | c :: s' =>
      match digit_val c with
      | Some d => parse_digits (10 * acc + d) true s'
      | None =>
          if Ascii.eqb c "_"%char && after_digit
          then match s' with
               | [] => None
               | _ => parse_digits acc false s'
               end
          else None
      end
  end.

(** The default of [sys.int_max_str_digits]: [int] refuses a literal of more
    digits. *)
Definition int_max_str_digits : nat := 4300.

Definition count_digits (s : list ascii) : nat :=
  length (filter (fun c => match digit_val c with
                           | Some _ => true
                           | None => false
                           end) s).

(** [int(s)], base 10: white space at both ends, a sign, and decimal digits
    with single underscores between them; [ValueError] for every other
    string, and for a literal of more than [int_max_str_digits] digits. *)
Definition py_int (s : list ascii) : res Z :=
  let t := strip s in
  let r :=
    match t with
    | "+"%char :: t' => parse_digits 0 false t'
    | "-"%char :: t' => option_map Z.opp (parse_digits 0 false t')
    | _ => parse_digits 0 false t
    end in
  match r with
  | Some z =>
      if (count_digits t <=? int_max_str_digits)%nat then Ok z
      else Raise ValueError
  | None => Raise ValueError
  end.

(** [s.split(sep)] for a one-character separator. *)
Fixpoint split_on (sep : ascii) (s : list ascii) : list (list ascii) :=
  match s with
  | [] => [[]]
  | c :: s' =>
      if Ascii.eqb c sep then [] :: split_on sep s'
      else match split_on sep s' with
           | f :: fs => (c :: f) :: fs
           | [] => [[c]]
           end
  end.

(** The conversion of a Python [int] to float64: the nearest float, or
    [OverflowError] when that is beyond the largest one. *)
Definition float_of_Z (z : Z) : res float :=
  let f := SF2Prim (binary_normalize prec emax z 0 false) in
  if is_infinity f then Raise OverflowError else Ok f.

(** [np.eye(n)] *)
Definition eye (n : nat) : matrix :=
  map (fun i => map (fun j => if (i =? j)%nat then 1%float else 0%float)
                    (seq 0 n))
      (seq 0 n).

(** An index [i] into an axis of length [len], negative ones from the end. *)
Definition py_index (len : nat) (i : Z) : res nat :=
  if ((0 <=? i) && (i <? Z.of_nat len))%Z then Ok (Z.to_nat i)
  else if ((- Z.of_nat len <=? i) && (i <? 0))%Z
       then Ok (Z.to_nat (Z.of_nat len + i))
       else Raise IndexError.

(** [m[:, i]] *)
Definition matrix_column (m : matrix) (i : Z) : res vector :=
  j <- py_index (ncols m) i ;;
  Ok (column j m).

(** The body of the loop of [read_csv]: one line to one sample. *)
Definition read_line (line : string) : res sample :=
  match split_on ","%char (list_ascii_of_string line) with
  | [] => Raise ValueError
  | first :: rest =>
      digit <- py_int first ;;
      pixels <- map_res (fun f => z <- py_int f ;; float_of_Z z) rest ;;
      expect <- matrix_column (eye 10) digit ;;
      Ok (map (fun p => (p / 255)%float) pixels, expect)
  end.

(** [read_csv], on the lines of the file. *)
Definition read_csv (lines : list string) : res (list sample) :=
  for_each (fun data line => s <- read_line line ;; Ok (data ++ [s])) lines [].

(** ** Trainer *)

(** [int(x)] for a float: truncation toward zero. *)
Definition py_int_of_float (x : float) : res Z :=
  match Prim2SF x with
  | S754_nan => Raise ValueError
  | S754_infinity _ => Raise OverflowError
  | S754_zero _ => Ok 0%Z
  | S754_finite s m e =>
      Ok (cond_Zopp s (if (0 <=? e)%Z then Zpos m * 2 ^ e
                       else Zpos m / 2 ^ (- e)))%Z
  end.

(** The batch size after [if batch != np.inf: batch = int(batch)]. *)
Inductive batch_limit : Type :=
| BatchInf
| BatchInt (b : Z).

(** [batch_size == batch] *)
Definition batch_reached (batch_size : nat) (batch : batch_limit) : bool :=
  match batch with
  | BatchInf => false
  | BatchInt b => (Z.of_nat batch_size =? b)%Z
  end.

(** Elementwise operations on a layer list, as the ufuncs apply them. *)
Fixpoint zip_res {A B C : Type} (f : A -> B -> res C) (la : list A)
  (lb : list B) : res (list C) :=
  match la, lb with
  | [], [] => Ok []
  | a :: la', b :: lb' => c <- f a b ;; cs <- zip_res f la' lb' ;; Ok (c :: cs)
  | _, _ => Raise ValueError
  end.

Definition vec_map2 (f : float -> float -> float) (a b : vector) : res vector :=
  zip_res (fun x y => Ok (f x y)) a b.

Definition mat_map2 (f : float -> float -> float) (a b : matrix) : res matrix :=
  zip_res (vec_map2 f) a b.

(** A ufunc converts a list of layers to one array first.  Layers with
    different row counts give an array of layer objects, layers of one shape
    a three-dimensional array, and the ufunc then acts entry by entry in both
    cases; layers that agree in their row count and not in their column count
    cannot be put in an array, which raises [ValueError]. *)
Definition all_equal (l : list nat) : bool :=
  match l with
  | [] => true
  | x :: l' => forallb (Nat.eqb x) l'
  end.

Definition as_array (a : list matrix) : res (list matrix) :=
  if all_equal (map (@length vector) a) && negb (all_equal (map ncols a))
  then Raise ValueError
  else Ok a.

Definition layers_map2 (f : float -> float -> float) (a b : list matrix)
  : res (list matrix) :=
  a' <- as_array a ;;
  b' <- as_array b ;;
  zip_res (mat_map2 f) a' b'.

Definition layers_map (f : float -> float) (a : list matrix)
  : res (list matrix) :=
  a' <- as_array a ;;
  Ok (map (map (map f)) a').

(** [[ np.zeros(w.shape, w.dtype) for w in weights ]] *)
Definition zeros_like (weights : list matrix) : list matrix :=
  map (map (map (fun _ => 0%float))) weights.

(** The weight update of the sweep:
    [np.add(weights, np.subtract(np.multiply(momentum, old),
                                 np.multiply(ratio, np.divide(accum, batch_size))))]. *)
Definition new_weights (momentum ratio : float) (weights old accum : list matrix)
  (batch_size : nat) : res (list matrix) :=
  m <- layers_map (fun o => (momentum * o)%float) old ;;
  q <- layers_map (fun a => (a / float_of_nat batch_size)%float) accum ;;
  r <- layers_map (fun x => (ratio * x)%float) q ;;
  d <- layers_map2 PrimFloat.sub m r ;;
  layers_map2 PrimFloat.add weights d.

Record Args : Type := {
  momentum : float;
  generations : float;
  stop : float;
  (** whether [args.validate] is a non-empty path *)
  validate_given : bool
}.

(** The variables the sweep over the training set updates. *)
Record sweep_state : Type := {
  sw_weights : list matrix;
  sw_old : list matrix;
  sw_accum : list matrix;
  sw_batch_size : nat
}.

(** The variables of [mlp] that live across generations. *)
Record trainer : Type := {
  weights : list matrix;
  old : list matrix;
  train : list sample;
  train_errors : list float;
  validate_errors : list float;
  gen : nat
}.

Inductive exit : Type :=
| Converged
| ExhaustedGenerations.

Section Trainer.

Variable np_exp : float -> float.
Variable np_log : float -> float.
(** [np.random.randn(rows, cols)] as drawn for layer [l]. *)
Variable randn : nat -> nat -> nat -> matrix.
(** [np.random.shuffle], as it reorders the list in generation [g]. *)
Variable shuffle : nat -> list sample -> list sample.

Variable args : Args.
(** [mlp_globals['validate']] *)
Variable validate : list sample.

(** The body of [for j, (inp, expect) in enumerate(train)], [len_train]
    being [len(train)]. *)
Definition sweep_body (ratio : float) (batch : batch_limit) (len_train : nat)
  (st : sweep_state) (js : nat * sample) : res sweep_state :=
  let '(j, (inp, expect)) := js in
  out <- execute np_exp inp (sw_weights st) ;;
  grads <- gradients expect out (sw_weights st) ;;
  accum <- layers_map2 PrimFloat.add (sw_accum st) (delta inp grads out) ;;
  let batch_size := S (sw_batch_size st) in
  if batch_reached batch_size batch || (j + 1 =? len_train)%nat
  then
    new <- new_weights (momentum args) ratio (sw_weights st) (sw_old st)
             accum batch_size ;;
    Ok {| sw_weights := new;
          sw_old := sw_weights st;
          sw_accum := zeros_like new;
          sw_batch_size := 0 |}
  else
    Ok {| sw_weights := sw_weights st;
          sw_old := sw_old st;
          sw_accum := accum;
          sw_batch_size := batch_size |}.

Definition sweep (ratio : float) (batch : batch_limit) (ws os : list matrix)
  (data : list sample) : res sweep_state :=
  for_each (sweep_body ratio batch (length data))
    (combine (seq 0 (length data)) data)
    {| sw_weights := ws; sw_old := os;
       sw_accum := zeros_like ws; sw_batch_size := 0 |}.

(** One iteration of [while gen < generations]: [inl] is the [break]. *)
Definition generation (ratio : float) (batch : batch_limit) (t : trainer)
  : res (trainer + trainer) :=
  let gen' := S (gen t) in
  train_error <- error np_exp (train t) (weights t) ;;
  validate_error <-
    (if validate_given args then error np_exp validate (weights t)
     else Ok train_error) ;;
  if (validate_error <=? stop args)%float
  then Ok (inl {| weights := weights t; old := old t; train := train t;
                  train_errors := train_errors t;
                  validate_errors := validate_errors t;
                  gen := gen' |})
  else
    train_cost <- cost np_exp np_log (train t) (weights t) ;;
    validate_cost <-
      (if validate_given args then cost np_exp np_log validate (weights t)
       else Ok train_cost) ;;
    let validate_errors' :=
      if validate_given args then validate_errors t ++ [validate_error]
      else validate_errors t in
    let train_errors' := train_errors t ++ [train_error] in
    let train' := shuffle gen' (train t) in
    st <- sweep ratio batch (weights t) (old t) train' ;;
    Ok (inr {| weights := sw_weights st; old := sw_old st; train := train';
               train_errors := train_errors';
               validate_errors := validate_errors';
               gen := gen' |}).

(** The [while] loop, [budget] iterations from its exit by [gen]. *)
Fixpoint run (ratio : float) (batch : batch_limit) (budget : nat)
  (t : trainer) : res (exit * trainer) :=
  match budget with
  | O => Ok (ExhaustedGenerations, t)
  | S budget' =>
      r <- generation ratio batch t ;;
      match r with
      | inl t' => Ok (Converged, t')
      | inr t' => run ratio batch budget' t'
      end
  end.

(** [mlp] on the experiment [(ratio, batch, hidden)], with
    [mlp_globals['train']] as [train0]; the result is the state it ends its
    loop in.  Console lines and the result file are left out. *)
Definition mlp (ratio batch : float) (hidden : Z) (train0 : list sample)
  : res (exit * trainer) :=
  batch' <- (if negb (batch =? infinity)%float
             then b <- py_int_of_float batch ;; Ok (BatchInt b)
             else Ok BatchInf) ;;
  generations' <- (if negb (generations args =? infinity)%float
                   then g <- py_int_of_float (generations args) ;; Ok (Some g)
                   else Ok None) ;;
  if (hidden <? 0)%Z then Raise ValueError
  else
    let h := Z.to_nat hidden in
    let ws := [randn 0 (784 + 1) h; randn 1 (h + 1) 10] in
    match generations' with
    | None => Raise UnboundLocalError
    | Some g =>
        run ratio batch' (Z.to_nat g)
          {| weights := ws; old := ws; train := train0;
             train_errors := []; validate_errors := []; gen := 0 |}
    end.

End Trainer.

(** ** Experiment scheduler *)

(** An experiment [(ratio, batch, hidden)]. *)
Definition experiment : Type := (float * float * Z)%type.

(** [==] on two experiments: float [==] on the first two fields. *)
Definition experiment_eqb (a b : experiment) : bool :=
  let '(r1, b1, h1) := a in
  let '(r2, b2, h2) := b in
  (r1 =? r2)%float && (b1 =? b2)%float && (h1 =? h2)%Z.

(** [given or [ default ]] *)
Definition or_default {A : Type} (given : list A) (default : A) : list A :=
  match given with
  | [] => [default]
  | _ => given
  end.

(** [it.product(ratios, batches, hiddens)]: the last list varies fastest. *)
Definition product3 (rs bs : list float) (hs : list Z) : list experiment :=
  flat_map (fun r => flat_map (fun b => map (fun h => (r, b, h)) hs) bs) rs.

(** The list [experiments] before the duplicates are removed. *)
Definition experiments (rs bs : list float) (hs : list Z) : list experiment :=
  match rs, bs, hs with
  | [r], [b], [h] => [(r, b, h)]
  | _, _, _ => product3 rs bs hs
  end.

(** [[ e for e in experiments if not (e in unique or unique.add(e)) ]], the set
    [unique] as the list of its members. *)
Fixpoint unique_filter (unique es : list experiment) : list experiment :=
  match es with
  | [] => []
  | e :: es' =>
      if existsb (experiment_eqb e) unique then unique_filter unique es'
      else e :: unique_filter (e :: unique) es'
  end.

(** The tasks handed to the pool: [(e, pos, len(experiments))]. *)
Definition tasks (es : list experiment) : list (experiment * nat * nat) :=
  map (fun pe => (snd pe, fst pe, length es)) (combine (seq 0 (length es)) es).

(** The module body from [params] to the task list. *)
Definition schedule (ratio batch : list float) (hidden : list Z)
  (default_ratio default_batch : float) (default_hidden : Z)
  : list (experiment * nat * nat) :=
  let rs := or_default ratio default_ratio in
  let bs := or_default batch default_batch in
  let hs := or_default hidden default_hidden in
  tasks (unique_filter [] (experiments rs bs hs)).

(** ** Reference [exp] and [log]

    The theorems below hold for every [np_exp] and [np_log].  To run the
    program on a concrete input the two library functions need a value; these
    are binary64 implementations of them, exact where the exact result is a
    float ([exp 0 = 1], [log 1 = 0]) and at overflow and underflow, and good
    to about twelve significant digits elsewhere. *)

(** The Taylor polynomial of degree 18 of the exponential, by Horner's rule. *)
Definition exp_series (r : float) : float :=
  fold_right (fun k acc => (1 + (r / k) * acc)%float) 1%float
    (map float_of_nat (seq 1 18)).

Fixpoint square_n (n : nat) (x : float) : float :=
  match n with
  | O => x
  | S n' => square_n n' (x * x)%float
  end.

(** [exp x = (exp (x / 2^10)) ^ (2^10)] *)
Definition exp_ref (x : float) : float :=
  if (x <? -746)%float then 0%float
  else if (710 <? x)%float then infinity
  else square_n 10 (exp_series (x / 1024)%float).

Definition ln2 : float := 0x1.62e42fefa39efp-1%float.

(** Halley's iteration for [exp y = m]. *)
Fixpoint log_iter (n : nat) (m y : float) : float :=
  match n with
  | O => y
  | S n' =>
      let e := exp_ref y in
      log_iter n' m (y + 2 * ((m - e) / (m + e)))%float
  end.

(** [log (m * 2^e) = log m + e * log 2] *)
Definition log_ref (x : float) : float :=
  if is_nan x || (x <? 0)%float then nan
  else if (x =? 0)%float then neg_infinity
  else if (x =? infinity)%float then infinity
  else
    let '(m, e) := Z.frexp x in
    let fe := if (e <? 0)%Z then (- float_of_nat (Z.to_nat (- e)))%float
              else float_of_nat (Z.to_nat e) in
    (log_iter 8 (2 * m)%float 0%float + (fe - 1) * ln2)%float.

(** ** Shapes *)

(** A layer from [nf] units to [nt] units: [nf + 1] rows, the bias row first,
    of [nt] entries. *)
Definition layer_shapeb (nf nt : nat) (w : matrix) : bool :=
  (length w =? S nf)%nat && forallb (fun r => (length r =? nt)%nat) w.

(** A network whose layers chain from [nf] inputs through the widths [nts]. *)
Fixpoint shapedb (nf : nat) (nts : list nat) (ws : list matrix) : bool :=
  match nts, ws with
  | [], [] => true
  | nt :: nts', w :: ws' => layer_shapeb nf nt w && shapedb nt nts' ws'
  | _, _ => false
  end.

Definition layer_shape (nf nt : nat) (w : matrix) : Prop :=
  layer_shapeb nf nt w = true.

Definition shaped (nf : nat) (nts : list nat) (ws : list matrix) : Prop :=
  shapedb nf nts ws = true.

(** The topology of [mlp]: [nodes = ( 784, hidden, 10 )]. *)
Definition mlp_shaped (hidden : nat) (ws : list matrix) : Prop :=
  shaped 784 [hidden; 10] ws.

Unset Implicit Arguments.

(** * Specification vocabulary

    The predicates the theorems below are stated with. *)

(** ** Floats by their representation *)

(** The exponent of the last place of a binary64 value of magnitude [e]. *)
Definition fexp64 (e : Z) : Z := Z.max (e - 53) (-1074).

(** [1.0] *)
Definition sf_one : spec_float := S754_finite false (2 ^ 52)%positive (-52).

(** A float in [0, 1], by its representation. *)
Definition sf_unit (x : spec_float) : Prop :=
  match x with
  | S754_zero _ => True
  | S754_finite false m e => (e < -52 \/ (e = -52 /\ Zpos m <= 2 ^ 52))%Z
  | _ => False
  end.

(** A positive normal float that is at least one, or [+inf]. *)
Definition sf_ge_one (x : spec_float) : Prop :=
  match x with
  | S754_infinity false => True
  | S754_finite false m e => (2 ^ 52 <= Zpos m < 2 ^ 53 /\ -52 <= e <= 971)%Z
  | _ => False
  end.

(** A float that is zero, positive or [+inf]. *)
Definition sf_nonneg (x : spec_float) : Prop :=
  match x with
  | S754_zero _ | S754_infinity false | S754_finite false _ _ => True
  | _ => False
  end.

(** A mantissa of 53 digits. *)
Definition normal_mantissa (m : positive) : Prop :=
  (2 ^ 52 <= Zpos m < 2 ^ 53)%Z.

(** Float [==] on representations: the same non-NaN value, the two zeros
    being equal. *)
Definition sf_same (a b : spec_float) : Prop :=
  match a, b with
  | S754_zero _, S754_zero _ => True
  | S754_infinity s1, S754_infinity s2 => s1 = s2
  | S754_finite s1 m1 e1, S754_finite s2 m2 e2 => s1 = s2 /\ m1 = m2 /\ e1 = e2
  | _, _ => False
  end.

(** [0 <= x <= 1] *)
Definition in_unit (x : float) : Prop :=
  (0 <=? x)%float = true /\ (x <=? 1)%float = true.

(** [0 < x < 1] *)
Definition in_open_unit (x : float) : Prop :=
  (0 <? x)%float = true /\ (x <? 1)%float = true.

(** What [np.exp] returns: NaN, or a float that is zero, positive or [+inf]. *)
Definition exp_range (np_exp : float -> float) : Prop :=
  forall x, Prim2SF (np_exp x) = S754_nan \/ sf_nonneg (Prim2SF (np_exp x)).

(** ** Gradients *)

(** The invariant of the loop of [gradients] after [k] iterations: the last
    [k + 1] entries of [result] are final. *)
Definition grad_inv (nts : list nat) (weights : list matrix) (g : vector)
  (k : nat) (result : list vector) : Prop :=
  length result = length weights /\
  nth (length weights - 1) result [] = g /\
  (forall i, length weights - 1 - k <= i -> i < length weights ->
     length (nth i result []) = nth i nts 0) /\
  (forall i, length weights - 1 - k <= i -> i + 1 < length weights ->
     mat_vec (tl (nth (i + 1) weights [])) (nth (i + 1) result [])
     = Ok (nth i result [])).

(** ** Forward pass *)

(** The forward pass as the specification words it: layer by layer, a bias
    input of 1.0 in front, the weighted sums against the columns of the layer,
    the activation, and the result carried to the next layer. *)
Fixpoint forward (np_exp : float -> float) (inp : vector) (nts : list nat)
  (ws : list matrix) (outs : list vector) : Prop :=
  match nts, ws, outs with
  | [], [], [] => True
  | nt :: nts', w :: ws', o :: outs' =>
      o = map (fun j => sigm1 np_exp (vec_dot (1%float :: inp) (column j w)))
              (seq 0 nt) /\
      forward np_exp o nts' ws' outs'
  | _, _, _ => False
  end.

(** ** Experiments *)

Definition experiment_eq (a b : experiment) : Prop := experiment_eqb a b = true.

(** Neither float of the experiment is NaN. *)
Definition no_nan (e : experiment) : Prop :=
  is_nan (fst (fst e)) = false /\ is_nan (snd (fst e)) = false.

(** Value equality closed under identity: an equivalence on all experiments,
    and the same relation as [experiment_eq] where no field is NaN. *)
Definition experiment_equiv (a b : experiment) : Prop :=
  experiment_eq a b \/ a = b.

(** ** Records of the dataset file *)

Definition one_hot (width : nat) (label : nat) : vector :=
  map (fun i => if (i =? label)%nat then 1%float else 0%float) (seq 0 width).

(** A record of the file format: a label and the pixel intensities. *)
Definition record : Type := (Z * list Z)%type.

(** [line] holds the fields of the record [rc], each an integer literal. *)
Definition line_of_record (line : string) (rc : record) : Prop :=
  map py_int (split_on ","%char (list_ascii_of_string line))
  = map Ok (fst rc :: snd rc).

Definition well_formed (rc : record) : Prop :=
  (0 <= fst rc <= 9)%Z /\ length (snd rc) = 784 /\
  Forall (fun p => (0 <= p <= 255)%Z) (snd rc).

Definition pixel_float (p : Z) : float :=
  (SF2Prim (binary_normalize prec emax p 0 false) / 255)%float.

Definition sample_of_record (rc : record) : sample :=
  (map pixel_float (snd rc), one_hot 10 (Z.to_nat (fst rc))).

Definition pixel_okb (p : Z) : bool :=
  match float_of_Z p with
  | Ok f => ((0 <=? f / 255) && (f / 255 <=? 1))%float &&
            PrimFloat.Leibniz.eqb (f / 255)%float (pixel_float p)
  | Raise _ => false
  end.

(** ** Classification *)

(** Whether the network misclassifies a sample: the argmax of the target and
    the argmax of the prediction differ. *)
Definition misclassified (np_exp : float -> float) (weights : list matrix)
  (s : sample) : res bool :=
  a <- np_argmax (snd s) ;;
  out <- execute np_exp (fst s) weights ;;
  predict <- py_last out ;;
  b <- np_argmax predict ;;
  Ok (negb (a =? b)%nat).

(** The number of [true] entries. *)
Definition count_true (ms : list bool) : nat := length (filter (fun m => m) ms).

(** ** Batches of a sweep *)

(** One sample's weight delta added to the accumulator, for the network
    [weights]. *)
Definition accumulate (np_exp : float -> float) (weights accum : list matrix)
  (s : sample) : res (list matrix) :=
  out <- execute np_exp (fst s) weights ;;
  grads <- gradients (snd s) out weights ;;
  layers_map2 PrimFloat.add accum (delta (fst s) grads out).

(** The accumulated delta of a batch: the deltas of its samples, all for the
    network [weights], summed from zero in the order of the batch. *)
Definition batch_delta (np_exp : float -> float) (weights : list matrix)
  (chunk : list sample) : res (list matrix) :=
  for_each (accumulate np_exp weights) chunk (zeros_like weights).

(** The batches of a sweep over [data]: a batch ends when its count reaches
    the batch size, or with the last sample; [cur] is the batch being
    filled. *)
Fixpoint batches (batch : batch_limit) (cur data : list sample)
  : list (list sample) :=
  match data with
  | [] => []
  | s :: data' =>
      let cur' := cur ++ [s] in
      if batch_reached (length cur') batch || (length data' =? 0)%nat
      then cur' :: batches batch [] data'
      else batches batch cur' data'
  end.

(** The weight update at the end of a batch, on the pair (weights, old). *)
Definition update_step (np_exp : float -> float) (momentum ratio : float)
  (wo : list matrix * list matrix) (chunk : list sample)
  : res (list matrix * list matrix) :=
  accum <- batch_delta np_exp (fst wo) chunk ;;
  new <- new_weights momentum ratio (fst wo) (snd wo) accum (length chunk) ;;
  Ok (new, fst wo).

(** The state of the sweep after an update. *)
Definition after_update (wo : list matrix * list matrix) : sweep_state :=
  {| sw_weights := fst wo; sw_old := snd wo;
     sw_accum := zeros_like (fst wo); sw_batch_size := 0 |}.

(** Entry [(i, j)] of layer [l]. *)
Definition entry (a : list matrix) (l i j : nat) : float :=
  nth j (nth i (nth l a []) []) 0%float.

(** Layers of the same shapes. *)
Definition same_shapes (a b : list matrix) : Prop :=
  length a = length b /\
  forall l, l < length a ->
    length (nth l a []) = length (nth l b []) /\
    forall i, i < length (nth l a []) ->
      length (nth i (nth l a []) []) = length (nth i (nth l b []) []).


(** ** The trainer *)

(** [if batch != np.inf: batch = int(batch)] *)
Definition convert_batch (batch : float) : res batch_limit :=
  if negb (batch =? infinity)%float
  then b <- py_int_of_float batch ;; Ok (BatchInt b)
  else Ok BatchInf.

(** The variables of [mlp] when it enters its loop with the network [ws]. *)
Definition initial_trainer (ws : list matrix) (train0 : list sample) : trainer :=
  {| weights := ws; old := ws; train := train0;
     train_errors := []; validate_errors := []; gen := 0 |}.

(** The network [mlp] draws for [hidden] hidden units. *)
Definition initial_weights (randn : nat -> nat -> nat -> matrix) (hidden : Z)
  : list matrix :=
  [randn 0 (784 + 1) (Z.to_nat hidden);
   randn 1 (Z.to_nat hidden + 1) 10].

(** The trainer after a generation that stopped at the convergence check. *)
Definition stopped (t : trainer) : trainer :=
  {| weights := weights t; old := old t; train := train t;
     train_errors := train_errors t; validate_errors := validate_errors t;
     gen := S (gen t) |}.

(** A sample of the trainer's dataset: 784 inputs, a target of width 10. *)
Definition mnist_sample (s : sample) : Prop :=
  length (fst s) = 784 /\ length (snd s) = 10.

(** ** Concrete inputs *)

(** An image of 784 black pixels. *)
Definition blank_image : vector := repeat 0%float 784.

(** A network of the trainer's topology with one hidden unit: the hidden
    unit has bias -800, the ten outputs have bias 800, every other weight
    is zero. *)
Definition saturated_net : list matrix :=
  [ [(-800)%float] :: repeat [0%float] 784;
    [repeat 800%float 10; repeat 0%float 10] ].

(** The line of a record with label 7 and 784 black pixels. *)
Definition seven_line : string :=
  string_of_list_ascii
    ("7"%char :: flat_map (fun _ => [","%char; "0"%char]) (seq 0 784)).

Definition seven_record : record := (7%Z, repeat 0%Z 784).

(** A network of the trainer's topology with one hidden unit and no zero
    weight on the path of [first_pixel_image]: every weighted sum is 0, every
    output 0.5. *)
Definition balanced_net : list matrix :=
  [ [1%float] :: [(-1)%float] :: repeat [0%float] 783;
    [repeat 1%float 10; repeat (-2)%float 10] ].

(** An image whose first pixel is white, the others black. *)
Definition first_pixel_image : vector := 1%float :: repeat 0%float 783.

(** Two samples of two classes. *)
Definition two_samples : list sample :=
  [ (first_pixel_image, one_hot 10 0); (blank_image, one_hot 10 1) ].

(** [np.random.randn] that draws [balanced_net]. *)
Definition balanced_randn (l rows cols : nat) : matrix := nth l balanced_net [].

(** [np.random.shuffle] that leaves the order. *)
Definition no_shuffle (g : nat) (data : list sample) : list sample := data.

(** Momentum 0.5, one generation, no early stop, no validation set. *)
Definition one_generation : Args :=
  {| momentum := 0.5%float; generations := 1%float;
     stop := neg_infinity; validate_given := false |}.


(** ** Vocabulary of the further properties *)

(** Whether the network misclassifies a sample, [false] when the forward pass
    of the sample raises. *)
Definition misclassified_or_false (np_exp : float -> float) (ws : list matrix)
  (s : sample) : bool :=
  match misclassified np_exp ws s with
  | Ok m => m
  | Raise _ => false
  end.

(** A sample of the widths of a network of the topology [nf], [nts]. *)
Definition fits (nf : nat) (nts : list nat) (s : sample) : Prop :=
  length (fst s) = nf /\ length (snd s) = last nts 0.

(** The invariant of the loop of [mlp] for a network of the topology [nf],
    [nts]: the weights and the old weights have the topology, the weights
    convert to an array, the training set is not empty and fits. *)
Definition trainable (nf : nat) (nts : list nat) (t : trainer) : Prop :=
  shaped nf nts (weights t) /\ weights t <> [] /\
  as_array (weights t) = Ok (weights t) /\ shaped nf nts (old t) /\
  train t <> [] /\ Forall (fits nf nts) (train t).

(** A [randn] that draws zeros, in the requested shape. *)
Definition zero_randn (l rows cols : nat) : matrix :=
  repeat (repeat 0%float cols) rows.

(** The last element of a list replaced by its image. *)
Fixpoint on_last {A : Type} (g : A -> A) (l : list A) : list A :=
  match l with
  | [] => []
  | [x] => [g x]
  | x :: l' => x :: on_last g l'
  end.

(** The body of [read_line] on the fields of a line. *)
Definition read_fields (fields : list (list ascii)) : res sample :=
  match fields with
  | [] => Raise ValueError
  | first :: rest =>
      digit <- py_int first ;;
      pixels <- map_res (fun f => z <- py_int f ;; float_of_Z z) rest ;;
      expect <- matrix_column (eye 10) digit ;;
      Ok (map (fun p => (p / 255)%float) pixels, expect)
  end.

(** The end of a line of a file: line feed, and carriage return before it. *)
Definition newline : string := String "010"%char EmptyString.
Definition crlf : string := String "013"%char (String "010"%char EmptyString).

(** ** Image export

    [to_pgm] writes a sample as a plain PGM image to a new file, opened by
    [tempfile.NamedTemporaryFile] with the prefix ['{digit}_'], the suffix
    ['.pgm'] and [delete = False].  The part of the file name the library
    chooses is not modelled: the result names the prefix.  The file is
    modelled by its text; when the function raises after the file is opened,
    the text written so far stays in the file. *)

(** [str(z)] for a Python [int]. *)
Definition str_of_Z (z : Z) : string :=
  DecimalString.NilZero.string_of_int (Z.to_int z).

(** What can end the loops of [to_pgm]: [next(pixels)] on an exhausted
    iterator, or [int] on a float that is no integer. *)
Inductive pgm_exn : Type :=
| StopIteration
| PyExn (e : exn).

(** The inner loop of [to_pgm]: [n] values from the iterator [pixels],
    printed with [end = ' ']. *)
Fixpoint pgm_row (n : nat) (pixels : list float) (text : string)
  : string * (pgm_exn + list float) :=
  match n with
  | O => (text, inr pixels)
  | S n' =>
      match pixels with
      | [] => (text, inl StopIteration)
      | p :: pixels' =>
          match py_int_of_float (p * 255)%float with
          | Raise e => (text, inl (PyExn e))
          | Ok z => pgm_row n' pixels' (text ++ str_of_Z (255 - z) ++ " ")
          end
      end
  end.

(** The outer loop: [m] rows of 28 values, each ended by [print()]. *)
Fixpoint pgm_rows (m : nat) (pixels : list float) (text : string)
  : string * (pgm_exn + list float) :=
  match m with
  | O => (text, inr pixels)
  | S m' =>
      match pgm_row 28 pixels text with
      | (text', inr pixels') => pgm_rows m' pixels' (text' ++ newline)
      | (text', inl e) => (text', inl e)
      end
  end.

Inductive pgm_outcome : Type :=
| PgmNoFile (e : exn)
| PgmRaised (prefix text : string) (e : pgm_exn)
| PgmWritten (prefix text : string).

Definition pgm_header : string :=
  ("P2" ++ newline ++ "28 28" ++ newline ++ "255" ++ newline)%string.

Definition to_pgm (img expect : vector) : pgm_outcome :=
  match np_argmax expect with
  | Raise e => PgmNoFile e
  | Ok digit =>
      let prefix := (str_of_Z (Z.of_nat digit) ++ "_")%string in
      match pgm_rows 28 img pgm_header with
      | (text, inr _) => PgmWritten prefix text
      | (text, inl e) => PgmRaised prefix text e
      end
  end.

(** A row of a plain PGM image: the values, each followed by a space, and a
    line feed. *)
Definition pgm_line (values : list Z) : string :=
  fold_right (fun v s => (str_of_Z v ++ " " ++ s)%string) newline values.

(** [m] rows of 28 values. *)
Fixpoint pgm_lines (m : nat) (values : list Z) : string :=
  match m with
  | O => EmptyString
  | S m' => (pgm_line (firstn 28 values) ++ pgm_lines m' (skipn 28 values))%string
  end.

(** The plain PGM image of 28 x 28 grey values with the maximum 255. *)
Definition pgm_image (values : list Z) : string :=
  (pgm_header ++ pgm_lines 28 values)%string.

(** Whether the intensity [p], normalized by the loader, is printed by
    [to_pgm] as [255 - p]. *)
Definition pixel_backb (p : Z) : bool :=
  match py_int_of_float (pixel_float p * 255)%float with
  | Ok z => (z =? p)%Z
  | Raise _ => false
  end.

(** * Binary64 arithmetic

    Bounds on rounded sums and quotients, from the specification of the
    primitive operations. *)

Section FloatTheory.

Local Open Scope Z_scope.

(** ** Binary digits *)

Lemma digits2_pos_bounds (p : positive) :
  2 ^ (Zpos (digits2_pos p) - 1) <= Zpos p < 2 ^ Zpos (digits2_pos p).
Proof.
  induction p as [p IH|p IH|]; simpl digits2_pos.
  - rewrite Pos2Z.inj_succ.
    replace (Z.succ (Zpos (digits2_pos p)) - 1) with (Zpos (digits2_pos p)) by lia.
    rewrite Z.pow_succ_r by lia.
    replace (Zpos (digits2_pos p)) with (Z.succ (Zpos (digits2_pos p) - 1)) at 1 by lia.
    rewrite Z.pow_succ_r by lia. lia.
  - rewrite Pos2Z.inj_succ.
    replace (Z.succ (Zpos (digits2_pos p)) - 1) with (Zpos (digits2_pos p)) by lia.
    rewrite Z.pow_succ_r by lia.
    replace (Zpos (digits2_pos p)) with (Z.succ (Zpos (digits2_pos p) - 1)) at 1 by lia.
    rewrite Z.pow_succ_r by lia. lia.
  - simpl. lia.
Qed.

(** [digits m = d] from the bounds. *)
Lemma digits2_pos_unique (p : positive) (d : Z) :
  2 ^ (d - 1) <= Zpos p < 2 ^ d -> Zpos (digits2_pos p) = d.
Proof.
  intros [H1 H2]. pose proof (digits2_pos_bounds p) as [H3 H4].
  assert (Hd : 0 < d).
  { destruct (Z_lt_le_dec 0 d); [assumption|].
    assert (2 ^ d <= 1).
    { destruct (Z.eq_dec d 0) as [->|]; [simpl; lia|].
      rewrite Z.pow_neg_r by lia. lia. }
    lia. }
  destruct (Z.lt_trichotomy (Zpos (digits2_pos p)) d) as [H|[H|H]]; [|exact H|].
  - assert (2 ^ Zpos (digits2_pos p) <= 2 ^ (d - 1)) by (apply Z.pow_le_mono_r; lia). lia.
  - assert (2 ^ d <= 2 ^ (Zpos (digits2_pos p) - 1)) by (apply Z.pow_le_mono_r; lia). lia.
Qed.

Lemma Zdigits2_bounds (m : Z) :
  0 < m -> 2 ^ (Zdigits2 m - 1) <= m < 2 ^ Zdigits2 m.
Proof. destruct m as [|p|p]; try lia. intros _. apply digits2_pos_bounds. Qed.

Lemma Zdigits2_unique (m d : Z) :
  2 ^ (d - 1) <= m < 2 ^ d -> 0 < m -> Zdigits2 m = d.
Proof.
  destruct m as [|p|p]; try lia. intros H _. apply digits2_pos_unique, H.
Qed.

(** ** Shifting right *)

Lemma shr_1_m (mrs : shr_record) :
  0 <= shr_m mrs -> shr_m (shr_1 mrs) = shr_m mrs / 2.
Proof.
  destruct mrs as [m r s]. simpl. intros Hm.
  destruct m as [|[p|p|]|p]; simpl; try lia; try reflexivity.
  - rewrite Pos2Z.inj_xI. apply Z.div_unique with (r := 1); lia.
  - rewrite Pos2Z.inj_xO. apply Z.div_unique with (r := 0); lia.
Qed.

Lemma iter_pos_shr_m (p : positive) : forall mrs,
  0 <= shr_m mrs ->
  shr_m (iter_pos shr_1 p mrs) = shr_m mrs / 2 ^ Zpos p.
Proof.
  assert (Hnn : forall mrs, 0 <= shr_m mrs -> 0 <= shr_m (shr_1 mrs)).
  { intros mrs H. rewrite shr_1_m by exact H. apply Z.div_pos; lia. }
  induction p as [p IH|p IH|]; intros mrs Hm; simpl iter_pos.
  - rewrite IH, IH, shr_1_m; auto.
    + rewrite !Z.div_div by (try apply Z.pow_pos_nonneg; lia).
      f_equal. rewrite Pos2Z.inj_xI, <- Z.pow_add_r, <- Z.pow_succ_r by lia.
      f_equal; lia.
    + rewrite IH by auto. apply Z.div_pos; [auto | apply Z.pow_pos_nonneg; lia].
  - rewrite IH, IH; auto.
    + rewrite !Z.div_div by (try apply Z.pow_pos_nonneg; lia).
      f_equal. rewrite Pos2Z.inj_xO, <- Z.pow_add_r by lia. f_equal; lia.
    + rewrite IH by auto. apply Z.div_pos; [auto | apply Z.pow_pos_nonneg; lia].
  - rewrite shr_1_m by auto. reflexivity.
Qed.

Lemma shr_m_of_loc (m : Z) (l : location) : shr_m (shr_record_of_loc m l) = m.
Proof. destruct l as [|[| |]]; reflexivity. Qed.

(** The mantissa and exponent after [shr_fexp]: a floor division. *)
Lemma shr_fexp_spec (prec emax m e : Z) (l : location) :
  0 <= m ->
  let n := Z.max 0 (fexp prec emax (Zdigits2 m + e) - e) in
  shr_m (fst (shr_fexp prec emax m e l)) = m / 2 ^ n /\
  snd (shr_fexp prec emax m e l) = e + n.
Proof.
  intros Hm n. unfold shr_fexp, shr. subst n.
  destruct (fexp prec emax (Zdigits2 m + e) - e) as [|p|p] eqn:E; simpl fst; simpl snd.
  - rewrite shr_m_of_loc. simpl. rewrite Z.div_1_r. split; lia.
  - rewrite iter_pos_shr_m by (rewrite shr_m_of_loc; exact Hm).
    rewrite shr_m_of_loc. rewrite Z.max_r by lia. split; reflexivity.
  - rewrite shr_m_of_loc. rewrite Z.max_l by lia. simpl. rewrite Z.div_1_r. split; lia.
Qed.

Lemma round_nearest_even_bounds (m : Z) (l : location) :
  m <= round_nearest_even m l <= m + 1.
Proof.
  destruct l as [|[| |]]; simpl; try lia. destruct (Z.even m); lia.
Qed.

(** ** Rounding *)

(** [binary_round_aux] as two floor divisions around a rounding step that adds
    at most one to the mantissa. *)
Lemma binary_round_aux_spec (prec emax : Z) (sx : bool) (mx ex : Z) (lx : location) :
  0 <= mx ->
  let n1 := Z.max 0 (fexp prec emax (Zdigits2 mx + ex) - ex) in
  let m1 := mx / 2 ^ n1 in
  let e1 := ex + n1 in
  exists m2,
    m1 <= m2 <= m1 + 1 /\
    let n3 := Z.max 0 (fexp prec emax (Zdigits2 m2 + e1) - e1) in
    binary_round_aux prec emax sx mx ex lx =
    match m2 / 2 ^ n3 with
    | Z0 => S754_zero sx
    | Zpos m => if e1 + n3 <=? emax - prec then S754_finite sx m (e1 + n3)
                else S754_infinity sx
    | Zneg _ => S754_nan
    end.
Proof.
  intros Hm n1 m1 e1.
  pose proof (shr_fexp_spec prec emax mx ex lx Hm) as [H1 H2].
  fold n1 in H1, H2. fold m1 in H1. fold e1 in H2.
  unfold binary_round_aux.
  destruct (shr_fexp prec emax mx ex lx) as [mrs' e'] eqn:E1.
  simpl in H1, H2. subst e'.
  set (m2 := round_nearest_even (shr_m mrs') (loc_of_shr_record mrs')).
  assert (Hm2 : m1 <= m2 <= m1 + 1).
  { unfold m2. rewrite <- H1. apply round_nearest_even_bounds. }
  assert (Hm1 : 0 <= m1).
  { unfold m1. apply Z.div_pos; [exact Hm | apply Z.pow_pos_nonneg; lia]. }
  exists m2. split; [exact Hm2|].
  pose proof (shr_fexp_spec prec emax m2 e1 loc_Exact ltac:(lia)) as [H3 H4].
  destruct (shr_fexp prec emax m2 e1 loc_Exact) as [mrs'' e''] eqn:E2.
  simpl in H3, H4. cbv zeta. rewrite H3, H4. reflexivity.
Qed.

(** ** Powers of two *)

Lemma pow2_pos (k : Z) : 0 <= k -> 0 < 2 ^ k.
Proof. intros; apply Z.pow_pos_nonneg; lia. Qed.

Lemma pow2_div_lt (m n b : Z) :
  0 <= n -> 0 <= b -> m < 2 ^ (n + b) -> m / 2 ^ n < 2 ^ b.
Proof.
  intros Hn Hb H. apply Z.div_lt_upper_bound; [apply pow2_pos, Hn|].
  rewrite <- Z.pow_add_r by lia. exact H.
Qed.

Lemma pow2_div_le (m n b : Z) :
  0 <= n -> 0 <= b -> m <= 2 ^ (n + b) -> m / 2 ^ n <= 2 ^ b.
Proof.
  intros Hn Hb H.
  replace (2 ^ b) with (2 ^ (n + b) / 2 ^ n).
  - apply Z.div_le_mono; [apply pow2_pos, Hn | exact H].
  - rewrite Z.pow_add_r, Z.mul_comm by lia. apply Z.div_mul.
    pose proof (pow2_pos n Hn). lia.
Qed.

Lemma Zdigits2_le_of_lt (m k : Z) : 0 < m -> m < 2 ^ k -> Zdigits2 m <= k.
Proof.
  intros Hm H. pose proof (Zdigits2_bounds m Hm) as [H1 _].
  destruct (Z_lt_le_dec k (Zdigits2 m)) as [Hlt|]; [|lia].
  assert (2 ^ k <= 2 ^ (Zdigits2 m - 1)) by (apply Z.pow_le_mono_r; lia). lia.
Qed.

Lemma Zdigits2_pos (m : Z) : 0 < m -> 0 < Zdigits2 m.
Proof. destruct m; simpl; lia. Qed.

(** ** Binary64 *)

Lemma fexp64_eq (e : Z) : fexp prec emax e = fexp64 e.
Proof. reflexivity. Qed.

(** Rounding a value below one gives a float that is at most one. *)
Lemma binary_round_aux_le_one (mx ex : Z) (lx : location) :
  0 <= mx -> ex <= -53 -> mx + 1 <= 2 ^ (- ex) ->
  sf_unit (binary_round_aux prec emax false mx ex lx).
Proof.
  intros Hmx Hex Hlt.
  destruct (binary_round_aux_spec prec emax false mx ex lx Hmx) as (m2 & Hm2 & ->).
  change (fexp prec emax) with fexp64 in *. cbv zeta in *.
  set (n1 := Z.max 0 (fexp64 (Zdigits2 mx + ex) - ex)) in *.
  set (e1 := ex + n1) in *.
  set (m1 := mx / 2 ^ n1) in *.
  assert (Hn1 : 0 <= n1) by (unfold n1; lia).
  assert (He1 : e1 <= -53).
  { unfold e1, n1. destruct (Z.eq_dec mx 0) as [->|Hne].
    - simpl Zdigits2. unfold fexp64. lia.
    - pose proof (Zdigits2_le_of_lt mx (- ex) ltac:(lia) ltac:(lia)).
      unfold fexp64. lia. }
  assert (Hm1 : m1 + 1 <= 2 ^ (- e1)).
  { unfold m1. assert (mx / 2 ^ n1 < 2 ^ (- e1)); [|lia].
    apply pow2_div_lt; [lia | lia |].
    replace (n1 + - e1) with (- ex) by (unfold e1; lia). lia. }
  assert (Hm1' : 0 <= m1) by (unfold m1; apply Z.div_pos; [lia | apply pow2_pos; lia]).
  set (n3 := Z.max 0 (fexp64 (Zdigits2 m2 + e1) - e1)).
  assert (Hn3 : 0 <= n3) by (unfold n3; lia).
  destruct (m2 / 2 ^ n3) as [|m3|m3] eqn:E3.
  - exact I.
  - assert (Hm2pos : 0 < m2).
    { destruct (Z.eq_dec m2 0) as [H0|]; [|lia]. rewrite H0, Z.div_0_l in E3; [discriminate|].
      pose proof (pow2_pos n3 Hn3). lia. }
    assert (Hd2 : Zdigits2 m2 + e1 <= 1).
    { pose proof (Zdigits2_bounds m2 Hm2pos) as [Hlow _].
      destruct (Z_lt_le_dec (- e1) (Zdigits2 m2 - 1)) as [Hlt'|]; [|lia].
      assert (2 ^ (- e1 + 1) <= 2 ^ (Zdigits2 m2 - 1)) by (apply Z.pow_le_mono_r; lia).
      rewrite Z.pow_add_r in H by lia. pose proof (pow2_pos (- e1) ltac:(lia)). lia. }
    assert (He3 : e1 + n3 <= -52) by (unfold n3, fexp64; lia).
    replace (e1 + n3 <=? emax - prec) with true
      by (symmetry; apply Z.leb_le; unfold emax, prec; lia).
    cbn [sf_unit]. destruct (Z.eq_dec (e1 + n3) (-52)) as [Heq|Hne]; [right | left; lia].
    split; [exact Heq|]. rewrite <- E3.
    apply pow2_div_le; [lia | lia |].
    replace (n3 + 52) with (- e1) by lia. lia.
  - exfalso. assert (0 <= m2 / 2 ^ n3); [|lia].
    apply Z.div_pos; [lia | apply pow2_pos; lia].
Qed.

Lemma pow2_div_ge (m n b : Z) :
  0 <= n -> 0 <= b -> 2 ^ (n + b) <= m -> 2 ^ b <= m / 2 ^ n.
Proof.
  intros Hn Hb H.
  replace (2 ^ b) with (2 ^ (n + b) / 2 ^ n).
  - apply Z.div_le_mono; [apply pow2_pos, Hn | exact H].
  - rewrite Z.pow_add_r, Z.mul_comm by lia. apply Z.div_mul.
    pose proof (pow2_pos n Hn). lia.
Qed.

(** Rounding a value of at least one, given with at least 53 digits. *)
Lemma binary_round_aux_ge_one (mx ex : Z) (lx : location) :
  0 < mx -> 1 <= Zdigits2 mx + ex -> ex <= fexp64 (Zdigits2 mx + ex) ->
  sf_ge_one (binary_round_aux prec emax false mx ex lx).
Proof.
  intros Hmx HE Hex.
  destruct (binary_round_aux_spec prec emax false mx ex lx ltac:(lia)) as (m2 & Hm2 & ->).
  change (fexp prec emax) with fexp64 in *. cbv zeta in *.
  pose proof (Zdigits2_bounds mx Hmx) as [Hlo Hhi].
  set (D := Zdigits2 mx) in *.
  set (n1 := Z.max 0 (fexp64 (D + ex) - ex)) in *.
  set (e1 := ex + n1) in *.
  set (m1 := mx / 2 ^ n1) in *.
  assert (Hn1 : n1 = D - 53) by (unfold n1, fexp64 in *; lia).
  assert (He1 : -52 <= e1) by (unfold e1; lia).
  assert (Hm1 : 2 ^ 52 <= m1 < 2 ^ 53).
  { unfold m1. split.
    - apply pow2_div_ge; [lia | lia |]. replace (n1 + 52) with (D - 1) by lia. exact Hlo.
    - apply pow2_div_lt; [lia | lia |]. replace (n1 + 53) with D by lia. exact Hhi. }
  set (n3 := Z.max 0 (fexp64 (Zdigits2 m2 + e1) - e1)).
  assert (Hcases : (m2 < 2 ^ 53 /\ n3 = 0) \/ (m2 = 2 ^ 53 /\ n3 = 1)).
  { destruct (Z_lt_le_dec m2 (2 ^ 53)) as [Hlt|Hge].
    - left. split; [exact Hlt|].
      assert (Zdigits2 m2 = 53) by (apply Zdigits2_unique; lia).
      unfold n3, fexp64. lia.
    - right. assert (Heq : m2 = 2 ^ 53) by lia. split; [exact Heq|].
      assert (Zdigits2 m2 = 54) by (rewrite Heq; reflexivity).
      unfold n3, fexp64. lia. }
  destruct Hcases as [[Hlt ->]|[-> ->]].
  - rewrite Z.pow_0_r, Z.div_1_r, Z.add_0_r.
    destruct m2 as [|p|p]; try lia.
    destruct (e1 <=? emax - prec) eqn:E; cbn [sf_ge_one]; [|exact I].
    apply Z.leb_le in E. unfold emax, prec in E. lia.
  - replace (2 ^ 53 / 2 ^ 1) with (2 ^ 52) by reflexivity.
    change (2 ^ 52) with (Zpos (2 ^ 52)%positive).
    destruct (e1 + 1 <=? emax - prec) eqn:E; cbn [sf_ge_one]; [|exact I].
    apply Z.leb_le in E. unfold emax, prec in E.
    change (Zpos (2 ^ 52)%positive) with (2 ^ 52). lia.
Qed.

(** ** Division *)

Lemma SFdiv_core_binary_spec (m1 e1 m2 e2 : Z) :
  0 < m1 -> 0 < m2 ->
  let e' := Z.min (fexp64 (Zdigits2 m1 + e1 - (Zdigits2 m2 + e2))) (e1 - e2) in
  let s := e1 - e2 - e' in
  SFdiv_core_binary prec emax m1 e1 m2 e2
  = ((m1 * 2 ^ s) / m2, e', new_location m2 ((m1 * 2 ^ s) mod m2)).
Proof.
  intros Hm1 Hm2 e' s. unfold SFdiv_core_binary.
  change (fexp prec emax) with fexp64. fold e'. fold s.
  assert (Hs : 0 <= s) by (unfold s, e'; lia).
  assert (Hm' : forall s0, 0 <= s0 ->
                match s0 with
                | Z.pos _ => Z.shiftl m1 s0
                | 0 => m1
                | Z.neg _ => 0
                end = m1 * 2 ^ s0).
  { intros [|p|p] H;
      [rewrite Z.pow_0_r; lia | apply Z.shiftl_mul_pow2; lia | lia]. }
  rewrite (Hm' s Hs). unfold Z.div, Z.modulo.
  destruct (Z.div_eucl (m1 * 2 ^ s) m2) as [q r]. reflexivity.
Qed.

Lemma normal_digits (m : positive) : normal_mantissa m -> Zdigits2 (Zpos m) = 53.
Proof. intros H. apply Zdigits2_unique; [exact H | lia]. Qed.

Lemma SFdiv_lt_le_one (ma mb : positive) (ea eb : Z) :
  normal_mantissa ma -> normal_mantissa mb ->
  ea < eb \/ (ea = eb /\ (ma < mb)%positive) ->
  sf_unit (SFdiv prec emax (S754_finite false ma ea) (S754_finite false mb eb)).
Proof.
  intros Ha Hb Hlt. unfold SFdiv.
  rewrite SFdiv_core_binary_spec by lia. cbv zeta.
  rewrite !normal_digits by assumption.
  replace (53 + ea - (53 + eb)) with (ea - eb) by lia.
  set (e' := Z.min (fexp64 (ea - eb)) (ea - eb)).
  set (s := ea - eb - e').
  unfold normal_mantissa in Ha, Hb.
  assert (He' : e' <= -53) by (unfold e', fexp64; lia).
  assert (Hs : 0 <= s) by (unfold s, e'; lia).
  pose proof (pow2_pos s Hs) as Hps.
  apply binary_round_aux_le_one.
  - apply Z.div_pos; [|lia]. apply Z.mul_nonneg_nonneg; lia.
  - exact He'.
  - assert (Z.pos ma * 2 ^ s / Z.pos mb < 2 ^ (- e')); [|lia].
    apply Z.div_lt_upper_bound; [lia|].
    destruct Hlt as [Hlt|[Heq Hlt]].
    + assert (Hpow : 2 ^ (s + 1) <= 2 ^ (- e')) by (apply Z.pow_le_mono_r; unfold s; lia).
      rewrite Z.pow_add_r in Hpow by lia.
      nia.
    + assert (Hse : - e' = s) by (unfold s; lia). rewrite Hse.
      assert (Z.pos ma < Z.pos mb) by lia. nia.
Qed.

Lemma SFdiv_self (m : positive) (e : Z) :
  SFdiv prec emax (S754_finite false m e) (S754_finite false m e)
  = S754_finite false (2 ^ 52)%positive (-52).
Proof.
  unfold SFdiv. rewrite SFdiv_core_binary_spec by lia. cbv zeta.
  replace (Zdigits2 (Z.pos m) + e - (Zdigits2 (Z.pos m) + e)) with 0 by lia.
  replace (e - e) with 0 by lia.
  change (Z.min (fexp64 0) 0) with (-53). change (0 - -53) with 53.
  rewrite Z.mul_comm, Z.div_mul, Z.mod_mul by lia.
  assert (Hloc : new_location (Z.pos m) 0 = loc_Exact).
  { unfold new_location. destruct (Z.even (Z.pos m)); reflexivity. }
  rewrite Hloc. vm_compute. reflexivity.
Qed.

(** ** Addition *)

Lemma Pos_iter_xO (m d : positive) : Zpos (Pos.iter xO m d) = Zpos m * 2 ^ Zpos d.
Proof.
  induction d as [|d IH] using Pos.peano_ind.
  - simpl. lia.
  - rewrite Pos.iter_succ, Pos2Z.inj_xO, IH, Pos2Z.inj_succ, Z.pow_succ_r by lia. lia.
Qed.

Lemma shl_align_spec (mx : positive) (ex ex' : Z) :
  let k := Z.max 0 (ex - ex') in
  Zpos (fst (shl_align mx ex ex')) = Zpos mx * 2 ^ k /\
  snd (shl_align mx ex ex') = ex - k.
Proof.
  unfold shl_align. destruct (ex' - ex) as [|d|d] eqn:E; simpl fst; simpl snd.
  - rewrite Z.max_l by lia. rewrite Z.pow_0_r. lia.
  - rewrite Z.max_l by lia. rewrite Z.pow_0_r. lia.
  - rewrite Z.max_r by lia. rewrite Pos_iter_xO.
    replace (ex - ex') with (Zpos d) by lia. split; [reflexivity | lia].
Qed.

Lemma Zdigits2_mul_pow2 (m k : Z) :
  0 < m -> 0 <= k -> Zdigits2 (m * 2 ^ k) = Zdigits2 m + k.
Proof.
  intros Hm Hk. pose proof (Zdigits2_bounds m Hm) as [Hlo Hhi].
  pose proof (Zdigits2_pos m Hm) as Hd. pose proof (pow2_pos k Hk) as Hp.
  apply Zdigits2_unique; [|nia].
  replace (Zdigits2 m + k - 1) with (Zdigits2 m - 1 + k) by lia.
  rewrite !Z.pow_add_r by lia. nia.
Qed.

(** [binary_round] on a value of at least one. *)
Lemma binary_round_ge_one (m : positive) (e : Z) :
  1 <= Zdigits2 (Zpos m) + e ->
  sf_ge_one (binary_round prec emax false m e).
Proof.
  intros HE. unfold binary_round.
  change (fexp prec emax) with fexp64.
  change (Z.pos (digits2_pos m)) with (Zdigits2 (Z.pos m)).
  pose proof (shl_align_spec m e (fexp64 (Zdigits2 (Z.pos m) + e))) as [H1 H2].
  destruct (shl_align m e (fexp64 (Zdigits2 (Z.pos m) + e))) as [mz ez].
  simpl fst in H1. simpl snd in H2. cbv zeta in H1, H2.
  set (k := Z.max 0 (e - fexp64 (Zdigits2 (Z.pos m) + e))) in *.
  assert (Hk : 0 <= k) by (unfold k; lia).
  assert (Hd : Zdigits2 (Z.pos mz) + ez = Zdigits2 (Z.pos m) + e).
  { rewrite H1, Zdigits2_mul_pow2 by lia. lia. }
  apply binary_round_aux_ge_one; [lia | lia |].
  rewrite Hd. unfold k in H2. lia.
Qed.

Lemma SFadd_one_ge_one (x : spec_float) :
  sf_nonneg x -> sf_ge_one (SFadd prec emax sf_one x).
Proof.
  destruct x as [s|[|]| |[|] m e]; simpl sf_nonneg; try contradiction; intros _.
  - cbn. split; lia.
  - exact I.
  - unfold SFadd, sf_one. cbv zeta.
    set (ez := Z.min (-52) e).
    pose proof (shl_align_spec (2 ^ 52)%positive (-52) ez) as [HA _].
    pose proof (shl_align_spec m e ez) as [HB _].
    cbv zeta in HA, HB. cbn [cond_Zopp].
    set (A := fst (shl_align (2 ^ 52)%positive (-52) ez)) in *.
    set (B := fst (shl_align m e ez)) in *.
    change (Z.pos A + Z.pos B) with (Z.pos (A + B)).
    cbn [binary_normalize]. apply binary_round_ge_one.
    rewrite Pos2Z.inj_add.
    assert (Hk : Z.max 0 (-52 - ez) = -52 - ez) by (unfold ez; lia).
    rewrite Hk in HA.
    assert (HA' : Z.pos A = 2 ^ (- ez)).
    { rewrite HA. change (Z.pos (2 ^ 52)) with (2 ^ 52).
      rewrite <- Z.pow_add_r by (unfold ez; lia). f_equal. lia. }
    assert (Hlow : 2 ^ (- ez) <= Z.pos A + Z.pos B) by lia.
    pose proof (Zdigits2_bounds (Z.pos A + Z.pos B) ltac:(lia)) as [_ Hhi].
    destruct (Z_lt_le_dec (Zdigits2 (Z.pos A + Z.pos B) + ez) 1) as [Hc|]; [|lia].
    assert (2 ^ Zdigits2 (Z.pos A + Z.pos B) <= 2 ^ (- ez))
      by (apply Z.pow_le_mono_r; lia).
    lia.
Qed.

Lemma SFdiv_one_unit (s : spec_float) :
  sf_ge_one s -> sf_unit (SFdiv prec emax sf_one s).
Proof.
  destruct s as [s|[|]| |[|] m e]; simpl sf_ge_one; try contradiction.
  - intros _. exact I.
  - intros [Hm He].
    destruct (Z.eq_dec e (-52)) as [->|Hne].
    + destruct (Pos.eq_dec m (2 ^ 52)) as [->|Hm'].
      * unfold sf_one. rewrite SFdiv_self. cbn. right. split; [reflexivity | lia].
      * apply SFdiv_lt_le_one; [unfold normal_mantissa; simpl; lia | exact Hm |].
        right. split; [reflexivity|].
        change (2 ^ 52) with (Z.pos (2 ^ 52)) in Hm. lia.
    + apply SFdiv_lt_le_one; [unfold normal_mantissa; simpl; lia | exact Hm |].
      left. lia.
Qed.

(** ** Primitive floats *)

Lemma Prim2SF_one : Prim2SF 1%float = sf_one.
Proof. reflexivity. Qed.

Lemma Prim2SF_zero : Prim2SF 0%float = S754_zero false.
Proof. reflexivity. Qed.

(** [1 / (1 + y)] is in [0, 1] for a [y] that is zero, positive or [+inf]. *)
Lemma sigmoid_quotient_unit (y : float) :
  sf_nonneg (Prim2SF y) -> sf_unit (Prim2SF (1 / (1 + y))%float).
Proof.
  intros Hy. rewrite FloatAxioms.div_spec, FloatAxioms.add_spec, Prim2SF_one.
  apply SFdiv_one_unit, SFadd_one_ge_one, Hy.
Qed.

Lemma sigmoid_quotient_nan (y : float) :
  Prim2SF y = S754_nan -> Prim2SF (1 / (1 + y))%float = S754_nan.
Proof.
  intros Hy. rewrite FloatAxioms.div_spec, FloatAxioms.add_spec, Prim2SF_one, Hy. reflexivity.
Qed.

Lemma leb_zero_l (x : float) :
  (0 <=? x)%float = SFleb (S754_zero false) (Prim2SF x).
Proof. exact (FloatAxioms.leb_spec 0 x). Qed.

Lemma leb_one_r (x : float) : (x <=? 1)%float = SFleb (Prim2SF x) sf_one.
Proof. exact (FloatAxioms.leb_spec x 1). Qed.


Lemma pos_compare_cont_spec (p q : positive) :
  CompareSpec (Z.pos p = Z.pos q) (Z.pos p < Z.pos q) (Z.pos q < Z.pos p)
    (Pos.compare_cont Eq p q).
Proof.
  pose proof (Pos.compare_spec p q) as H. unfold Pos.compare in H.
  destruct H; constructor; lia.
Qed.

Lemma sf_unit_leb (x : float) :
  sf_unit (Prim2SF x) -> (0 <=? x)%float = true /\ (x <=? 1)%float = true.
Proof.
  rewrite (leb_zero_l x).
  rewrite (leb_one_r x).
  destruct (Prim2SF x) as [s|s| |[|] m e]; simpl sf_unit; try contradiction.
  - intros _. split; reflexivity.
  - intros H. split; [reflexivity|].
    unfold SFleb, SFcompare, sf_one.
    destruct H as [H|[-> H]].
    + rewrite (proj2 (Z.compare_lt_iff e (-52)) H). reflexivity.
    + rewrite Z.compare_refl.
      destruct (pos_compare_cont_spec m (2 ^ 52)) as [Hc|Hc|Hc]; try reflexivity.
      change (Z.pos (2 ^ 52)) with (2 ^ 52) in Hc. 
      lia.
Qed.


(** ** Conversion of counters *)





(** ** Squares *)

Lemma binary_round_aux_sign (mx ex : Z) (lx : location) :
  0 <= mx ->
  binary_round_aux prec emax false mx ex lx = S754_nan \/
  sf_nonneg (binary_round_aux prec emax false mx ex lx).
Proof.
  intros Hmx.
  destruct (binary_round_aux_spec prec emax false mx ex lx Hmx) as (m2 & _ & ->).
  cbv zeta.
  match goal with |- context [match ?q with _ => _ end] => destruct q end.
  - right. exact I.
  - match goal with |- context [if ?b then _ else _] => destruct b end;
      right; exact I.
  - left. reflexivity.
Qed.

Lemma SFmul_self_range (a : spec_float) :
  SFmul prec emax a a = S754_nan \/ sf_nonneg (SFmul prec emax a a).
Proof.
  destruct a as [s|s| |s m e]; cbn [SFmul].
  - right. exact I.
  - right. destruct s; exact I.
  - left. reflexivity.
  - replace (xorb s s) with false by (destruct s; reflexivity).
    apply binary_round_aux_sign. lia.
Qed.

Lemma mul_self_range (y : float) :
  Prim2SF (y * y)%float = S754_nan \/ sf_nonneg (Prim2SF (y * y)%float).
Proof. rewrite FloatAxioms.mul_spec. apply SFmul_self_range. Qed.

End FloatTheory.

(** * Lemmas on the exception monad and on lists *)

Lemma bind_ok {A B : Type} (c : res A) (k : A -> res B) (b : B) :
  bind c k = Ok b -> exists a, c = Ok a /\ k a = Ok b.
Proof. destruct c as [a|e]; simpl; [eauto | discriminate]. Qed.

Ltac bind_inv H :=
  let a := fresh "a" in
  let Ha := fresh "Ha" in
  apply bind_ok in H; destruct H as (a & Ha & H).

Lemma for_each_app {A B : Type} (body : A -> B -> res A) (l1 l2 : list B) (a : A) :
  for_each body (l1 ++ l2) a = bind (for_each body l1 a) (for_each body l2).
Proof.
  revert a; induction l1 as [|x l1 IH]; intros a; simpl; [reflexivity|].
  destruct (body a x); simpl; [apply IH | reflexivity].
Qed.

Lemma list_set_spec {A : Type} (l : list A) (i : nat) (x : A) :
  i < length l ->
  exists l', list_set i x l = Ok l' /\ length l' = length l /\
             (forall d, nth i l' d = x) /\
             (forall j d, j <> i -> nth j l' d = nth j l d).
Proof.
  revert i; induction l as [|y l IH]; intros i Hi; simpl in Hi; [lia|].
  destruct i as [|i]; simpl.
  - exists (x :: l); repeat split; auto.
    intros [|j] d Hj; [congruence | reflexivity].
  - destruct (IH i ltac:(lia)) as (l' & -> & Hlen & Hn & Ho); simpl.
    exists (y :: l'); repeat split; simpl; auto.
    intros [|j] d Hj; [reflexivity | apply Ho; congruence].
Qed.

Lemma py_last_last {A : Type} (l : list A) (x : A) (d : A) :
  py_last l = Ok x -> l <> [] /\ last l d = x.
Proof.
  unfold py_last. destruct (rev l) as [|y r] eqn:E; [discriminate|].
  intros [= ->]. apply (f_equal (@rev A)) in E. rewrite rev_involutive in E.
  subst l; simpl. split.
  - intros H; apply app_eq_nil in H; destruct H; discriminate.
  - apply last_last.
Qed.

Lemma py_last_app {A : Type} (l : list A) (x : A) : py_last (l ++ [x]) = Ok x.
Proof. unfold py_last. rewrite rev_app_distr. reflexivity. Qed.

Lemma py_last_nth {A : Type} (l : list A) (x d : A) :
  py_last l = Ok x -> nth (length l - 1) l d = x.
Proof.
  intros H. destruct (py_last_last l x d H) as [Hne <-].
  destruct (exists_last Hne) as (l' & y & ->).
  rewrite length_app, last_last; simpl.
  replace (length l' + 1 - 1) with (length l') by lia.
  rewrite app_nth2, Nat.sub_diag by lia. reflexivity.
Qed.

(** * Shapes *)

Lemma layer_shape_rows nf nt w :
  layer_shape nf nt w -> length w = S nf /\ Forall (fun r => length r = nt) w.
Proof.
  unfold layer_shape, layer_shapeb. rewrite andb_true_iff, Nat.eqb_eq, forallb_forall.
  intros [H1 H2]; split; [assumption|].
  apply Forall_forall; intros r Hr. apply Nat.eqb_eq, H2, Hr.
Qed.

Lemma shaped_length nf nts ws : shaped nf nts ws -> length nts = length ws.
Proof.
  unfold shaped. revert nf ws; induction nts as [|nt nts IH]; intros nf [|w ws]; simpl;
    try discriminate; [reflexivity|].
  rewrite andb_true_iff. intros [_ H]. f_equal. eapply IH, H.
Qed.

Lemma shaped_nth nf nts ws i :
  shaped nf nts ws -> i < length ws ->
  layer_shape (nth i (nf :: nts) 0) (nth i nts 0) (nth i ws []).
Proof.
  unfold shaped. revert nf ws i; induction nts as [|nt nts IH]; intros nf [|w ws] i; simpl;
    try discriminate; try lia.
  rewrite andb_true_iff. intros [H1 H2] Hi.
  destruct i as [|i]; [exact H1|].
  apply (IH nt ws i H2). lia.
Qed.

Lemma last_as_nth {A : Type} (l : list A) (d : A) : last l d = nth (length l - 1) l d.
Proof.
  induction l as [|x [|y l] IH]; simpl in *; auto.
  rewrite IH. rewrite Nat.sub_0_r. reflexivity.
Qed.

Lemma set_last_spec {A : Type} (l : list A) (x : A) :
  l <> [] ->
  exists l', set_last x l = Ok l' /\ length l' = length l /\
             (forall d, nth (length l - 1) l' d = x).
Proof.
  intros Hne. unfold set_last.
  destruct l as [|y l]; [congruence|].
  destruct (list_set_spec (y :: l) (length (y :: l) - 1) x) as (l' & H1 & H2 & H3 & _).
  { simpl; lia. }
  exists l'; auto.
Qed.

Lemma vec_sub_ok a b :
  length a = length b ->
  vec_sub a b = Ok (map (fun p => (fst p - snd p)%float) (combine a b)).
Proof. intros H. unfold vec_sub. rewrite H, Nat.eqb_refl. reflexivity. Qed.


(** * The loop of [gradients] *)

Section GradientsLoop.

Variable nf : nat.
Variable nts : list nat.
Variable weights : list matrix.
Hypothesis Hshaped : shaped nf nts weights.

Lemma mat_vec_shaped (i : nat) (v : vector) :
  i + 1 < length weights -> length v = nth (i + 1) nts 0 ->
  exists g, mat_vec (tl (nth (i + 1) weights [])) v = Ok g /\
            length g = nth i nts 0.
Proof.
  intros Hi Hv.
  pose proof (shaped_nth nf nts weights (i + 1) Hshaped ltac:(lia)) as Hs.
  apply layer_shape_rows in Hs. destruct Hs as [Hrows Hcols].
  replace (i + 1) with (S i) in Hrows, Hcols |- * by lia. simpl in Hrows.
  unfold mat_vec.
  assert (Hall : forallb (fun r => (length r =? length v)%nat)
                   (tl (nth (S i) weights [])) = true).
  { apply forallb_forall. intros r Hr. apply Nat.eqb_eq.
    rewrite Forall_forall in Hcols. rewrite Hv.
    replace (i + 1) with (S i) by lia.
    apply Hcols. destruct (nth (S i) weights []); simpl in *; [contradiction | auto]. }
  rewrite Hall. eexists; split; [reflexivity|].
  rewrite length_map. destruct (nth (S i) weights []); simpl in *; lia.
Qed.

Lemma gradients_body_inv (g : vector) (k : nat) (result : list vector) :
  k + 1 < length weights -> grad_inv nts weights g k result ->
  exists result', gradients_body weights result k = Ok result' /\
                  grad_inv nts weights g (S k) result'.
Proof.
  intros Hk (Hlen & Hlast & Hshape & Hprod).
  unfold gradients_body.
  set (i := length weights - k - 2).
  assert (Hi : i + 1 < length weights) by (unfold i; lia).
  destruct (mat_vec_shaped i (nth (i + 1) result [])) as (g' & Hg' & Hlg'); auto.
  { replace (i + 1) with (S i) by lia.
    rewrite <- (Hshape (S i)); [reflexivity | unfold i; lia | lia]. }
  rewrite Hg'; simpl.
  destruct (list_set_spec result i g') as (result' & Hset & Hlen' & Hat & Hother);
    [lia|].
  exists result'. split; [exact Hset|].
  repeat split.
  - lia.
  - rewrite Hother by (unfold i; lia). exact Hlast.
  - intros j Hj1 Hj2. destruct (Nat.eq_dec j i) as [->|Hne].
    + rewrite Hat. exact Hlg'.
    + rewrite Hother by exact Hne. apply Hshape; [unfold i in Hne; lia | lia].
  - intros j Hj1 Hj2. destruct (Nat.eq_dec j i) as [->|Hne].
    + rewrite Hat, Hother by lia. exact Hg'.
    + rewrite !Hother by (unfold i in *; lia).
      apply Hprod; [unfold i in Hne; lia | lia].
Qed.

Lemma gradients_loop_inv (g : vector) (m : nat) : forall k result,
  k + m = length weights - 1 -> grad_inv nts weights g k result ->
  exists result',
    for_each (gradients_body weights) (seq k m) result = Ok result' /\
    grad_inv nts weights g (length weights - 1) result'.
Proof.
  induction m as [|m IH]; intros k result Hkm Hinv; simpl.
  - exists result. split; [reflexivity|].
    replace (length weights - 1) with k by lia. exact Hinv.
  - destruct (gradients_body_inv g k result ltac:(lia) Hinv) as (r1 & Hb & Hinv1).
    rewrite Hb; simpl. apply IH; [lia | exact Hinv1].
Qed.

End GradientsLoop.



(** * The forward pass *)

Lemma ncols_shape nf nt w : layer_shape nf nt w -> ncols w = nt.
Proof.
  intros H. apply layer_shape_rows in H. destruct H as [H1 H2].
  destruct w as [|r w]; [discriminate|]. inversion H2; subst. reflexivity.
Qed.

Lemma forward_lengths np_exp : forall nts inp ws outs,
  forward np_exp inp nts ws outs ->
  length outs = length ws /\ Forall2 (fun o nt => length o = nt) outs nts.
Proof.
  induction nts as [|nt nts IH]; intros inp [|w ws] [|o outs]; simpl;
    try contradiction.
  - auto.
  - intros [Ho H]. destruct (IH _ _ _ H) as [H1 H2]. split; [congruence|].
    constructor; [|exact H2]. subst o. rewrite length_map, length_seq. reflexivity.
Qed.

Lemma execute_forward np_exp : forall nts nf inp ws,
  shaped nf nts ws -> length inp = nf ->
  exists outs, execute np_exp inp ws = Ok outs /\ forward np_exp inp nts ws outs.
Proof.
  induction nts as [|nt nts IH]; intros nf inp [|w ws] Hs Hlen;
    unfold shaped in Hs; simpl in Hs; try discriminate.
  - exists []. split; [reflexivity | exact I].
  - apply andb_true_iff in Hs. destruct Hs as [Hw Hs].
    pose proof (ncols_shape nf nt w Hw) as Hc.
    pose proof (layer_shape_rows nf nt w Hw) as [Hrows _].
    simpl. unfold np_dot. simpl length. rewrite Hlen, Hrows, Nat.eqb_refl. simpl.
    rewrite Hc.
    set (o := sigm np_exp (map (fun j => vec_dot (1%float :: inp) (column j w)) (seq 0 nt))).
    destruct (IH nt o ws Hs) as (outs & Hex & Hfw).
    { unfold o, sigm. rewrite !length_map, length_seq. reflexivity. }
    rewrite Hex. simpl. exists (o :: outs). split; [reflexivity|].
    simpl. split; [|exact Hfw]. unfold o, sigm. rewrite map_map. reflexivity.
Qed.

Lemma forward_last np_exp : forall nts inp ws outs,
  forward np_exp inp nts ws outs -> ws <> [] ->
  exists predict, py_last outs = Ok predict /\ length predict = last nts 0.
Proof.
  intros nts inp ws outs H Hne.
  destruct (forward_lengths np_exp nts inp ws outs H) as [Hlen Hall].
  destruct outs as [|o outs] using rev_ind.
  - destruct ws; [congruence | discriminate].
  - exists o. split; [apply py_last_app|].
    clear -Hall. apply Forall2_app_inv_l in Hall.
    destruct Hall as (l1 & l2 & _ & H2 & ->).
    inversion H2 as [|? nt ? l H3 H4]; subst. inversion H4; subst.
    rewrite last_last. reflexivity.
Qed.

Lemma is_nan_Prim2SF (x : float) : Prim2SF x = S754_nan -> is_nan x = true.
Proof.
  intros H. unfold is_nan. rewrite FloatAxioms.eqb_spec, H. reflexivity.
Qed.

(** One activated output: NaN when [np.exp] returned NaN, in [0, 1] otherwise. *)
Lemma sigm1_unit_or_nan (np_exp : float -> float) (z : float) :
  exp_range np_exp -> is_nan (sigm1 np_exp z) = true \/ in_unit (sigm1 np_exp z).
Proof.
  intros Hexp. unfold sigm1. destruct (Hexp (- z)%float) as [Hn|Hp].
  - left. apply is_nan_Prim2SF, sigmoid_quotient_nan, Hn.
  - right. apply sf_unit_leb, sigmoid_quotient_unit, Hp.
Qed.

Lemma forward_unit_or_nan (np_exp : float -> float) : exp_range np_exp ->
  forall nts inp ws outs,
    forward np_exp inp nts ws outs ->
    Forall (Forall (fun y => is_nan y = true \/ in_unit y)) outs.
Proof.
  intros Hexp. induction nts as [|nt nts IH]; intros inp [|w ws] [|o outs]; simpl;
    try contradiction.
  - constructor.
  - intros [Ho H]. constructor; [|eapply IH; eauto].
    subst o. apply Forall_forall. intros y Hy. apply in_map_iff in Hy.
    destruct Hy as (j & <- & _). apply sigm1_unit_or_nan, Hexp.
Qed.

(** C6, as amended: for every input vector and every network whose layers
    chain, the forward pass returns one activated output per layer, in order:
    the sigmoid of the weighted sums of the layer's columns against the
    previous output with a bias input of 1.0 in front.  The last entry is the
    prediction, of the width of the last layer (10 for the trainer's network),
    and every element of every output is in the closed interval [0, 1] (both
    ends are reached when the sigmoid saturates), or NaN when [np.exp]
    returned NaN. *)
Theorem execute_forward_pass (np_exp : float -> float) (nf : nat)
  (nts : list nat) (ws : list matrix) (inp : vector) :
  exp_range np_exp -> shaped nf nts ws -> length inp = nf ->
  exists outs,
    execute np_exp inp ws = Ok outs /\
    forward np_exp inp nts ws outs /\
    length outs = length ws /\
    Forall2 (fun o nt => length o = nt) outs nts /\
    (ws <> [] -> exists predict,
       py_last outs = Ok predict /\ length predict = last nts 0) /\
    Forall (Forall (fun y => is_nan y = true \/ in_unit y)) outs.
Proof.
  intros Hexp Hs Hlen.
  destruct (execute_forward np_exp nts nf inp ws Hs Hlen) as (outs & Hex & Hfw).
  destruct (forward_lengths np_exp nts inp ws outs Hfw) as [H1 H2].
  exists outs. repeat split; auto.
  - intros Hne. apply (forward_last np_exp nts inp ws outs Hfw Hne).
  - apply (forward_unit_or_nan np_exp Hexp nts inp ws outs Hfw).
Qed.

(** The reference exponential has the range of [np.exp]. *)
Lemma square_n_range (n : nat) : forall y,
  Prim2SF (square_n (S n) y) = S754_nan \/ sf_nonneg (Prim2SF (square_n (S n) y)).
Proof.
  induction n as [|n IH]; intros y.
  - simpl. apply mul_self_range.
  - change (square_n (S (S n)) y) with (square_n (S n) (y * y)%float). apply IH.
Qed.

Lemma exp_ref_range : exp_range exp_ref.
Proof.
  intros x. unfold exp_ref.
  destruct (x <? -746)%float; [right; exact I|].
  destruct (710 <? x)%float; [right; exact I|].
  apply square_n_range.
Qed.

Lemma execute_forward_pass_witness :
  exists outs,
    execute exp_ref blank_image saturated_net = Ok outs /\ length outs = 2.
Proof.
  destruct (execute_forward_pass exp_ref 784 [1; 10] saturated_net blank_image)
    as (outs & H1 & _ & H2 & _);
    [exact exp_ref_range | vm_compute; reflexivity | reflexivity |].
  exists outs. split; [exact H1 | exact H2].
Defined.

(** C6, as it is stated, fails: on a black image the network [saturated_net]
    gives the hidden output 0.0 and the prediction 1.0 ten times, none of
    them inside (0, 1). *)
Lemma execute_open_unit_counterexample :
  mlp_shaped 1 saturated_net /\ length blank_image = 784 /\
  execute exp_ref blank_image saturated_net
  = Ok [[0%float]; repeat 1%float 10] /\
  ~ Forall (Forall in_open_unit) [[0%float]; repeat 1%float 10].
Proof.
  split; [vm_compute; reflexivity|].
  split; [reflexivity|].
  split; [vm_compute; reflexivity|].
  intros H. inversion H as [|? ? H1 _]; subst.
  inversion H1 as [|? ? [H0 _] _]; subst.
  vm_compute in H0. discriminate H0.
Qed.

(** * Float equality *)

Lemma Pos_compare_cont_Eq_iff (p q : positive) :
  Pos.compare_cont Eq p q = Eq <-> p = q.
Proof. apply Pos.compare_eq_iff. Qed.

Lemma SFeqb_finite (s1 s2 : bool) (m1 m2 : positive) (e1 e2 : Z) :
  SFeqb (S754_finite s1 m1 e1) (S754_finite s2 m2 e2) = true
  <-> s1 = s2 /\ m1 = m2 /\ e1 = e2.
Proof.
  unfold SFeqb, SFcompare.
  destruct s1, s2; try (split; [discriminate | intros (H & _); discriminate]);
    (destruct (Z.compare_spec e1 e2) as [He|He|He];
     [ subst e2; destruct (Pos.compare_cont Eq m1 m2) eqn:Hm; simpl;
       [ apply Pos_compare_cont_Eq_iff in Hm; subst; split; auto
       | split; [discriminate|]; intros (_ & -> & _);
         rewrite (proj2 (Pos_compare_cont_Eq_iff m2 m2) eq_refl) in Hm; discriminate
       | split; [discriminate|]; intros (_ & -> & _);
         rewrite (proj2 (Pos_compare_cont_Eq_iff m2 m2) eq_refl) in Hm; discriminate ]
     | split; [discriminate | intros (_ & _ & H); lia]
     | split; [discriminate | intros (_ & _ & H); lia] ]).
Qed.

Lemma SFeqb_same (a b : spec_float) : SFeqb a b = true <-> sf_same a b.
Proof.
  destruct a as [s1|s1| |s1 m1 e1], b as [s2|s2| |s2 m2 e2];
    try apply SFeqb_finite;
    unfold SFeqb, SFcompare, sf_same;
    repeat match goal with s : bool |- _ => destruct s end;
    split; intros H; try reflexivity; try discriminate; try contradiction;
    try exact I.
Qed.

Lemma sf_same_sym a b : sf_same a b -> sf_same b a.
Proof.
  destruct a, b; simpl; auto. intros (-> & -> & ->); auto.
Qed.

Lemma sf_same_trans a b c : sf_same a b -> sf_same b c -> sf_same a c.
Proof.
  destruct a, b, c; simpl; try contradiction; auto; try congruence.
  intros (-> & -> & ->) (-> & -> & ->); auto.
Qed.

Lemma feqb_same (x y : float) : (x =? y)%float = true <-> sf_same (Prim2SF x) (Prim2SF y).
Proof. rewrite FloatAxioms.eqb_spec. apply SFeqb_same. Qed.

Lemma feqb_sym (x y : float) : (x =? y)%float = true -> (y =? x)%float = true.
Proof. rewrite !feqb_same. apply sf_same_sym. Qed.

Lemma feqb_trans (x y z : float) :
  (x =? y)%float = true -> (y =? z)%float = true -> (x =? z)%float = true.
Proof. rewrite !feqb_same. apply sf_same_trans. Qed.

Lemma feqb_refl (x : float) : is_nan x = false -> (x =? x)%float = true.
Proof. unfold is_nan. destruct (x =? x)%float; [reflexivity | discriminate]. Qed.

(** * Experiments *)

Lemma experiment_eq_sym a b : experiment_eq a b -> experiment_eq b a.
Proof.
  destruct a as [[r1 b1] h1], b as [[r2 b2] h2]. unfold experiment_eq; simpl.
  rewrite !andb_true_iff, !Z.eqb_eq. intros [[H1 H2] H3].
  repeat split; auto using feqb_sym.
Qed.

Lemma experiment_eq_trans a b c :
  experiment_eq a b -> experiment_eq b c -> experiment_eq a c.
Proof.
  destruct a as [[r1 b1] h1], b as [[r2 b2] h2], c as [[r3 b3] h3].
  unfold experiment_eq; simpl.
  rewrite !andb_true_iff, !Z.eqb_eq. intros [[H1 H2] H3] [[H4 H5] H6].
  repeat split; eauto using feqb_trans. congruence.
Qed.

Lemma experiment_eq_refl a : no_nan a -> experiment_eq a a.
Proof.
  destruct a as [[r1 b1] h1]. unfold experiment_eq, no_nan; simpl. intros [H1 H2].
  rewrite !andb_true_iff, Z.eqb_eq. repeat split; auto using feqb_refl.
Qed.

Lemma existsb_experiment_eq e l :
  existsb (experiment_eqb e) l = true <-> exists y, In y l /\ experiment_eq e y.
Proof. apply existsb_exists. Qed.

Lemma unique_filter_in u es x :
  In x (unique_filter u es) ->
  In x es /\ existsb (experiment_eqb x) u = false.
Proof.
  revert u; induction es as [|e es IH]; intros u; simpl; [contradiction|].
  destruct (existsb (experiment_eqb e) u) eqn:E.
  - intros H. destruct (IH u H); auto.
  - intros [<-|H]; [auto|].
    destruct (IH (e :: u) H) as [H1 H2]. simpl in H2.
    apply orb_false_iff in H2. tauto.
Qed.

Lemma unique_filter_NoDupA u es : NoDupA experiment_eq (unique_filter u es).
Proof.
  revert u; induction es as [|e es IH]; intros u; simpl; [constructor|].
  destruct (existsb (experiment_eqb e) u); [apply IH|].
  constructor; [|apply IH].
  intros H. apply InA_alt in H. destruct H as (y & Hey & Hy).
  apply unique_filter_in in Hy. destruct Hy as [_ Hy]. simpl in Hy.
  apply orb_false_iff in Hy. destruct Hy as [Hy _].
  apply experiment_eq_sym in Hey. unfold experiment_eq in Hey. congruence.
Qed.

Lemma unique_filter_cover u es x :
  Forall no_nan es -> In x es ->
  existsb (experiment_eqb x) u = true \/
  exists y, In y (unique_filter u es) /\ experiment_eq x y.
Proof.
  intros Hnan; revert u; induction Hnan as [|e es He Hes IH]; intros u; simpl;
    [contradiction|].
  intros [<-|Hx].
  - destruct (existsb (experiment_eqb e) u) eqn:E; [auto|].
    right. exists e; simpl; auto using experiment_eq_refl.
  - destruct (existsb (experiment_eqb e) u) eqn:E; [auto|].
    destruct (IH (e :: u) Hx) as [H|(y & Hy & Hxy)].
    + simpl in H. apply orb_true_iff in H. destruct H as [H|H]; [|auto].
      right. exists e; simpl; auto.
    + right. exists y; simpl; auto.
Qed.

Lemma unique_filter_app u p s :
  unique_filter u (p ++ s)
  = unique_filter u p ++ unique_filter (rev (unique_filter u p) ++ u) s.
Proof.
  revert u; induction p as [|e p IH]; intros u; simpl; [reflexivity|].
  destruct (existsb (experiment_eqb e) u); [apply IH|].
  simpl. rewrite IH. rewrite <- app_assoc. reflexivity.
Qed.

Lemma seen_before p e :
  Forall no_nan p ->
  existsb (experiment_eqb e) (rev (unique_filter [] p) ++ [])
  = existsb (experiment_eqb e) p.
Proof.
  intros Hnan. rewrite app_nil_r.
  apply eq_true_iff_eq. rewrite !existsb_experiment_eq. split.
  - intros (y & Hy & Hey). apply in_rev, unique_filter_in in Hy.
    exists y; tauto.
  - intros (y & Hy & Hey).
    destruct (unique_filter_cover [] p y Hnan Hy) as [H|(k & Hk & Hyk)];
      [discriminate|].
    exists k. split; [rewrite <- in_rev; exact Hk|].
    eapply experiment_eq_trans; eauto.
Qed.

Lemma unique_filter_snoc p e :
  Forall no_nan p ->
  unique_filter [] (p ++ [e])
  = unique_filter [] p ++ (if existsb (experiment_eqb e) p then [] else [e]).
Proof.
  intros Hnan. rewrite unique_filter_app. f_equal. simpl.
  rewrite seen_before by exact Hnan. reflexivity.
Qed.

#[local] Instance experiment_equiv_Equivalence : Equivalence experiment_equiv.
Proof.
  split.
  - intros a; right; reflexivity.
  - intros a b [H| ->]; [left; apply experiment_eq_sym, H | right; reflexivity].
  - intros a b c [H1| ->] [H2| ->]; try (left; assumption); try (right; reflexivity).
    left; eapply experiment_eq_trans; eauto.
Qed.

Lemma InA_equiv_eq l x :
  Forall no_nan l -> (InA experiment_equiv x l <-> InA experiment_eq x l).
Proof.
  intros Hnan. rewrite !InA_alt. split; intros (y & Hxy & Hy).
  - exists y. split; [|exact Hy]. destruct Hxy as [H| ->]; [exact H|].
    apply experiment_eq_refl. rewrite Forall_forall in Hnan. auto.
  - exists y. split; [left; exact Hxy | exact Hy].
Qed.

Lemma NoDupA_equiv_eq l :
  Forall no_nan l -> NoDupA experiment_eq l -> NoDupA experiment_equiv l.
Proof.
  intros Hnan Hnd. induction Hnd as [|x l Hx Hnd IH]; [constructor|].
  inversion Hnan; subst. constructor; [|auto].
  rewrite InA_equiv_eq by assumption. exact Hx.
Qed.

Lemma PermutationA_length_eq {A : Type} (R : A -> A -> Prop) (l l' : list A) :
  PermutationA R l l' -> length l = length l'.
Proof. induction 1; simpl; congruence. Qed.

Lemma unique_filter_no_nan u es : Forall no_nan es -> Forall no_nan (unique_filter u es).
Proof.
  intros H. apply Forall_forall. intros x Hx. apply unique_filter_in in Hx.
  rewrite Forall_forall in H. apply H. tauto.
Qed.

Lemma unique_filter_equivlist es e :
  Forall no_nan es ->
  (InA experiment_eq e (unique_filter [] es) <-> InA experiment_eq e es).
Proof.
  intros Hnan. rewrite !InA_alt. split; intros (y & Hey & Hy).
  - apply unique_filter_in in Hy. exists y; tauto.
  - destruct (unique_filter_cover [] es y Hnan Hy) as [H|(k & Hk & Hyk)];
      [discriminate|].
    exists k. split; [eapply experiment_eq_trans; eauto | exact Hk].
Qed.

Lemma unique_filter_length es l :
  Forall no_nan es -> Forall no_nan l ->
  NoDupA experiment_eq l ->
  (forall e, InA experiment_eq e l <-> InA experiment_eq e es) ->
  length l = length (unique_filter [] es).
Proof.
  intros Hes Hl Hnd Hsame.
  apply (PermutationA_length_eq experiment_equiv).
  apply NoDupA_equivlistA_PermutationA.
  - exact experiment_equiv_Equivalence.
  - apply NoDupA_equiv_eq; assumption.
  - apply NoDupA_equiv_eq; [apply unique_filter_no_nan, Hes | apply unique_filter_NoDupA].
  - intros e. rewrite !InA_equiv_eq by auto using unique_filter_no_nan.
    rewrite Hsame, unique_filter_equivlist by exact Hes. reflexivity.
Qed.

(** * The Cartesian product *)

Lemma in_product3 rs bs hs r b h :
  In (r, b, h) (product3 rs bs hs) <-> In r rs /\ In b bs /\ In h hs.
Proof.
  unfold product3. rewrite in_flat_map. split.
  - intros (r' & Hr & H). apply in_flat_map in H. destruct H as (b' & Hb & H).
    apply in_map_iff in H. destruct H as (h' & [= -> -> ->] & Hh). auto.
  - intros (Hr & Hb & Hh). exists r. split; [exact Hr|].
    apply in_flat_map. exists b. split; [exact Hb|].
    apply in_map_iff. exists h. auto.
Qed.

Lemma length_flat_map_const {A B : Type} (f : A -> list B) (l : list A) (k : nat) :
  (forall x, length (f x) = k) -> length (flat_map f l) = length l * k.
Proof.
  intros H. induction l as [|x l IH]; simpl; [reflexivity|].
  rewrite length_app, H, IH. reflexivity.
Qed.

Lemma length_product3 rs bs hs :
  length (product3 rs bs hs) = length rs * (length bs * length hs).
Proof.
  unfold product3. apply length_flat_map_const. intros r.
  apply length_flat_map_const. intros b. apply length_map.
Qed.

Lemma experiments_product3 rs bs hs : experiments rs bs hs = product3 rs bs hs.
Proof.
  unfold experiments.
  destruct rs as [|r [|r' rs]]; try reflexivity.
  destruct bs as [|b [|b' bs]]; try reflexivity.
  destruct hs as [|h [|h' hs]]; reflexivity.
Qed.

Lemma no_nan_product3 rs bs hs :
  Forall (fun r => is_nan r = false) rs -> Forall (fun b => is_nan b = false) bs ->
  Forall no_nan (product3 rs bs hs).
Proof.
  intros Hr Hb. apply Forall_forall. intros [[r b] h] Hin.
  apply in_product3 in Hin. destruct Hin as (H1 & H2 & _).
  rewrite Forall_forall in Hr, Hb. split; simpl; auto.
Qed.

(** C7: the experiment list is the single combination when the three sets
    are singletons and the Cartesian product of the three sets in every case,
    in the order of [itertools.product].  Removing the duplicates of a
    submitted list keeps, in the order of the list, exactly the entries that
    are equal to no earlier entry: the result has no two equal entries, the
    same combinations as the list, and therefore as many entries as the list
    has distinct combinations; one task is dispatched per entry.  Equality is
    [==] on the values, for hyperparameters that are not NaN. *)
Theorem scheduler_experiments (rs bs : list float) (hs : list Z)
  (submitted : list experiment) :
  Forall (fun r => is_nan r = false) rs ->
  Forall (fun b => is_nan b = false) bs ->
  Forall no_nan submitted ->
  (forall r b h, rs = [r] -> bs = [b] -> hs = [h] ->
     experiments rs bs hs = [(r, b, h)]) /\
  experiments rs bs hs = product3 rs bs hs /\
  (forall r b h,
     In (r, b, h) (experiments rs bs hs) <-> In r rs /\ In b bs /\ In h hs) /\
  length (experiments rs bs hs) = length rs * (length bs * length hs) /\
  Forall no_nan (experiments rs bs hs) /\
  NoDupA experiment_eq (unique_filter [] submitted) /\
  (forall e, InA experiment_eq e (unique_filter [] submitted)
             <-> InA experiment_eq e submitted) /\
  (forall l, Forall no_nan l -> NoDupA experiment_eq l ->
     (forall e, InA experiment_eq e l <-> InA experiment_eq e submitted) ->
     length l = length (unique_filter [] submitted)) /\
  (forall p e s, submitted = p ++ e :: s ->
     unique_filter [] (p ++ [e])
     = unique_filter [] p ++ (if existsb (experiment_eqb e) p then [] else [e])) /\
  (forall p s, submitted = p ++ s ->
     exists t, unique_filter [] submitted = unique_filter [] p ++ t) /\
  length (tasks (unique_filter [] submitted))
  = length (unique_filter [] submitted).
Proof.
  intros Hr Hb Hnan.
  assert (Hes : experiments rs bs hs = product3 rs bs hs)
    by apply experiments_product3.
  split; [intros r b h -> -> ->; reflexivity|].
  split; [exact Hes|].
  split; [intros r b h; rewrite Hes; apply in_product3|].
  split; [rewrite Hes; apply length_product3|].
  split; [rewrite Hes; apply no_nan_product3; assumption|].
  split; [apply unique_filter_NoDupA|].
  split; [intros e; apply unique_filter_equivlist, Hnan|].
  split; [intros l Hl Hnd Hsame; apply unique_filter_length; assumption|].
  split; [|split].
  - intros p e s Hsplit. apply unique_filter_snoc.
    rewrite Hsplit in Hnan. apply Forall_app in Hnan. tauto.
  - intros p s Hsplit. rewrite Hsplit, unique_filter_app. eauto.
  - unfold tasks. rewrite length_map, length_combine, length_seq. apply Nat.min_id.
Qed.

(** Two learning rates, one of them given twice, and two batch sizes. *)
Lemma scheduler_experiments_witness :
  unique_filter []
    (experiments [0.5%float; 0.25%float; 0.5%float] [10%float; infinity] [100%Z])
  = [(0.5%float, 10%float, 100%Z); (0.5%float, infinity, 100%Z);
     (0.25%float, 10%float, 100%Z); (0.25%float, infinity, 100%Z)] /\
  NoDupA experiment_eq
    (unique_filter []
       (experiments [0.5%float; 0.25%float; 0.5%float] [10%float; infinity]
          [100%Z])).
Proof.
  split; [vm_compute; reflexivity|].
  refine (proj1 (proj2 (proj2 (proj2 (proj2 (proj2
    (scheduler_experiments [0.5%float; 0.25%float; 0.5%float]
       [10%float; infinity] [100%Z]
       (experiments [0.5%float; 0.25%float; 0.5%float] [10%float; infinity]
          [100%Z]) _ _ _))))))).
  - repeat constructor.
  - repeat constructor.
  - vm_compute. repeat constructor.
Defined.

(** * The dataset loader *)

Lemma pixels_ok : forallb pixel_okb (map Z.of_nat (seq 0 256)) = true.
Proof. vm_compute. reflexivity. Qed.

Lemma pixel_ok (p : Z) :
  (0 <= p <= 255)%Z ->
  exists f, float_of_Z p = Ok f /\ (f / 255)%float = pixel_float p /\
            in_unit (pixel_float p).
Proof.
  intros Hp. pose proof pixels_ok as H. rewrite forallb_forall in H.
  specialize (H p). unfold pixel_okb in H.
  assert (Hin : In p (map Z.of_nat (seq 0 256))).
  { apply in_map_iff. exists (Z.to_nat p). split; [lia|]. apply in_seq. lia. }
  specialize (H Hin). destruct (float_of_Z p) as [f|e]; [|discriminate].
  apply andb_true_iff in H. destruct H as [H1 H2].
  apply FloatAxioms.Leibniz.eqb_spec in H2.
  exists f. repeat split; auto; rewrite <- H2; apply andb_true_iff in H1; tauto.
Qed.

Lemma label_ok (d : Z) :
  (0 <= d <= 9)%Z ->
  matrix_column (eye 10) d = Ok (one_hot 10 (Z.to_nat d)) /\
  fsum (one_hot 10 (Z.to_nat d)) = 1%float.
Proof.
  intros Hd.
  assert (H : In d (map Z.of_nat (seq 0 10))).
  { apply in_map_iff. exists (Z.to_nat d). split; [lia|]. apply in_seq. lia. }
  simpl in H.
  repeat (destruct H as [<-|H]; [vm_compute; split; reflexivity|]).
  contradiction.
Qed.

Lemma map_res_pixels (rest : list (list ascii)) (pixels : list Z) :
  map py_int rest = map Ok pixels ->
  Forall (fun p => (0 <= p <= 255)%Z) pixels ->
  exists fs, map_res (fun f => z <- py_int f ;; float_of_Z z) rest = Ok fs /\
             map (fun f => (f / 255)%float) fs = map pixel_float pixels.
Proof.
  revert pixels; induction rest as [|f rest IH]; intros [|p pixels] Hmap Hall;
    simpl in Hmap; try discriminate.
  - exists []. split; reflexivity.
  - injection Hmap as Hf Hrest. inversion Hall as [|? ? Hp Hall']; subst.
    destruct (IH pixels Hrest Hall') as (fs & Hfs & Hdiv).
    destruct (pixel_ok p Hp) as (x & Hx & Hxd & _).
    exists (x :: fs). simpl. rewrite Hf; simpl. rewrite Hx; simpl.
    rewrite Hfs; simpl. split; [reflexivity|]. rewrite Hxd, Hdiv. reflexivity.
Qed.

Lemma read_line_well_formed (line : string) (rc : record) :
  line_of_record line rc -> well_formed rc ->
  read_line line = Ok (sample_of_record rc).
Proof.
  intros Hline (Hlabel & _ & Hpix). unfold line_of_record in Hline.
  unfold read_line.
  destruct (split_on ","%char (list_ascii_of_string line)) as [|first rest];
    simpl in Hline; [discriminate|].
  injection Hline as Hfirst Hrest. rewrite Hfirst; simpl.
  destruct (map_res_pixels rest (snd rc) Hrest Hpix) as (fs & -> & Hdiv); simpl.
  destruct (label_ok (fst rc) Hlabel) as [-> _]; simpl.
  unfold sample_of_record. rewrite Hdiv. reflexivity.
Qed.

Lemma read_csv_from (lines : list string) (samples : list sample) :
  Forall2 (fun l s => read_line l = Ok s) lines samples ->
  forall acc,
    for_each (fun data line => s <- read_line line ;; Ok (data ++ [s])) lines acc
    = Ok (acc ++ samples).
Proof.
  induction 1 as [|l s lines samples Hl _ IH]; intros acc; simpl.
  - rewrite app_nil_r. reflexivity.
  - rewrite Hl; simpl. rewrite IH, <- app_assoc. reflexivity.
Qed.



(** C9: loading N well-formed records gives a dataset of N samples in the
    order of the records; each target is the one-hot vector of width 10 for the
    record's label, as selected from the identity matrix, and sums to exactly
    1.0; each input has the 784 pixel intensities divided by 255.0, each in
    [0, 1]. *)
Theorem read_csv_well_formed (lines : list string) (records : list record) :
  Forall2 line_of_record lines records ->
  Forall well_formed records ->
  exists data,
    read_csv lines = Ok data /\
    data = map sample_of_record records /\
    length data = length lines /\
    Forall (fun s => length (fst s) = 784 /\ Forall in_unit (fst s)) data /\
    Forall (fun s => exists label, label < 10 /\ snd s = one_hot 10 label /\
                                   fsum (snd s) = 1%float) data.
Proof.
  intros Hlines Hwf.
  assert (Hall : Forall2 (fun l s => read_line l = Ok s) lines
                   (map sample_of_record records)).
  { clear -Hlines Hwf. induction Hlines as [|l rc lines records Hl _ IH]; simpl;
      [constructor|].
    inversion Hwf; subst. constructor; [apply read_line_well_formed|]; auto. }
  exists (map sample_of_record records).
  split; [apply (read_csv_from lines _ Hall [])|].
  split; [reflexivity|].
  split; [rewrite length_map; symmetry; eapply Forall2_length; eauto|].
  split.
  - apply Forall_forall. intros s Hs. apply in_map_iff in Hs.
    destruct Hs as (rc & <- & Hrc). rewrite Forall_forall in Hwf.
    destruct (Hwf rc Hrc) as (_ & Hlen & Hpix). simpl.
    split; [rewrite length_map; exact Hlen|].
    apply Forall_forall. intros x Hx. apply in_map_iff in Hx.
    destruct Hx as (p & <- & Hp). rewrite Forall_forall in Hpix.
    destruct (pixel_ok p (Hpix p Hp)) as (_ & _ & _ & H). exact H.
  - apply Forall_forall. intros s Hs. apply in_map_iff in Hs.
    destruct Hs as (rc & <- & Hrc). rewrite Forall_forall in Hwf.
    destruct (Hwf rc Hrc) as (Hlabel & _ & _). simpl.
    exists (Z.to_nat (fst rc)). split; [lia|]. split; [reflexivity|].
    apply (label_ok (fst rc) Hlabel).
Qed.

Lemma read_csv_well_formed_witness :
  exists data, read_csv [seven_line] = Ok data /\ length data = 1.
Proof.
  destruct (read_csv_well_formed [seven_line] [seven_record])
    as (data & H1 & _ & H2 & _).
  - constructor; [vm_compute; reflexivity | constructor].
  - constructor; [|constructor]. split; [simpl; lia|].
    split; [reflexivity|]. apply Forall_forall. intros p Hp.
    apply repeat_spec in Hp. subst p. lia.
  - exists data. split; [exact H1 | exact H2].
Defined.

(** ** Malformed records *)


Lemma map_res_floats (rest : list (list ascii)) (pixels : list Z) (fs : list float) :
  map py_int rest = map Ok pixels ->
  map float_of_Z pixels = map Ok fs ->
  map_res (fun f => z <- py_int f ;; float_of_Z z) rest = Ok fs.
Proof.
  revert pixels fs; induction rest as [|f rest IH]; intros [|p pixels] [|x fs] H1 H2;
    simpl in *; try discriminate; [reflexivity|].
  injection H1 as Hf Hrest. injection H2 as Hx Hfs.
  rewrite Hf. simpl. rewrite Hx. simpl. rewrite (IH pixels fs Hrest Hfs). reflexivity.
Qed.



(** [int] on white space: a line feed or a no-break space at the end of a
    field is skipped, the separator U+001C is not, and a record with it does
    not load. *)
Lemma py_int_white_space :
  py_int ["7"%char; "010"%char] = Ok 7%Z /\
  py_int ["160"%char; "7"%char; "133"%char] = Ok 7%Z /\
  py_int ["7"%char; "028"%char] = Raise ValueError /\
  py_int ["031"%char; "7"%char] = Raise ValueError /\
  read_line (String "3"%char (String "028"%char ",0,255")) = Raise ValueError.
Proof. repeat split; vm_compute; reflexivity. Qed.



(** * Classification error *)

Lemma error_body_misclassified (np_exp : float -> float) (ws : list matrix)
  (c : nat) (s : sample) :
  error_body np_exp ws c s
  = (m <- misclassified np_exp ws s ;; Ok (if m then S c else c)).
Proof.
  destruct s as [inp expect]. unfold error_body, misclassified. simpl fst; simpl snd.
  destruct (np_argmax expect) as [a|e]; simpl; [|reflexivity].
  destruct (execute np_exp inp ws) as [out|e]; simpl; [|reflexivity].
  destruct (py_last out) as [predict|e]; simpl; [|reflexivity].
  destruct (np_argmax predict) as [b|e]; simpl; [|reflexivity].
  destruct (a =? b)%nat; reflexivity.
Qed.

Lemma count_true_cons (m : bool) (ms : list bool) :
  count_true (m :: ms) = (if m then 1 else 0) + count_true ms.
Proof. unfold count_true. simpl. destruct m; reflexivity. Qed.

Lemma count_true_le (ms : list bool) : count_true ms <= length ms.
Proof. unfold count_true. apply filter_length_le. Qed.

Lemma for_each_error (np_exp : float -> float) (ws : list matrix)
  (data : list sample) (ms : list bool) :
  Forall2 (fun s m => misclassified np_exp ws s = Ok m) data ms ->
  forall c, for_each (error_body np_exp ws) data c = Ok (c + count_true ms).
Proof.
  induction 1 as [|s m data ms Hs _ IH]; intros c; simpl.
  - unfold count_true. simpl. f_equal. lia.
  - rewrite error_body_misclassified, Hs. simpl. rewrite IH, count_true_cons.
    f_equal. destruct m; lia.
Qed.

Lemma misclassified_total (np_exp : float -> float) (nf : nat) (nts : list nat)
  (ws : list matrix) (s : sample) :
  shaped nf nts ws -> ws <> [] -> 0 < last nts 0 ->
  length (fst s) = nf -> snd s <> [] ->
  exists m, misclassified np_exp ws s = Ok m.
Proof.
  intros Hs Hne Hlast Hinp Hexp. unfold misclassified.
  destruct (snd s) as [|x expect]; [congruence|]. simpl.
  destruct (execute_forward np_exp nts nf (fst s) ws Hs Hinp) as (outs & -> & Hfw).
  simpl.
  destruct (forward_last np_exp nts (fst s) ws outs Hfw Hne) as (predict & -> & Hp).
  simpl. destruct predict as [|y predict]; [simpl in Hp; lia|]. simpl. eauto.
Qed.

Lemma misclassified_all (np_exp : float -> float) (nf : nat) (nts : list nat)
  (ws : list matrix) (data : list sample) :
  shaped nf nts ws -> ws <> [] -> 0 < last nts 0 ->
  Forall (fun s => length (fst s) = nf /\ snd s <> []) data ->
  exists ms, Forall2 (fun s m => misclassified np_exp ws s = Ok m) data ms.
Proof.
  intros Hs Hne Hlast Hall. induction Hall as [|s data [H1 H2] _ (ms & IH)].
  - exists []. constructor.
  - destruct (misclassified_total np_exp nf nts ws s Hs Hne Hlast H1 H2) as (m & Hm).
    exists (m :: ms). constructor; assumption.
Qed.

(** ** The quotient of two counters *)





(** [error] on a dataset that fits the network: the quotient of a count. *)
Lemma error_total (np_exp : float -> float) (nf : nat) (nts : list nat)
  (ws : list matrix) (data : list sample) :
  shaped nf nts ws -> ws <> [] -> 0 < last nts 0 -> data <> [] ->
  Forall (fun s => length (fst s) = nf /\ snd s <> []) data ->
  exists c, c <= length data /\
            error np_exp data ws
            = Ok (float_of_nat c / float_of_nat (length data))%float.
Proof.
  intros Hs Hne Hlast Hdata Hall.
  destruct (misclassified_all np_exp nf nts ws data Hs Hne Hlast Hall) as (ms & Hms).
  pose proof (Forall2_length Hms) as Hlen.
  pose proof (count_true_le ms) as Hle.
  exists (count_true ms). split; [lia|].
  unfold error. rewrite (for_each_error np_exp ws data ms Hms 0). simpl.
  unfold py_truediv. destruct (length data) eqn:E; [|reflexivity].
  destruct data; [congruence | discriminate].
Qed.

(** * The sweep over the training set *)

Section Sweep.

Variable np_exp : float -> float.
Variable args : Args.
Variable ratio : float.
Variable batch : batch_limit.

Lemma sweep_body_accumulate (len : nat) (st : sweep_state) (j : nat) (s : sample) :
  sweep_body np_exp args ratio batch len st (j, s)
  = (accum <- accumulate np_exp (sw_weights st) (sw_accum st) s ;;
     if batch_reached (S (sw_batch_size st)) batch || (j + 1 =? len)%nat
     then new <- new_weights (momentum args) ratio (sw_weights st) (sw_old st)
                   accum (S (sw_batch_size st)) ;;
          Ok (after_update (new, sw_weights st))
     else Ok {| sw_weights := sw_weights st; sw_old := sw_old st;
                sw_accum := accum; sw_batch_size := S (sw_batch_size st) |}).
Proof.
  destruct s as [inp expect]. unfold sweep_body, accumulate. simpl fst; simpl snd.
  destruct (execute np_exp inp (sw_weights st)) as [out|e]; simpl; [|reflexivity].
  destruct (gradients expect out (sw_weights st)) as [grads|e]; simpl; [|reflexivity].
  destruct (layers_map2 PrimFloat.add (sw_accum st) (delta inp grads out))
    as [accum|e]; simpl; reflexivity.
Qed.

(** The first batch starts with the batch being filled and the next sample. *)
Lemma batches_head (data : list sample) : forall (cur : list sample) (s : sample),
  exists chunk rest, batches batch cur (s :: data) = (cur ++ s :: chunk) :: rest.
Proof.
  induction data as [|s' data IH]; intros cur s.
  - simpl. rewrite orb_true_r. eauto.
  - change (batches batch cur (s :: s' :: data))
      with (if batch_reached (length (cur ++ [s])) batch
               || (length (s' :: data) =? 0)%nat
            then (cur ++ [s]) :: batches batch [] (s' :: data)
            else batches batch (cur ++ [s]) (s' :: data)).
    destruct (batch_reached (length (cur ++ [s])) batch
              || (length (s' :: data) =? 0)%nat).
    + exists [], (batches batch [] (s' :: data)). reflexivity.
    + destruct (IH (cur ++ [s]) s') as (chunk & rest & ->).
      exists (s' :: chunk), rest. rewrite <- app_assoc. reflexivity.
Qed.

Lemma sweep_from (data : list sample) : forall (cur : list sample) (j : nat)
  (st : sweep_state) (len : nat),
  data <> [] ->
  sw_batch_size st = length cur ->
  for_each (accumulate np_exp (sw_weights st)) cur (zeros_like (sw_weights st))
  = Ok (sw_accum st) ->
  len = j + length data ->
  for_each (sweep_body np_exp args ratio batch len)
    (combine (seq j (length data)) data) st
  = (wo <- for_each (update_step np_exp (momentum args) ratio)
             (batches batch cur data) (sw_weights st, sw_old st) ;;
     Ok (after_update wo)).
Proof.
  induction data as [|s data IH]; intros cur j st len Hne Hbs Hacc Hlen;
    [congruence|].
  simpl length. simpl seq. simpl combine. cbn [for_each].
  rewrite sweep_body_accumulate.
  destruct (accumulate np_exp (sw_weights st) (sw_accum st) s) as [accum|e] eqn:Es.
  - cbn [bind].
    assert (Hcur' : for_each (accumulate np_exp (sw_weights st)) (cur ++ [s])
                      (zeros_like (sw_weights st)) = Ok accum).
    { rewrite for_each_app, Hacc. simpl. rewrite Es. reflexivity. }
    assert (Hlen' : length (cur ++ [s]) = S (sw_batch_size st))
      by (rewrite length_app; simpl; lia).
    assert (Hlast : (j + 1 =? len)%nat = (length data =? 0)%nat).
    { simpl in Hlen. destruct (length data); destruct (Nat.eqb_spec (j + 1) len);
        simpl; try reflexivity; lia. }
    cbn [batches]. rewrite Hlen', Hlast.
    destruct (batch_reached (S (sw_batch_size st)) batch || (length data =? 0)%nat)
      eqn:Et.
    + cbn [for_each]. unfold update_step at 1. cbn [fst snd]. unfold batch_delta.
      rewrite Hcur'. cbn [bind]. rewrite Hlen'.
      destruct (new_weights (momentum args) ratio (sw_weights st) (sw_old st) accum
                  (S (sw_batch_size st))) as [new|e]; cbn [bind]; [|reflexivity].
      destruct data as [|s' data'].
      * reflexivity.
      * apply (IH [] (S j) (after_update (new, sw_weights st)) len);
          [discriminate | reflexivity | reflexivity | simpl in *; lia].
    + apply (IH (cur ++ [s]) (S j)
               {| sw_weights := sw_weights st; sw_old := sw_old st;
                  sw_accum := accum; sw_batch_size := S (sw_batch_size st) |} len).
      * apply orb_false_iff in Et. destruct Et as [_ Et].
        destruct data; [discriminate Et | discriminate].
      * simpl. rewrite Hlen'. reflexivity.
      * exact Hcur'.
      * simpl in *. lia.
  - cbn [bind].
    destruct (batches_head data cur s) as (chunk & rest & ->).
    cbn [for_each]. unfold update_step at 1. cbn [fst snd]. unfold batch_delta.
    rewrite for_each_app, Hacc. cbn [bind for_each]. rewrite Es. reflexivity.
Qed.

(** The sweep is the sequence of the updates of its batches. *)
Lemma sweep_batches (ws os : list matrix) (data : list sample) :
  sweep np_exp args ratio batch ws os data
  = (wo <- for_each (update_step np_exp (momentum args) ratio)
             (batches batch [] data) (ws, os) ;;
     Ok (after_update wo)).
Proof.
  unfold sweep. destruct data as [|s data]; [reflexivity|].
  apply (sweep_from (s :: data) [] 0
           {| sw_weights := ws; sw_old := os; sw_accum := zeros_like ws;
              sw_batch_size := 0 |} (length (s :: data)));
    [discriminate | reflexivity | reflexivity | reflexivity].
Qed.

End Sweep.

(** * The weight update, entry by entry *)

Lemma zip_res_spec {A B C : Type} (f : A -> B -> res C) :
  forall (la : list A) (lb : list B) (lc : list C),
    zip_res f la lb = Ok lc ->
    length la = length lb /\ length lc = length la /\
    forall k da db dc, k < length la ->
      f (nth k la da) (nth k lb db) = Ok (nth k lc dc).
Proof.
  induction la as [|a la IH]; intros [|b lb] lc H; simpl in H; try discriminate.
  - injection H as <-. repeat split; auto. intros k da db dc Hk. simpl in Hk. lia.
  - destruct (f a b) as [c|e] eqn:Ef; simpl in H; [|discriminate].
    destruct (zip_res f la lb) as [cs|e] eqn:Ez; simpl in H; [|discriminate].
    injection H as <-. destruct (IH lb cs Ez) as (H1 & H2 & H3).
    repeat split; simpl; auto.
    intros [|k] da db dc Hk; [exact Ef|]. apply H3. simpl in Hk. lia.
Qed.

Lemma vec_map2_spec (f : float -> float -> float) (a b c : vector) :
  vec_map2 f a b = Ok c ->
  length a = length b /\ length c = length a /\
  forall k, k < length a ->
    nth k c 0%float = f (nth k a 0%float) (nth k b 0%float).
Proof.
  intros H. apply zip_res_spec in H. destruct H as (H1 & H2 & H3).
  repeat split; auto. intros k Hk.
  specialize (H3 k 0%float 0%float 0%float Hk). injection H3 as H3. auto.
Qed.

Lemma as_array_ok (a a' : list matrix) : as_array a = Ok a' -> a' = a.
Proof.
  unfold as_array.
  destruct (all_equal _ && negb (all_equal _)); [discriminate | congruence].
Qed.

Lemma layers_map2_spec (f : float -> float -> float) (a b c : list matrix) :
  layers_map2 f a b = Ok c ->
  same_shapes a b /\ same_shapes a c /\
  forall l i j, l < length a -> i < length (nth l a []) ->
    j < length (nth i (nth l a []) []) ->
    entry c l i j = f (entry a l i j) (entry b l i j).
Proof.
  unfold layers_map2. intros H.
  destruct (as_array a) as [a'|e] eqn:Ea; simpl in H; [|discriminate].
  destruct (as_array b) as [b'|e] eqn:Eb; simpl in H; [|discriminate].
  apply as_array_ok in Ea, Eb. subst a' b'.
  apply zip_res_spec in H. destruct H as (H1 & H2 & H3).
  assert (Hl : forall l, l < length a ->
            length (nth l a []) = length (nth l b []) /\
            length (nth l c []) = length (nth l a []) /\
            forall i, i < length (nth l a []) ->
              vec_map2 f (nth i (nth l a []) []) (nth i (nth l b []) [])
              = Ok (nth i (nth l c []) [])).
  { intros l Hl. specialize (H3 l [] [] [] Hl). unfold mat_map2 in H3.
    apply zip_res_spec in H3. destruct H3 as (H4 & H5 & H6).
    repeat split; auto. }
  split; [|split].
  - split; [exact H1|]. intros l Hl'. destruct (Hl l Hl') as (H4 & _ & H6).
    split; [exact H4|]. intros i Hi. specialize (H6 i Hi).
    apply vec_map2_spec in H6. tauto.
  - split; [lia|]. intros l Hl'. destruct (Hl l Hl') as (_ & H5 & H6).
    split; [lia|]. intros i Hi. specialize (H6 i Hi).
    apply vec_map2_spec in H6. destruct H6 as (_ & H6 & _). lia.
  - intros l i j Hl' Hi Hj. destruct (Hl l Hl') as (_ & _ & H6).
    specialize (H6 i Hi). apply vec_map2_spec in H6. destruct H6 as (_ & _ & H6).
    unfold entry. apply H6, Hj.
Qed.

Lemma layers_map_spec (f : float -> float) (a c : list matrix) :
  layers_map f a = Ok c ->
  same_shapes a c /\
  forall l i j, l < length a -> i < length (nth l a []) ->
    j < length (nth i (nth l a []) []) ->
    entry c l i j = f (entry a l i j).
Proof.
  unfold layers_map. intros H.
  destruct (as_array a) as [a'|e] eqn:Ea; simpl in H; [|discriminate].
  apply as_array_ok in Ea. subst a'. injection H as <-.
  assert (Hm : forall l, nth l (map (map (map f)) a) [] = map (map f) (nth l a [])).
  { intros l. apply (map_nth (map (map f)) a [] l). }
  assert (Hr : forall (m : matrix) i, nth i (map (map f) m) [] = map f (nth i m [])).
  { intros m i. apply (map_nth (map f) m [] i). }
  split.
  - split; [rewrite length_map; reflexivity|]. intros l Hl.
    rewrite Hm, length_map. split; [reflexivity|]. intros i Hi.
    rewrite Hr, length_map. reflexivity.
  - intros l i j Hl Hi Hj. unfold entry. rewrite Hm, Hr.
    rewrite (nth_indep _ 0%float (f 0%float)) by (rewrite length_map; exact Hj).
    apply map_nth.
Qed.

Lemma same_shapes_trans (a b c : list matrix) :
  same_shapes a b -> same_shapes b c -> same_shapes a c.
Proof.
  intros [H1 H2] [H3 H4]. split; [congruence|]. intros l Hl.
  destruct (H2 l Hl) as [H5 H6]. destruct (H4 l ltac:(lia)) as [H7 H8].
  split; [congruence|]. intros i Hi.
  rewrite (H6 i Hi). apply H8. lia.
Qed.

Lemma same_shapes_sym (a b : list matrix) : same_shapes a b -> same_shapes b a.
Proof.
  intros [H1 H2]. split; [congruence|]. intros l Hl.
  destruct (H2 l ltac:(lia)) as [H5 H6].
  split; [congruence|]. intros i Hi. symmetry. apply H6. lia.
Qed.

Lemma same_shapes_entry (a b : list matrix) (l i j : nat) :
  same_shapes a b ->
  l < length a -> i < length (nth l a []) -> j < length (nth i (nth l a []) []) ->
  l < length b /\ i < length (nth l b []) /\ j < length (nth i (nth l b []) []).
Proof.
  intros [H1 H2] Hl Hi Hj. destruct (H2 l Hl) as [H3 H4].
  specialize (H4 i Hi). repeat split; lia.
Qed.

(** The update: [w + (momentum * o - ratio * (a / n))] at every entry. *)
Lemma new_weights_spec (momentum ratio : float) (ws os accum new : list matrix)
  (n : nat) :
  new_weights momentum ratio ws os accum n = Ok new ->
  same_shapes ws new /\ same_shapes ws os /\ same_shapes ws accum /\
  forall l i j, l < length ws -> i < length (nth l ws []) ->
    j < length (nth i (nth l ws []) []) ->
    entry new l i j
    = (entry ws l i j
       + (momentum * entry os l i j
          - ratio * (entry accum l i j / float_of_nat n)))%float.
Proof.
  unfold new_weights. intros H.
  destruct (layers_map (fun o => (momentum * o)%float) os) as [m|e] eqn:Em;
    simpl in H; [|discriminate].
  destruct (layers_map (fun a => (a / float_of_nat n)%float) accum) as [q|e] eqn:Eq;
    simpl in H; [|discriminate].
  destruct (layers_map (fun x => (ratio * x)%float) q) as [r|e] eqn:Er;
    simpl in H; [|discriminate].
  destruct (layers_map2 PrimFloat.sub m r) as [d|e] eqn:Ed;
    simpl in H; [|discriminate].
  apply layers_map_spec in Em, Eq, Er.
  apply layers_map2_spec in Ed, H.
  destruct Em as [Sm Em], Eq as [Sq Eq], Er as [Sr Er].
  destruct Ed as (Smr & Smd & Ed), H as (Swd & Swn & H).
  assert (Swm : same_shapes ws m).
  { eapply same_shapes_trans; [exact Swd | apply same_shapes_sym, Smd]. }
  assert (Swo : same_shapes ws os).
  { eapply same_shapes_trans; [exact Swm | apply same_shapes_sym, Sm]. }
  assert (Swr : same_shapes ws r).
  { eapply same_shapes_trans; [exact Swm | exact Smr]. }
  assert (Swq : same_shapes ws q).
  { eapply same_shapes_trans; [exact Swr | apply same_shapes_sym, Sr]. }
  assert (Swa : same_shapes ws accum).
  { eapply same_shapes_trans; [exact Swq | apply same_shapes_sym, Sq]. }
  split; [exact Swn|]. split; [exact Swo|]. split; [exact Swa|].
  intros l i j Hl Hi Hj.
  rewrite (H l i j Hl Hi Hj).
  destruct (same_shapes_entry ws m l i j Swm Hl Hi Hj) as (Hl1 & Hi1 & Hj1).
  rewrite (Ed l i j Hl1 Hi1 Hj1).
  destruct (same_shapes_entry ws os l i j Swo Hl Hi Hj) as (Hl2 & Hi2 & Hj2).
  rewrite (Em l i j Hl2 Hi2 Hj2).
  destruct (same_shapes_entry ws q l i j Swq Hl Hi Hj) as (Hl3 & Hi3 & Hj3).
  rewrite (Er l i j Hl3 Hi3 Hj3).
  destruct (same_shapes_entry ws accum l i j Swa Hl Hi Hj) as (Hl4 & Hi4 & Hj4).
  rewrite (Eq l i j Hl4 Hi4 Hj4). reflexivity.
Qed.

Lemma same_shapes_refl (a : list matrix) : same_shapes a a.
Proof. split; [reflexivity|]. intros l _. split; [reflexivity | reflexivity]. Qed.

Lemma same_shapes_cons (a b : matrix) (la lb : list matrix) :
  same_shapes (a :: la) (b :: lb) <->
  (length a = length b /\
   (forall i, i < length a -> length (nth i a []) = length (nth i b []))) /\
  same_shapes la lb.
Proof.
  unfold same_shapes. cbn [length]. split.
  - intros [Hlen H]. split.
    + apply (H 0). lia.
    + split; [lia|]. intros l Hl. apply (H (S l)). lia.
  - intros [Hab [Hlen H]]. split; [lia|]. intros [|l] Hl.
    + exact Hab.
    + apply H. lia.
Qed.

Lemma length_nth_map {A B : Type} (f : list A -> list B) :
  (forall r, length (f r) = length r) ->
  forall (w : list (list A)) (i : nat),
    length (nth i (map f w) []) = length (nth i w []).
Proof.
  intros Hf. induction w as [|r w IH]; intros [|i]; cbn [map nth];
    [reflexivity | reflexivity | apply Hf | apply IH].
Qed.

Lemma zeros_like_shapes : forall ws : list matrix, same_shapes ws (zeros_like ws).
Proof.
  induction ws as [|w ws IH]; [apply same_shapes_refl|].
  unfold zeros_like. cbn [map]. apply same_shapes_cons.
  split; [|exact IH]. split; [symmetry; apply length_map|].
  intros i Hi. symmetry.
  apply (length_nth_map (map (fun _ : float => 0%float))).
  intros r. apply length_map.
Qed.

Lemma zero_row (r : vector) (j : nat) :
  nth j (map (fun _ : float => 0%float) r) 0%float = 0%float.
Proof.
  revert j. induction r as [|x r IH]; intros [|j]; cbn [map nth];
    [reflexivity | reflexivity | reflexivity | apply IH].
Qed.

Lemma zero_rows (w : matrix) (i j : nat) :
  nth j (nth i (map (map (fun _ : float => 0%float)) w) []) 0%float = 0%float.
Proof.
  revert i. induction w as [|r w IH]; intros [|i]; cbn [map nth];
    [destruct j; reflexivity | destruct j; reflexivity | apply zero_row | apply IH].
Qed.

(** The accumulator a batch starts from: zero in every entry. *)
Lemma zeros_like_entry (ws : list matrix) (l i j : nat) :
  entry (zeros_like ws) l i j = 0%float.
Proof.
  unfold entry, zeros_like. revert l.
  induction ws as [|w ws IH]; intros [|l]; cbn [map nth];
    [destruct i, j; reflexivity | destruct i, j; reflexivity
    | apply zero_rows | apply IH].
Qed.

(** What [accumulate] adds to the accumulator: the delta of the sample. *)
Lemma accumulate_spec (np_exp : float -> float) (weights accum : list matrix)
  (s : sample) (accum' : list matrix) :
  accumulate np_exp weights accum s = Ok accum' ->
  exists out grads,
    execute np_exp (fst s) weights = Ok out /\
    gradients (snd s) out weights = Ok grads /\
    same_shapes accum accum' /\
    forall l i j, l < length accum -> i < length (nth l accum []) ->
      j < length (nth i (nth l accum []) []) ->
      entry accum' l i j
      = (entry accum l i j + entry (delta (fst s) grads out) l i j)%float.
Proof.
  unfold accumulate. intros H.
  destruct (execute np_exp (fst s) weights) as [out|e]; cbn [bind] in H;
    [|discriminate].
  destruct (gradients (snd s) out weights) as [grads|e] eqn:Eg; cbn [bind] in H;
    [|discriminate].
  apply layers_map2_spec in H. destruct H as (_ & H1 & H2).
  exists out, grads. split; [reflexivity|]. split; [exact Eg|].
  split; [exact H1 | exact H2].
Qed.

(** * The batches of a sweep *)

Lemma batches_nil (batch : batch_limit) (data : list sample) : forall cur,
  batches batch cur data = [] -> data = [].
Proof.
  induction data as [|s data IH]; intros cur H; [reflexivity|].
  cbn [batches] in H.
  destruct (batch_reached (length (cur ++ [s])) batch || (length data =? 0)%nat)
    eqn:E; [discriminate|].
  apply IH in H. subst data. rewrite orb_true_r in E. discriminate.
Qed.

Lemma batches_concat (batch : batch_limit) (data : list sample) : forall cur,
  data <> [] -> concat (batches batch cur data) = cur ++ data.
Proof.
  induction data as [|s data IH]; intros cur Hne; [congruence|].
  cbn [batches].
  destruct (batch_reached (length (cur ++ [s])) batch || (length data =? 0)%nat)
    eqn:E.
  - simpl. destruct data as [|s' data'].
    + simpl. rewrite app_nil_r. reflexivity.
    + rewrite (IH [] ltac:(discriminate)). rewrite <- app_assoc. reflexivity.
  - apply orb_false_iff in E. destruct E as [_ E].
    destruct data as [|s' data']; [discriminate E|].
    rewrite (IH (cur ++ [s]) ltac:(discriminate)). rewrite <- app_assoc. reflexivity.
Qed.

Lemma batches_nonempty (batch : batch_limit) (data : list sample) : forall cur,
  Forall (fun c => c <> []) (batches batch cur data).
Proof.
  induction data as [|s data IH]; intros cur; [constructor|].
  cbn [batches].
  destruct (batch_reached (length (cur ++ [s])) batch || (length data =? 0)%nat).
  - constructor; [|apply IH]. intros H. apply app_eq_nil in H. destruct H; discriminate.
  - apply IH.
Qed.

Lemma batches_sizes (z : Z) (data : list sample) : forall cur,
  (Z.of_nat (length cur) < z)%Z ->
  Forall (fun c => (Z.of_nat (length c) <= z)%Z) (batches (BatchInt z) cur data) /\
  Forall (fun c => Z.of_nat (length c) = z) (removelast (batches (BatchInt z) cur data)).
Proof.
  induction data as [|s data IH]; intros cur Hcur; [split; constructor|].
  cbn [batches].
  assert (Hlen : length (cur ++ [s]) = S (length cur)) by (rewrite length_app; simpl; lia).
  destruct (batch_reached (length (cur ++ [s])) (BatchInt z)) eqn:Er.
  - simpl orb. cbv iota. simpl in Er. apply Z.eqb_eq in Er.
    destruct (IH [] ltac:(simpl; lia)) as [H1 H2].
    split; [constructor; [lia | exact H1]|].
    destruct (batches (BatchInt z) [] data) eqn:Eb; [constructor|].
    change (removelast ((cur ++ [s]) :: l :: l0))
      with ((cur ++ [s]) :: removelast (l :: l0)).
    constructor; [exact Er | exact H2].
  - simpl orb. simpl in Er. apply Z.eqb_neq in Er.
    destruct (length data =? 0)%nat eqn:El.
    + apply Nat.eqb_eq in El. destruct data; [|discriminate]. simpl.
      split; [constructor; [lia | constructor] | constructor].
    + apply IH. lia.
Qed.

Lemma batches_inf (data : list sample) : forall cur,
  data <> [] -> batches BatchInf cur data = [cur ++ data].
Proof.
  induction data as [|s data IH]; intros cur Hne; [congruence|].
  cbn [batches batch_reached orb].
  destruct data as [|s' data']; [reflexivity|].
  simpl Nat.eqb. cbv iota.
  rewrite (IH (cur ++ [s]) ltac:(discriminate)), <- app_assoc. reflexivity.
Qed.

(** ** The update succeeds on layers of one shape *)

Lemma zip_res_total {A B C : Type} (f : A -> B -> res C) :
  forall (la : list A) (lb : list B),
    length la = length lb ->
    (forall a b, In (a, b) (combine la lb) -> exists c, f a b = Ok c) ->
    exists lc, zip_res f la lb = Ok lc.
Proof.
  induction la as [|a la IH]; intros [|b lb] Hlen Hf; simpl in Hlen; try lia.
  - exists []. reflexivity.
  - simpl. destruct (Hf a b ltac:(left; reflexivity)) as (c & ->). simpl.
    destruct (IH lb ltac:(lia)) as (lc & ->).
    { intros a' b' Hin. apply Hf. right. exact Hin. }
    simpl. eauto.
Qed.

Lemma in_combine_nth {A B : Type} (la : list A) (lb : list B) (a : A) (b : B)
  (da : A) (db : B) :
  In (a, b) (combine la lb) ->
  exists k, k < length la /\ k < length lb /\ nth k la da = a /\ nth k lb db = b.
Proof.
  revert lb; induction la as [|x la IH]; intros [|y lb] Hin; simpl in Hin;
    try contradiction.
  destruct Hin as [[= -> ->]|Hin].
  - exists 0. simpl. repeat split; lia.
  - destruct (IH lb Hin) as (k & H1 & H2 & H3 & H4).
    exists (S k). simpl. repeat split; auto; lia.
Qed.

Lemma all_equal_map {A : Type} (f g : A -> nat) (la : list A) :
  (forall a, In a la -> f a = g a) -> map f la = map g la.
Proof. intros H. apply map_ext_in, H. Qed.

Lemma same_shapes_dims (a b : list matrix) :
  same_shapes a b ->
  map (@length vector) a = map (@length vector) b /\ map ncols a = map ncols b.
Proof.
  intros [H1 H2].
  assert (Hn : forall l, l < length a ->
            length (nth l a []) = length (nth l b []) /\
            ncols (nth l a []) = ncols (nth l b [])).
  { intros l Hl. destruct (H2 l Hl) as [H3 H4]. split; [exact H3|].
    destruct (nth l a []) as [|r m] eqn:Ea, (nth l b []) as [|r' m'] eqn:Eb;
      simpl in H3; try discriminate; [reflexivity|].
    specialize (H4 0 ltac:(simpl; lia)). simpl in H4. exact H4. }
  clear H2. revert b H1 Hn. induction a as [|x a IH]; intros [|y b] H1 Hn;
    simpl in H1; try discriminate; [split; reflexivity|].
  destruct (IH b ltac:(lia)) as [H5 H6].
  { intros l Hl. apply (Hn (S l)). simpl. lia. }
  destruct (Hn 0 ltac:(simpl; lia)) as [H7 H8]. simpl in H7, H8.
  simpl. split; congruence.
Qed.

Lemma as_array_same_shapes (a b : list matrix) :
  same_shapes a b -> as_array a = Ok a -> as_array b = Ok b.
Proof.
  intros Hs. destruct (same_shapes_dims a b Hs) as [H1 H2].
  unfold as_array. rewrite H1, H2.
  destruct (all_equal _ && negb (all_equal _)); [discriminate | reflexivity].
Qed.

Lemma layers_map_total (f : float -> float) (a : list matrix) :
  as_array a = Ok a -> layers_map f a = Ok (map (map (map f)) a).
Proof. intros H. unfold layers_map. rewrite H. reflexivity. Qed.

Lemma layers_map2_total (f : float -> float -> float) (a b : list matrix) :
  as_array a = Ok a -> same_shapes a b ->
  exists c, layers_map2 f a b = Ok c.
Proof.
  intros Ha Hs. unfold layers_map2.
  rewrite Ha, (as_array_same_shapes a b Hs Ha). simpl.
  destruct Hs as [H1 H2].
  apply zip_res_total; [exact H1|].
  intros m m' Hin.
  destruct (in_combine_nth a b m m' [] [] Hin) as (l & Hl & _ & <- & <-).
  destruct (H2 l Hl) as [H3 H4].
  apply zip_res_total; [exact H3|].
  intros r r' Hin'.
  destruct (in_combine_nth _ _ r r' [] [] Hin') as (i & Hi & _ & <- & <-).
  specialize (H4 i Hi).
  apply zip_res_total; [exact H4|]. intros x y _. eauto.
Qed.

Lemma new_weights_total (momentum ratio : float) (ws os accum : list matrix)
  (n : nat) :
  as_array ws = Ok ws -> same_shapes ws os -> same_shapes ws accum ->
  exists new, new_weights momentum ratio ws os accum n = Ok new.
Proof.
  intros Hw Ho Ha. unfold new_weights.
  rewrite (layers_map_total _ os (as_array_same_shapes ws os Ho Hw)). simpl.
  rewrite (layers_map_total _ accum (as_array_same_shapes ws accum Ha Hw)). simpl.
  pose proof (layers_map_spec (fun a => (a / float_of_nat n)%float) accum _
                (layers_map_total _ accum (as_array_same_shapes ws accum Ha Hw)))
    as [Sq _].
  pose proof (layers_map_spec (fun o => (momentum * o)%float) os _
                (layers_map_total _ os (as_array_same_shapes ws os Ho Hw)))
    as [Sm _].
  set (m := map (map (map (fun o => (momentum * o)%float))) os) in *.
  set (q := map (map (map (fun a => (a / float_of_nat n)%float))) accum) in *.
  assert (Swq : same_shapes ws q).
  { eapply same_shapes_trans; [exact Ha | exact Sq]. }
  assert (Swm : same_shapes ws m).
  { eapply same_shapes_trans; [exact Ho | exact Sm]. }
  rewrite (layers_map_total _ q (as_array_same_shapes ws q Swq Hw)). simpl.
  pose proof (layers_map_spec (fun x => (ratio * x)%float) q _
                (layers_map_total _ q (as_array_same_shapes ws q Swq Hw)))
    as [Sr _].
  set (r := map (map (map (fun x => (ratio * x)%float))) q) in *.
  assert (Smr : same_shapes m r).
  { eapply same_shapes_trans; [apply same_shapes_sym, Swm|].
    eapply same_shapes_trans; [exact Swq | exact Sr]. }
  destruct (layers_map2_total PrimFloat.sub m r
              (as_array_same_shapes ws m Swm Hw) Smr) as (d & Hd).
  rewrite Hd. simpl.
  apply layers_map2_total; [exact Hw|].
  apply layers_map2_spec in Hd. destruct Hd as (_ & Smd & _).
  eapply same_shapes_trans; [exact Swm | exact Smd].
Qed.

(** C1: a sweep over the training set is the sequence of the weight updates
    of its batches.  A batch ends when its count reaches the configured batch
    size, or with the last sample of the sweep (a partial final batch); the
    batches are consecutive and cover the sweep.  The update of a batch takes
    the deltas of its samples, accumulated from zero for the weights before
    the update, and the count [n] of the samples of the batch; it sets every
    entry to [w + (momentum * o - ratio * (a / n))], makes the weights before
    the update the old weights, and leaves the accumulator at zero.  The update
    is defined whenever the old weights and the accumulated delta have the
    shapes of the weights.  The accumulator of a batch starts with 0.0 in
    every entry, in the shapes of the weights, and each sample adds its delta
    to it.  Step by step: a sample that does not end a batch leaves the
    weights and the old weights as they are and counts one more sample; a
    sample that ends a batch makes the update with the count of the batch,
    and resets the count to 0 and every entry of the accumulator to 0.0. *)
Theorem sweep_weight_updates (np_exp : float -> float) (args : Args)
  (ratio : float) (batch : batch_limit) (ws os : list matrix)
  (data : list sample) :
  sweep np_exp args ratio batch ws os data
  = (wo <- for_each (update_step np_exp (momentum args) ratio)
             (batches batch [] data) (ws, os) ;;
     Ok {| sw_weights := fst wo; sw_old := snd wo;
           sw_accum := zeros_like (fst wo); sw_batch_size := 0 |}) /\
  concat (batches batch [] data) = data /\
  Forall (fun c => c <> []) (batches batch [] data) /\
  (forall z, batch = BatchInt z -> (1 <= z)%Z ->
     Forall (fun c => (Z.of_nat (length c) <= z)%Z) (batches batch [] data) /\
     Forall (fun c => Z.of_nat (length c) = z)
       (removelast (batches batch [] data))) /\
  (batch = BatchInf -> data <> [] -> batches batch [] data = [data]) /\
  (forall weights old chunk,
     update_step np_exp (momentum args) ratio (weights, old) chunk
     = (accum <- batch_delta np_exp weights chunk ;;
        new <- new_weights (momentum args) ratio weights old accum (length chunk) ;;
        Ok (new, weights))) /\
  (forall weights old accum n,
     as_array weights = Ok weights ->
     same_shapes weights old -> same_shapes weights accum ->
     exists new,
       new_weights (momentum args) ratio weights old accum n = Ok new) /\
  (forall weights old accum n new,
     new_weights (momentum args) ratio weights old accum n = Ok new ->
     same_shapes weights new /\
     forall l i j, l < length weights -> i < length (nth l weights []) ->
       j < length (nth i (nth l weights []) []) ->
       entry new l i j
       = (entry weights l i j
          + (momentum args * entry old l i j
             - ratio * (entry accum l i j / float_of_nat n)))%float) /\
  (forall weights,
     same_shapes weights (zeros_like weights) /\
     forall l i j, entry (zeros_like weights) l i j = 0%float) /\
  (forall weights chunk,
     batch_delta np_exp weights chunk
     = for_each (accumulate np_exp weights) chunk (zeros_like weights)) /\
  (forall weights accum s accum',
     accumulate np_exp weights accum s = Ok accum' ->
     exists out grads,
       execute np_exp (fst s) weights = Ok out /\
       gradients (snd s) out weights = Ok grads /\
       same_shapes accum accum' /\
       forall l i j, l < length accum -> i < length (nth l accum []) ->
         j < length (nth i (nth l accum []) []) ->
         entry accum' l i j
         = (entry accum l i j + entry (delta (fst s) grads out) l i j)%float) /\
  (forall len st j s st',
     sweep_body np_exp args ratio batch len st (j, s) = Ok st' ->
     exists accum,
       accumulate np_exp (sw_weights st) (sw_accum st) s = Ok accum /\
       if batch_reached (S (sw_batch_size st)) batch || (j + 1 =? len)%nat
       then
         new_weights (momentum args) ratio (sw_weights st) (sw_old st) accum
           (S (sw_batch_size st)) = Ok (sw_weights st') /\
         sw_old st' = sw_weights st /\
         sw_batch_size st' = 0 /\
         same_shapes (sw_weights st') (sw_accum st') /\
         (forall l i k, entry (sw_accum st') l i k = 0%float)
       else
         sw_weights st' = sw_weights st /\ sw_old st' = sw_old st /\
         sw_accum st' = accum /\ sw_batch_size st' = S (sw_batch_size st)) /\
  (sweep np_exp args ratio batch ws os data
   = for_each (sweep_body np_exp args ratio batch (length data))
       (combine (seq 0 (length data)) data)
       {| sw_weights := ws; sw_old := os;
          sw_accum := zeros_like ws; sw_batch_size := 0 |}).
Proof.
  split; [apply sweep_batches|].
  split.
  { destruct data as [|s data]; [reflexivity|].
    apply (batches_concat batch (s :: data) []). discriminate. }
  split; [apply batches_nonempty|].
  split.
  { intros z -> Hz. apply batches_sizes. simpl. lia. }
  split.
  { intros -> Hne. apply (batches_inf data [] Hne). }
  split; [reflexivity|].
  split.
  { intros weights old accum n Hw Ho Ha. apply new_weights_total; assumption. }
  split.
  { intros weights old accum n new H.
    apply new_weights_spec in H. destruct H as (H1 & _ & _ & H2).
    split; assumption. }
  split.
  { intros weights. split; [apply zeros_like_shapes|].
    intros l i j. apply zeros_like_entry. }
  split; [reflexivity|].
  split; [intros weights accum s accum' H; apply (accumulate_spec _ _ _ _ _ H)|].
  split; [|reflexivity].
  intros len st j s st' H. rewrite sweep_body_accumulate in H.
  destruct (accumulate np_exp (sw_weights st) (sw_accum st) s) as [accum|e];
    cbn [bind] in H; [|discriminate].
  exists accum. split; [reflexivity|].
  destruct (batch_reached (S (sw_batch_size st)) batch || (j + 1 =? len)%nat).
  - destruct (new_weights (momentum args) ratio (sw_weights st) (sw_old st)
                accum (S (sw_batch_size st))) as [new|e];
      cbn [bind] in H; [|discriminate].
    injection H as <-.
    unfold after_update. cbn [fst snd sw_weights sw_old sw_accum sw_batch_size].
    split; [reflexivity|]. split; [reflexivity|]. split; [reflexivity|].
    split; [apply zeros_like_shapes|]. intros l i k. apply zeros_like_entry.
  - injection H as <-. cbn [sw_weights sw_old sw_accum sw_batch_size].
    split; [reflexivity|]. split; [reflexivity|]. split; reflexivity.
Qed.

(** * The training loop *)

Section TrainerLoop.

Variable np_exp : float -> float.
Variable np_log : float -> float.
Variable randn : nat -> nat -> nat -> matrix.
Variable shuffle : nat -> list sample -> list sample.
Variable args : Args.
Variable validate : list sample.

Lemma generation_stops (ratio : float) (batch : batch_limit) (t : trainer)
  (te ve : float) :
  error np_exp (train t) (weights t) = Ok te ->
  (if validate_given args then error np_exp validate (weights t) else Ok te)
  = Ok ve ->
  (ve <=? stop args)%float = true ->
  generation np_exp np_log shuffle args validate ratio batch t
  = Ok (inl (stopped t)).
Proof.
  intros H1 H2 H3. unfold generation. rewrite H1. cbn [bind]. rewrite H2.
  cbn [bind]. rewrite H3. reflexivity.
Qed.

Lemma generation_continues (ratio : float) (batch : batch_limit)
  (t t' : trainer) (te ve : float) :
  error np_exp (train t) (weights t) = Ok te ->
  (if validate_given args then error np_exp validate (weights t) else Ok te)
  = Ok ve ->
  generation np_exp np_log shuffle args validate ratio batch t = Ok (inr t') ->
  (ve <=? stop args)%float = false /\
  train_errors t' = train_errors t ++ [te] /\
  validate_errors t'
  = (if validate_given args then validate_errors t ++ [ve]
     else validate_errors t) /\
  gen t' = S (gen t) /\
  train t' = shuffle (S (gen t)) (train t) /\
  exists st,
    sweep np_exp args ratio batch (weights t) (old t) (train t') = Ok st /\
    weights t' = sw_weights st /\ old t' = sw_old st.
Proof.
  intros H1 H2 H. unfold generation in H. rewrite H1 in H. cbn [bind] in H.
  rewrite H2 in H. cbn [bind] in H.
  destruct (ve <=? stop args)%float; [discriminate|].
  destruct (cost np_exp np_log (train t) (weights t)) as [tc|e];
    cbn [bind] in H; [|discriminate].
  destruct (if validate_given args
            then cost np_exp np_log validate (weights t) else Ok tc) as [vc|e];
    cbn [bind] in H; [|discriminate].
  destruct (sweep np_exp args ratio batch (weights t) (old t)
              (shuffle (S (gen t)) (train t))) as [st|e] eqn:Es;
    cbn [bind] in H; [|discriminate].
  injection H as <-. cbn.
  repeat split. exists st. repeat split. exact Es.
Qed.

Lemma run_stops (ratio : float) (batch : batch_limit) (budget : nat)
  (t t' : trainer) :
  generation np_exp np_log shuffle args validate ratio batch t = Ok (inl t') ->
  run np_exp np_log shuffle args validate ratio batch (S budget) t
  = Ok (Converged, t').
Proof. intros H. cbn [run]. rewrite H. reflexivity. Qed.

Lemma mlp_run (ratio batch : float) (hidden : Z) (train0 : list sample)
  (batch' : batch_limit) (g : Z) :
  convert_batch batch = Ok batch' ->
  (generations args =? infinity)%float = false ->
  py_int_of_float (generations args) = Ok g ->
  (0 <= hidden)%Z ->
  mlp np_exp np_log randn shuffle args validate ratio batch hidden train0
  = run np_exp np_log shuffle args validate ratio batch' (Z.to_nat g)
      (initial_trainer (initial_weights randn hidden) train0).
Proof.
  intros Hb Hinf Hg Hh. unfold mlp. fold (convert_batch batch). rewrite Hb.
  cbn [bind]. rewrite Hinf. cbn [negb]. rewrite Hg. cbn [bind].
  destruct (Z.ltb_spec hidden 0) as [Hlt|_]; [lia|]. reflexivity.
Qed.

(** [mlp] stops in its first generation when the error it measures there is
    at most the threshold. *)
Lemma mlp_stops_first (ratio batch : float) (hidden : Z) (train0 : list sample)
  (batch' : batch_limit) (g : Z) (te ve : float) :
  convert_batch batch = Ok batch' ->
  (generations args =? infinity)%float = false ->
  py_int_of_float (generations args) = Ok g ->
  (1 <= g)%Z -> (0 <= hidden)%Z ->
  error np_exp train0 (initial_weights randn hidden) = Ok te ->
  (if validate_given args
   then error np_exp validate (initial_weights randn hidden) else Ok te)
  = Ok ve ->
  (ve <=? stop args)%float = true ->
  mlp np_exp np_log randn shuffle args validate ratio batch hidden train0
  = Ok (Converged,
        stopped (initial_trainer (initial_weights randn hidden) train0)).
Proof.
  intros Hb Hinf Hg Hg1 Hh He Hv Hstop.
  rewrite (mlp_run ratio batch hidden train0 batch' g Hb Hinf Hg Hh).
  destruct (Z.to_nat g) as [|budget] eqn:E; [lia|].
  apply run_stops.
  apply (generation_stops ratio batch' _ te ve); assumption.
Qed.

Lemma mnist_samples_fit (data : list sample) :
  Forall mnist_sample data ->
  Forall (fun s => length (fst s) = 784 /\ snd s <> []) data.
Proof.
  intros H. revert H. apply Forall_impl. intros [x y] [H1 H2]. cbn [fst snd] in *.
  split; [exact H1|]. destruct y; [discriminate H2 | discriminate].
Qed.

(** The errors [mlp] measures in its first generation, for datasets that fit
    the network: quotients of counts. *)
Lemma first_errors (hidden : Z) (train0 : list sample) :
  mlp_shaped (Z.to_nat hidden) (initial_weights randn hidden) ->
  train0 <> [] -> Forall mnist_sample train0 ->
  (validate_given args = true -> validate <> [] /\ Forall mnist_sample validate) ->
  exists te ve c n,
    error np_exp train0 (initial_weights randn hidden) = Ok te /\
    (if validate_given args
     then error np_exp validate (initial_weights randn hidden) else Ok te)
    = Ok ve /\
    ve = (float_of_nat c / float_of_nat n)%float /\
    c <= n /\ 0 < n /\
    n = (if validate_given args then length validate else length train0).
Proof.
  intros Hs Htrain Hshape Hval.
  assert (Hne : initial_weights randn hidden <> []) by discriminate.
  destruct (error_total np_exp 784 [Z.to_nat hidden; 10] _ train0 Hs Hne
              ltac:(simpl; lia) Htrain (mnist_samples_fit train0 Hshape))
    as (c & Hc & He).
  destruct (validate_given args) eqn:Ev.
  - destruct (Hval eq_refl) as [Hvne Hvs].
    destruct (error_total np_exp 784 [Z.to_nat hidden; 10] _ validate Hs Hne
                ltac:(simpl; lia) Hvne (mnist_samples_fit validate Hvs))
      as (cv & Hcv & Hev).
    eexists _, _, cv, (length validate).
    repeat split; [exact He | exact Hev | exact Hcv |].
    destruct validate; [congruence | simpl; lia].
  - eexists _, _, c, (length train0).
    repeat split; [exact He | exact Hc |].
    destruct train0; [congruence | simpl; lia].
Qed.

(** C4: the convergence check is the first decision of a generation, for
    every stop threshold.  Whenever the validation error rate (the training
    error rate when no validation set is given) is at most the threshold, the
    generation ends the loop with the weights, the old weights, the training
    set and both trajectories as they were: no metric is recorded, no cost
    computed and no update made; only the generation counter has advanced.  A
    generation ends the loop in no other case: one that goes on has a
    validation error that is not at most the threshold, and records its
    errors; the loop then continues with the state it leaves.  So [mlp] stops
    in generation 1 whenever the error of the network it drew is at most the
    threshold, and in particular with a threshold that no error rate of the
    datasets exceeds. *)
Theorem convergence_check :
  (forall ratio batch t te ve budget,
     error np_exp (train t) (weights t) = Ok te ->
     (if validate_given args then error np_exp validate (weights t) else Ok te)
     = Ok ve ->
     (ve <=? stop args)%float = true ->
     generation np_exp np_log shuffle args validate ratio batch t
     = Ok (inl {| weights := weights t; old := old t; train := train t;
                  train_errors := train_errors t;
                  validate_errors := validate_errors t; gen := S (gen t) |}) /\
     run np_exp np_log shuffle args validate ratio batch (S budget) t
     = Ok (Converged,
           {| weights := weights t; old := old t; train := train t;
              train_errors := train_errors t;
              validate_errors := validate_errors t; gen := S (gen t) |})) /\
  (forall ratio batch t r te ve,
     error np_exp (train t) (weights t) = Ok te ->
     (if validate_given args then error np_exp validate (weights t) else Ok te)
     = Ok ve ->
     generation np_exp np_log shuffle args validate ratio batch t = Ok r ->
     match r with
     | inl t' =>
         (ve <=? stop args)%float = true /\
         t' = {| weights := weights t; old := old t; train := train t;
                 train_errors := train_errors t;
                 validate_errors := validate_errors t; gen := S (gen t) |}
     | inr t' =>
         (ve <=? stop args)%float = false /\
         train_errors t' = train_errors t ++ [te] /\
         validate_errors t'
         = (if validate_given args then validate_errors t ++ [ve]
            else validate_errors t) /\
         gen t' = S (gen t)
     end) /\
  (forall ratio batch t t' budget,
     generation np_exp np_log shuffle args validate ratio batch t = Ok (inr t') ->
     run np_exp np_log shuffle args validate ratio batch (S budget) t
     = run np_exp np_log shuffle args validate ratio batch budget t') /\
  (forall ratio batch hidden train0 batch' g te ve,
     convert_batch batch = Ok batch' ->
     (generations args =? infinity)%float = false ->
     py_int_of_float (generations args) = Ok g ->
     (1 <= g)%Z -> (0 <= hidden)%Z ->
     error np_exp train0 (initial_weights randn hidden) = Ok te ->
     (if validate_given args
      then error np_exp validate (initial_weights randn hidden) else Ok te)
     = Ok ve ->
     (ve <=? stop args)%float = true ->
     mlp np_exp np_log randn shuffle args validate ratio batch hidden train0
     = Ok (Converged,
           {| weights := initial_weights randn hidden;
              old := initial_weights randn hidden;
              train := train0; train_errors := []; validate_errors := [];
              gen := 1 |})) /\
  (forall ratio batch hidden train0 batch' g,
     convert_batch batch = Ok batch' ->
     (generations args =? infinity)%float = false ->
     py_int_of_float (generations args) = Ok g ->
     (1 <= g)%Z -> (0 <= hidden)%Z ->
     mlp_shaped (Z.to_nat hidden) (initial_weights randn hidden) ->
     train0 <> [] -> Forall mnist_sample train0 ->
     (validate_given args = true ->
      validate <> [] /\ Forall mnist_sample validate) ->
     (forall c n, c <= n ->
        n = (if validate_given args then length validate else length train0) ->
        (float_of_nat c / float_of_nat n <=? stop args)%float = true) ->
     mlp np_exp np_log randn shuffle args validate ratio batch hidden train0
     = Ok (Converged,
           {| weights := initial_weights randn hidden;
              old := initial_weights randn hidden;
              train := train0; train_errors := []; validate_errors := [];
              gen := 1 |})).
Proof.
  split; [|split; [|split; [|split]]].
  - intros ratio batch t te ve budget H1 H2 H3.
    pose proof (generation_stops ratio batch t te ve H1 H2 H3) as H.
    split; [exact H | apply run_stops, H].
  - intros ratio batch t r te ve He Hv H. unfold generation in H.
    rewrite He in H. cbn [bind] in H. rewrite Hv in H. cbn [bind] in H.
    destruct (ve <=? stop args)%float.
    + injection H as <-. split; reflexivity.
    + destruct (cost np_exp np_log (train t) (weights t)) as [tc|e];
        cbn [bind] in H; [|discriminate].
      destruct (if validate_given args
                then cost np_exp np_log validate (weights t) else Ok tc)
        as [vc|e]; cbn [bind] in H; [|discriminate].
      destruct (sweep np_exp args ratio batch (weights t) (old t)
                  (shuffle (S (gen t)) (train t))) as [st|e];
        cbn [bind] in H; [|discriminate].
      injection H as <-. cbn [train_errors validate_errors gen].
      split; [reflexivity|]. split; [reflexivity|]. split; reflexivity.
  - intros ratio batch t t' budget H. cbn [run]. rewrite H. reflexivity.
  - intros ratio batch hidden train0 batch' g te ve Hb Hinf Hg Hg1 Hh He Hv Hstop.
    apply (mlp_stops_first ratio batch hidden train0 batch' g te ve
             Hb Hinf Hg Hg1 Hh He Hv Hstop).
  - intros ratio batch hidden train0 batch' g Hb Hinf Hg Hg1 Hh Hs Htrain Hshape
      Hval Habove.
    destruct (first_errors hidden train0 Hs Htrain Hshape Hval)
      as (te & ve & c & n & He & Hv & -> & Hc & Hn & Hlen).
    apply (mlp_stops_first ratio batch hidden train0 batch' g te _
             Hb Hinf Hg Hg1 Hh He Hv).
    apply Habove; assumption.
Qed.



End TrainerLoop.

(** ** Runs of the trainer on concrete datasets *)

Lemma convergence_check_witness :
  (0.5 <? 1)%float = true /\
  mlp exp_ref log_ref balanced_randn no_shuffle
    {| momentum := 0.5%float; generations := 3%float; stop := 0.5%float;
       validate_given := false |}
    [] 1%float infinity 1%Z two_samples
  = Ok (Converged,
        {| weights := balanced_net; old := balanced_net; train := two_samples;
           train_errors := []; validate_errors := []; gen := 1 |}).
Proof.
  split; [reflexivity|].
  destruct (convergence_check exp_ref log_ref balanced_randn no_shuffle
              {| momentum := 0.5%float; generations := 3%float;
                 stop := 0.5%float; validate_given := false |} [])
    as (_ & _ & _ & H & _).
  apply (H 1%float infinity 1%Z two_samples BatchInf 3%Z 0.5%float 0.5%float).
  - reflexivity.
  - reflexivity.
  - reflexivity.
  - lia.
  - lia.
  - vm_compute. reflexivity.
  - reflexivity.
  - reflexivity.
Defined.






(** * Further properties of the program *)

(** ** The loop of [mlp] *)

Section LoopInvariants.

Variable np_exp : float -> float.
Variable np_log : float -> float.
Variable randn : nat -> nat -> nat -> matrix.
Variable shuffle : nat -> list sample -> list sample.
Variable args : Args.
Variable validate : list sample.




(** X3: with [args.generations] infinite, which is the default of the command
    line, [generations] is never bound: the loop condition of [mlp] raises
    [UnboundLocalError] before the first generation, whatever the datasets. *)
Theorem mlp_unbounded_generations (ratio batch : float) (hidden : Z)
  (train0 : list sample) (batch' : batch_limit) :
  convert_batch batch = Ok batch' ->
  (generations args =? infinity)%float = true ->
  (0 <= hidden)%Z ->
  mlp np_exp np_log randn shuffle args validate ratio batch hidden train0
  = Raise UnboundLocalError.
Proof.
  intros Hb Hinf Hh. unfold mlp. fold (convert_batch batch). rewrite Hb.
  cbn [bind]. rewrite Hinf. cbn [negb bind].
  destruct (Z.ltb_spec hidden 0) as [Hlt|_]; [lia | reflexivity].
Qed.


End LoopInvariants.

Lemma mlp_unbounded_generations_witness :
  mlp exp_ref log_ref balanced_randn no_shuffle
    {| momentum := 0.5%float; generations := infinity;
       stop := neg_infinity; validate_given := false |}
    [] 0.5%float 10%float 100%Z two_samples
  = Raise UnboundLocalError.
Proof.
  apply (mlp_unbounded_generations exp_ref log_ref balanced_randn no_shuffle
           _ [] 0.5%float 10%float 100%Z two_samples (BatchInt 10)).
  - reflexivity.
  - reflexivity.
  - lia.
Defined.



(** ** Samples that do not fit the network *)

Lemma execute_length (np_exp : float -> float) : forall ws inp outs,
  execute np_exp inp ws = Ok outs -> length outs = length ws.
Proof.
  induction ws as [|w ws IH]; intros inp outs H; cbn [execute] in H.
  - injection H as <-. reflexivity.
  - destruct (np_dot (1%float :: inp) w) as [z|e]; cbn [bind] in H; [|discriminate].
    destruct (execute np_exp (sigm np_exp z) ws) as [r|e] eqn:E; cbn [bind] in H;
      [|discriminate].
    injection H as <-. cbn [length]. f_equal. apply (IH _ _ E).
Qed.

Lemma execute_raises (np_exp : float -> float) : forall ws inp e,
  execute np_exp inp ws = Raise e -> e = ValueError.
Proof.
  induction ws as [|w ws IH]; intros inp e H; cbn [execute] in H; [discriminate|].
  unfold np_dot in H.
  destruct (length (1%float :: inp) =? length w)%nat; cbn [bind] in H;
    [|congruence].
  match type of H with
  | bind (execute np_exp ?i ws) _ = _ =>
      destruct (execute np_exp i ws) as [r|e'] eqn:E; cbn [bind] in H;
        [discriminate|]
  end.
  injection H as <-. apply (IH _ _ E).
Qed.

Lemma execute_mismatch (np_exp : float -> float) (nf : nat) (nts : list nat)
  (ws : list matrix) (inp : vector) :
  shaped nf nts ws -> ws <> [] -> length inp <> nf ->
  execute np_exp inp ws = Raise ValueError.
Proof.
  intros Hs Hne Hlen. destruct ws as [|w ws]; [congruence|].
  destruct nts as [|nt nts]; [discriminate Hs|].
  unfold shaped in Hs. cbn [shapedb] in Hs. apply andb_true_iff in Hs.
  destruct Hs as [Hw _]. apply layer_shape_rows in Hw. destruct Hw as [Hw _].
  cbn [execute]. unfold np_dot. cbn [length]. rewrite Hw.
  destruct (Nat.eqb_spec (S (length inp)) (S nf)) as [E|_]; [lia|]. reflexivity.
Qed.

Lemma error_body_raises (np_exp : float -> float) (ws : list matrix) (c : nat)
  (s : sample) (e : exn) :
  ws <> [] -> error_body np_exp ws c s = Raise e -> e = ValueError.
Proof.
  intros Hne H. destruct s as [inp expect]. unfold error_body in H.
  destruct expect as [|x expect]; cbn [np_argmax bind] in H; [congruence|].
  destruct (execute np_exp inp ws) as [out|e'] eqn:E; cbn [bind] in H.
  - apply execute_length in E.
    unfold py_last in H. destruct (rev out) as [|p r] eqn:Er.
    { apply (f_equal (@length vector)) in Er. rewrite length_rev in Er.
      cbn in Er. destruct ws; [congruence | cbn in E; lia]. }
    cbn [bind] in H. destruct p as [|y p]; cbn [np_argmax bind] in H;
      [congruence | discriminate].
  - injection H as <-. apply (execute_raises np_exp ws inp e' E).
Qed.

Lemma error_mismatch (np_exp : float -> float) (nf : nat)
  (nts : list nat) (ws : list matrix) (data : list sample) :
  shaped nf nts ws -> ws <> [] ->
  Exists (fun s => length (fst s) <> nf) data ->
  error np_exp data ws = Raise ValueError.
Proof.
  intros Hs Hne Hex. unfold error.
  assert (H : forall c, for_each (error_body np_exp ws) data c = Raise ValueError).
  { induction Hex as [s data Hlen | s data _ IH]; intros c; cbn [for_each].
    - destruct s as [inp expect]. cbn [fst] in Hlen.
      assert (E : error_body np_exp ws c (inp, expect) = Raise ValueError).
      { unfold error_body. destruct expect as [|x expect]; [reflexivity|].
        cbn [np_argmax bind].
        rewrite (execute_mismatch np_exp nf nts ws inp Hs Hne Hlen). reflexivity. }
      rewrite E. reflexivity.
    - destruct (error_body np_exp ws c s) as [c'|e] eqn:E; cbn [bind].
      + apply IH.
      + f_equal. apply (error_body_raises np_exp ws c s e Hne E). }
  rewrite H. reflexivity.
Qed.

(** X8: an input that has not the width of the network's first layer makes the
    forward pass raise [ValueError]; [error] on a dataset that holds a sample
    with such an input raises [ValueError], whatever the other samples are. *)
Theorem error_input_mismatch (np_exp : float -> float) (nf : nat)
  (nts : list nat) (ws : list matrix) (data : list sample) :
  shaped nf nts ws -> ws <> [] ->
  Exists (fun s => length (fst s) <> nf) data ->
  (forall inp, length inp <> nf -> execute np_exp inp ws = Raise ValueError) /\
  error np_exp data ws = Raise ValueError.
Proof.
  intros Hs Hne Hex. split.
  - intros inp Hlen. apply (execute_mismatch np_exp nf nts ws inp Hs Hne Hlen).
  - apply (error_mismatch np_exp nf nts ws data Hs Hne Hex).
Qed.

Lemma error_input_mismatch_witness :
  error exp_ref [(first_pixel_image, one_hot 10 0); ([0.5%float], one_hot 10 1)]
    balanced_net
  = Raise ValueError.
Proof.
  apply (error_input_mismatch exp_ref 784 [1; 10] balanced_net
           [(first_pixel_image, one_hot 10 0); ([0.5%float], one_hot 10 1)]).
  - vm_compute. reflexivity.
  - discriminate.
  - apply Exists_cons_tl. apply Exists_cons_hd. cbn. lia.
Defined.

(** ** The error rate and the order of the dataset *)

Lemma for_each_error_inv (np_exp : float -> float) (ws : list matrix) :
  forall (data : list sample) (c n : nat),
    for_each (error_body np_exp ws) data c = Ok n ->
    Forall (fun s => exists m, misclassified np_exp ws s = Ok m) data /\
    n = c + count_true (map (misclassified_or_false np_exp ws) data).
Proof.
  induction data as [|s data IH]; intros c n H; cbn [for_each] in H.
  - injection H as <-. split; [constructor | cbn; lia].
  - rewrite error_body_misclassified in H.
    cbn [map]. rewrite count_true_cons. unfold misclassified_or_false at 1.
    destruct (misclassified np_exp ws s) as [m|e] eqn:Em; cbn [bind] in H;
      [|discriminate].
    apply IH in H. destruct H as [H1 H2]. split.
    + constructor; [exists m; exact Em | exact H1].
    + rewrite H2. destruct m; lia.
Qed.

Lemma for_each_error_total (np_exp : float -> float) (ws : list matrix) :
  forall (data : list sample) (c : nat),
    Forall (fun s => exists m, misclassified np_exp ws s = Ok m) data ->
    for_each (error_body np_exp ws) data c
    = Ok (c + count_true (map (misclassified_or_false np_exp ws) data)).
Proof.
  induction data as [|s data IH]; intros c H; cbn [for_each].
  - cbn. f_equal. lia.
  - inversion H as [|? ? [m Hm] Hrest]; subst.
    rewrite error_body_misclassified. cbn [map]. rewrite count_true_cons.
    unfold misclassified_or_false at 1. rewrite Hm. cbn [bind].
    rewrite (IH _ Hrest). f_equal. destruct m; lia.
Qed.

Lemma count_true_perm (a b : list bool) :
  Permutation a b -> count_true a = count_true b.
Proof.
  induction 1 as [|x a b _ IH|x y a|a b c _ IH1 _ IH2].
  - reflexivity.
  - rewrite !count_true_cons. lia.
  - rewrite !count_true_cons. lia.
  - lia.
Qed.

(** X9: [error] does not depend on the order of the dataset: on a permutation of
    a dataset it returns the same rate, so the shuffle of a generation does
    not change the training error of a network. *)
Theorem error_permutation (np_exp : float -> float) (ws : list matrix)
  (data data' : list sample) (e : float) :
  Permutation data data' ->
  error np_exp data ws = Ok e ->
  error np_exp data' ws = Ok e.
Proof.
  intros Hp H. unfold error in *.
  destruct (for_each (error_body np_exp ws) data 0) as [n|x] eqn:E;
    cbn [bind] in H; [|discriminate].
  apply for_each_error_inv in E. destruct E as [Hall ->].
  rewrite (for_each_error_total np_exp ws data' 0
             (Permutation_Forall Hp Hall)).
  cbn [bind].
  rewrite <- (count_true_perm _ _
                (Permutation_map (misclassified_or_false np_exp ws) Hp)).
  rewrite <- (Permutation_length Hp). exact H.
Qed.

Lemma error_permutation_witness :
  error exp_ref [(blank_image, one_hot 10 1); (first_pixel_image, one_hot 10 0)]
    balanced_net
  = Ok 0.5%float.
Proof.
  apply (error_permutation exp_ref balanced_net two_samples).
  - apply perm_swap.
  - vm_compute. reflexivity.
Defined.


(** ** Shapes through a training step *)

Lemma same_shapes_nil_inv (b : list matrix) : same_shapes [] b -> b = [].
Proof. intros [H _]. destruct b; [reflexivity | discriminate]. Qed.

Lemma layer_shape_iff (nf nt : nat) (w : matrix) :
  layer_shape nf nt w <->
  length w = S nf /\ forall i, i < length w -> length (nth i w []) = nt.
Proof.
  unfold layer_shape, layer_shapeb. rewrite andb_true_iff, Nat.eqb_eq, forallb_forall.
  split; intros [H1 H2]; (split; [exact H1|]).
  - intros i Hi. apply Nat.eqb_eq, H2, nth_In, Hi.
  - intros r Hr. apply Nat.eqb_eq.
    destruct (In_nth w r [] Hr) as (i & Hi & <-). apply H2, Hi.
Qed.

Lemma shaped_cons (nf nt : nat) (nts : list nat) (w : matrix) (ws : list matrix) :
  shaped nf (nt :: nts) (w :: ws) <-> layer_shape nf nt w /\ shaped nt nts ws.
Proof. unfold shaped, layer_shape. cbn [shapedb]. apply andb_true_iff. Qed.

(** Layers of the shapes of a network form a network of the same topology. *)
Lemma shaped_same_shapes : forall (nts : list nat) (nf : nat) (ws ws' : list matrix),
  shaped nf nts ws -> same_shapes ws ws' -> shaped nf nts ws'.
Proof.
  induction nts as [|nt nts IH]; intros nf ws ws' Hs Hsame.
  - destruct ws; [|discriminate Hs]. apply same_shapes_nil_inv in Hsame.
    subst. reflexivity.
  - destruct ws as [|w ws]; [discriminate Hs|].
    destruct ws' as [|w' ws']; [destruct Hsame as [H _]; discriminate|].
    apply shaped_cons in Hs. destruct Hs as [Hw Hs].
    apply same_shapes_cons in Hsame. destruct Hsame as [[Hlen Hrows] Hsame].
    apply shaped_cons. split; [|apply (IH nt ws ws' Hs Hsame)].
    apply layer_shape_iff in Hw. destruct Hw as [H1 H2].
    apply layer_shape_iff. split; [lia|].
    intros i Hi. rewrite <- Hrows by lia. apply H2. lia.
Qed.

(** Two networks of one topology have layers of the same shapes. *)
Lemma shaped_shapes : forall (nts : list nat) (nf : nat) (ws ws' : list matrix),
  shaped nf nts ws -> shaped nf nts ws' -> same_shapes ws ws'.
Proof.
  induction nts as [|nt nts IH]; intros nf ws ws' Hs Hs'.
  - destruct ws; [|discriminate Hs]. destruct ws'; [|discriminate Hs'].
    apply same_shapes_refl.
  - destruct ws as [|w ws]; [discriminate Hs|].
    destruct ws' as [|w' ws']; [discriminate Hs'|].
    apply shaped_cons in Hs, Hs'. destruct Hs as [Hw Hs], Hs' as [Hw' Hs'].
    apply layer_shape_iff in Hw, Hw'. destruct Hw as [H1 H2], Hw' as [H1' H2'].
    apply same_shapes_cons. split; [|apply (IH nt ws ws' Hs Hs')].
    split; [lia|]. intros i Hi. rewrite H2, H2' by lia. reflexivity.
Qed.

Lemma np_outer_shape (a b : vector) (n : nat) :
  length a = S n -> layer_shape n (length b) (np_outer a b).
Proof.
  intros Ha. apply layer_shape_iff. unfold np_outer. rewrite length_map.
  split; [exact Ha|]. intros i Hi.
  rewrite (nth_indep _ [] (map (fun y => (0 * y)%float) b))
    by (rewrite length_map; exact Hi).
  rewrite (map_nth (fun x => map (fun y => (x * y)%float) b) a 0%float i).
  apply length_map.
Qed.

Lemma np_outer_entry (a b : vector) (i j : nat) :
  i < length a -> j < length b ->
  nth j (nth i (np_outer a b) []) 0%float = (nth i a 0 * nth j b 0)%float.
Proof.
  intros Hi Hj. unfold np_outer.
  rewrite (nth_indep _ [] (map (fun y => (0 * y)%float) b))
    by (rewrite length_map; exact Hi).
  rewrite (map_nth (fun x => map (fun y => (x * y)%float) b) a 0%float i).
  rewrite (nth_indep _ 0%float (nth i a 0 * 0)%float)
    by (rewrite length_map; exact Hj).
  apply (map_nth (fun y => (nth i a 0 * y)%float) b 0%float j).
Qed.

(** [delta] for a network of the topology [nf], [nts]: one matrix per layer,
    of the shape of the layer. *)
Lemma delta_shaped : forall (nts : list nat) (nf : nat) (inp : vector)
  (gs outs : list vector),
  length inp = nf ->
  Forall2 (fun g nt => length g = nt) gs nts ->
  Forall2 (fun o nt => length o = nt) outs nts ->
  shaped nf nts (delta inp gs outs).
Proof.
  induction nts as [|nt nts IH]; intros nf inp gs outs Hinp Hg Ho.
  - inversion Hg; subst. reflexivity.
  - inversion Hg as [|g ? gs' ? Hg1 Hg2]; subst.
    inversion Ho as [|o ? outs' ? Ho1 Ho2]; subst.
    cbn [delta]. apply shaped_cons. split.
    + apply np_outer_shape. cbn [length]. reflexivity.
    + apply IH; [exact Ho1 | assumption | assumption].
Qed.

(** The entries of [delta]: in layer [l], the product of the input of the
    layer, 1.0 in front, with the gradient of the layer. *)
Lemma delta_entry : forall (gs outs : list vector) (inp : vector) (l i j : nat),
  length gs = length outs -> l < length gs ->
  i < S (length (nth l (inp :: outs) [])) -> j < length (nth l gs []) ->
  entry (delta inp gs outs) l i j
  = (nth i (1%float :: nth l (inp :: outs) []) 0 * nth j (nth l gs []) 0)%float.
Proof.
  induction gs as [|g gs IH]; intros outs inp l i j Hlen Hl Hi Hj;
    [cbn in Hl; lia|].
  destruct outs as [|o outs]; [discriminate|].
  cbn [delta]. destruct l as [|l].
  - unfold entry. cbn [nth] in *. apply np_outer_entry; [exact Hi | exact Hj].
  - unfold entry in *. cbn [nth length] in *.
    apply (IH outs o l i j); [lia | lia | exact Hi | exact Hj].
Qed.

(** The gradients of a network of the topology [nf], [nts]: one per layer, of
    the width of the layer. *)
Lemma gradients_widths (nf : nat) (nts : list nat) (weights : list matrix)
  (expect : vector) (out : list vector) (predict : vector) :
  shaped nf nts weights -> weights <> [] ->
  py_last out = Ok predict ->
  length predict = last nts 0 -> length expect = last nts 0 ->
  exists gs,
    gradients expect out weights = Ok gs /\
    Forall2 (fun g nt => length g = nt) gs nts.
Proof.
  intros Hs Hne Hlast Hp He.
  set (g := map (fun p => (fst p - snd p)%float) (combine predict expect)).
  assert (Hn : 0 < length weights) by (destruct weights; simpl; [congruence | lia]).
  assert (Hnts : length nts = length weights)
    by (apply (shaped_length nf nts weights Hs)).
  destruct (@set_last_spec vector (repeat [0%float] (length weights)) g)
    as (r0 & Hset & Hlen0 & Hat0).
  { destruct (length weights); simpl; [lia | discriminate]. }
  rewrite repeat_length in Hlen0, Hat0.
  assert (Hinv0 : grad_inv nts weights g 0 r0).
  { split; [exact Hlen0|]. split; [apply Hat0|]. split.
    - intros i Hi1 Hi2. replace i with (length weights - 1) by lia.
      rewrite Hat0. unfold g. rewrite length_map, length_combine, Hp, He, Nat.min_id.
      rewrite last_as_nth, Hnts. reflexivity.
    - intros i Hi1 Hi2. lia. }
  destruct (gradients_loop_inv nf nts weights Hs g (length weights - 1) 0 r0
              ltac:(lia) Hinv0)
    as (gs & Hloop & (Hlen & _ & Hw & _)).
  exists gs. split.
  - unfold gradients, dcost. rewrite Hlast; cbn [bind].
    rewrite vec_sub_ok by congruence. cbn [bind]. fold g.
    rewrite Hset. cbn [bind]. exact Hloop.
  - assert (Hall : forall i, i < length weights ->
                     length (nth i gs []) = nth i nts 0)
      by (intros i Hi; apply Hw; lia).
    rewrite <- Hlen in Hall. rewrite <- Hlen in Hnts. clear -Hall Hnts.
    revert nts Hall Hnts. induction gs as [|g0 gs IH]; intros nts Hall Hnts.
    + destruct nts; [constructor | discriminate].
    + destruct nts as [|nt nts]; [discriminate|]. constructor.
      * apply (Hall 0). cbn. lia.
      * apply IH; [|cbn in Hnts; lia].
        intros i Hi. apply (Hall (S i)). cbn. lia.
Qed.

Section TrainingStep.

Variable np_exp : float -> float.
Variable np_log : float -> float.
Variable nf : nat.
Variable nts : list nat.

Variable ws : list matrix.
Hypothesis Hshaped : shaped nf nts ws.
Hypothesis Hne : ws <> [].
Hypothesis Harray : as_array ws = Ok ws.

Lemma accumulate_shaped (accum : list matrix) (s : sample) :
  shaped nf nts accum -> fits nf nts s ->
  exists accum', accumulate np_exp ws accum s = Ok accum' /\
                 shaped nf nts accum'.
Proof.
  intros Ha [Hinp Hexp]. unfold accumulate.
  destruct (execute_forward np_exp nts nf (fst s) ws Hshaped Hinp)
    as (outs & Hex & Hfw).
  rewrite Hex. cbn [bind].
  destruct (forward_lengths np_exp nts (fst s) ws outs Hfw) as [_ Houts].
  destruct (forward_last np_exp nts (fst s) ws outs Hfw Hne)
    as (predict & Hlast & Hp).
  destruct (gradients_widths nf nts ws (snd s) outs predict Hshaped Hne Hlast
              Hp Hexp) as (gs & Hgs & Hwid).
  rewrite Hgs. cbn [bind].
  pose proof (delta_shaped nts nf (fst s) gs outs Hinp Hwid Houts) as Hd.
  assert (Hsame : same_shapes accum (delta (fst s) gs outs))
    by (apply (shaped_shapes nts nf); assumption).
  assert (Harr : as_array accum = Ok accum).
  { apply (as_array_same_shapes ws accum); [|exact Harray].
    apply (shaped_shapes nts nf); assumption. }
  destruct (layers_map2_total PrimFloat.add accum _ Harr Hsame) as (c & Hc).
  exists c. split; [exact Hc|].
  apply layers_map2_spec in Hc. destruct Hc as (_ & Hc & _).
  apply (shaped_same_shapes nts nf accum c Ha Hc).
Qed.

Lemma batch_delta_shaped (chunk : list sample) :
  Forall (fits nf nts) chunk ->
  exists accum, batch_delta np_exp ws chunk = Ok accum /\ shaped nf nts accum.
Proof.
  unfold batch_delta. intros Hfit.
  assert (H0 : shaped nf nts (zeros_like ws))
    by (apply (shaped_same_shapes nts nf ws _ Hshaped), zeros_like_shapes).
  revert H0. generalize (zeros_like ws).
  induction Hfit as [|s chunk Hs _ IH]; intros accum Ha; cbn [for_each].
  - exists accum. split; [reflexivity | exact Ha].
  - destruct (accumulate_shaped accum s Ha Hs) as (accum' & H1 & H2).
    rewrite H1. cbn [bind]. apply IH, H2.
Qed.

Lemma update_step_shaped (momentum ratio : float) (os : list matrix)
  (chunk : list sample) :
  shaped nf nts os -> Forall (fits nf nts) chunk ->
  exists new,
    update_step np_exp momentum ratio (ws, os) chunk = Ok (new, ws) /\
    shaped nf nts new /\ as_array new = Ok new.
Proof.
  intros Ho Hfit. unfold update_step. cbn [fst snd].
  destruct (batch_delta_shaped chunk Hfit) as (accum & Ha & Has).
  rewrite Ha. cbn [bind].
  destruct (new_weights_total momentum ratio ws os accum (length chunk) Harray)
    as (new & Hnew);
    [apply (shaped_shapes nts nf); assumption
    |apply (shaped_shapes nts nf); assumption|].
  rewrite Hnew. cbn [bind]. exists new. split; [reflexivity|].
  apply new_weights_spec in Hnew. destruct Hnew as (Hsame & _).
  split.
  - apply (shaped_same_shapes nts nf ws new Hshaped Hsame).
  - apply (as_array_same_shapes ws new Hsame Harray).
Qed.

End TrainingStep.

Section TrainingRun.

Variable np_exp : float -> float.
Variable np_log : float -> float.
Variable nf : nat.
Variable nts : list nat.
Hypothesis Hwidth : 0 < last nts 0.

Lemma updates_shaped (momentum ratio : float) :
  forall (chunks : list (list sample)) (ws os : list matrix),
    shaped nf nts ws -> ws <> [] -> as_array ws = Ok ws -> shaped nf nts os ->
    Forall (Forall (fits nf nts)) chunks ->
    exists ws' os',
      for_each (update_step np_exp momentum ratio) chunks (ws, os)
      = Ok (ws', os') /\
      shaped nf nts ws' /\ as_array ws' = Ok ws' /\ shaped nf nts os'.
Proof.
  induction chunks as [|chunk chunks IH]; intros ws os Hs Hne Ha Ho Hfit;
    cbn [for_each].
  - exists ws, os. split; [reflexivity|]. split; [exact Hs|].
    split; [exact Ha | exact Ho].
  - inversion Hfit as [|? ? Hc Hrest]; subst.
    destruct (update_step_shaped np_exp nf nts ws Hs Hne Ha momentum ratio os
                chunk Ho Hc) as (new & Hnew & Hsn & Han).
    rewrite Hnew. cbn [bind].
    apply IH; [exact Hsn | | exact Han | exact Hs | exact Hrest].
    intros ->. destruct nts; [|discriminate Hsn].
    destruct ws; [congruence | discriminate Hs].
Qed.

Lemma sweep_shaped (args : Args) (ratio : float) (batch : batch_limit)
  (ws os : list matrix) (data : list sample) :
  shaped nf nts ws -> ws <> [] -> as_array ws = Ok ws -> shaped nf nts os ->
  Forall (fits nf nts) data ->
  exists st,
    sweep np_exp args ratio batch ws os data = Ok st /\
    shaped nf nts (sw_weights st) /\ as_array (sw_weights st) = Ok (sw_weights st) /\
    shaped nf nts (sw_old st).
Proof.
  intros Hs Hne Ha Ho Hfit. rewrite sweep_batches.
  assert (Hchunks : Forall (Forall (fits nf nts)) (batches batch [] data)).
  { destruct data as [|s data]; [constructor|].
    apply Forall_concat. rewrite (batches_concat batch (s :: data) []) by discriminate.
    exact Hfit. }
  destruct (updates_shaped (momentum args) ratio _ ws os Hs Hne Ha Ho Hchunks)
    as (ws' & os' & H & H1 & H2 & H3).
  rewrite H. cbn [bind]. eexists. split; [reflexivity|]. cbn.
  split; [exact H1|]. split; [exact H2 | exact H3].
Qed.

Lemma cost_body_total (ws : list matrix) (accum : float) (s : sample) :
  shaped nf nts ws -> ws <> [] -> fits nf nts s ->
  exists accum', cost_body np_exp np_log ws accum s = Ok accum'.
Proof.
  intros Hs Hne [Hinp Hexp]. destruct s as [inp expect]. cbn [fst snd] in *.
  unfold cost_body.
  destruct (execute_forward np_exp nts nf inp ws Hs Hinp) as (outs & Hex & Hfw).
  rewrite Hex. cbn [bind].
  destruct (forward_last np_exp nts inp ws outs Hfw Hne) as (predict & Hlast & Hp).
  rewrite Hlast. cbn [bind].
  assert (E : (length expect
               =? length (if (0 <? fsum predict)%float
                          then map (fun p => (p / fsum predict)%float) predict
                          else predict))%nat = true).
  { apply Nat.eqb_eq. destruct (0 <? fsum predict)%float;
      [rewrite length_map|]; congruence. }
  rewrite E. eexists. reflexivity.
Qed.

Lemma cost_total (ws : list matrix) (data : list sample) :
  shaped nf nts ws -> ws <> [] -> data <> [] -> Forall (fits nf nts) data ->
  exists c, cost np_exp np_log data ws = Ok c.
Proof.
  intros Hs Hne Hdata Hfit. unfold cost.
  assert (H : forall a, exists a',
               for_each (cost_body np_exp np_log ws) data a = Ok a').
  { clear Hdata. induction Hfit as [|s data Hf _ IH]; intros a; cbn [for_each].
    - exists a. reflexivity.
    - destruct (cost_body_total ws a s Hs Hne Hf) as (a' & Ha').
      rewrite Ha'. cbn [bind]. apply IH. }
  destruct (H 0%float) as (a' & Ha'). rewrite Ha'. cbn [bind].
  destruct data; [congruence|]. cbn [length]. eexists. reflexivity.
Qed.

Lemma fits_error (data : list sample) :
  Forall (fits nf nts) data ->
  Forall (fun s => length (fst s) = nf /\ snd s <> []) data.
Proof.
  apply Forall_impl. intros [inp expect] [H1 H2]. cbn [fst snd] in *.
  split; [exact H1|]. destruct expect; [cbn in H2; lia | discriminate].
Qed.

Variable shuffle : nat -> list sample -> list sample.
Variable args : Args.
Variable validate : list sample.
Hypothesis Hshuffle : forall g d, Permutation d (shuffle g d).
Hypothesis Hvalidate :
  validate_given args = true -> validate <> [] /\ Forall (fits nf nts) validate.

Lemma generation_total (ratio : float) (batch : batch_limit) (t : trainer) :
  trainable nf nts t ->
  exists r,
    generation np_exp np_log shuffle args validate ratio batch t = Ok r /\
    match r with
    | inl t' => trainable nf nts t'
    | inr t' => trainable nf nts t'
    end.
Proof.
  intros (Hs & Hne & Ha & Ho & Hdata & Hfit). unfold generation.
  destruct (error_total np_exp nf nts (weights t) (train t) Hs Hne Hwidth
              Hdata (fits_error _ Hfit)) as (c & _ & He).
  rewrite He. cbn [bind].
  assert (Hv : exists ve,
             (if validate_given args then error np_exp validate (weights t)
              else Ok (float_of_nat c / float_of_nat (length (train t)))%float)
             = Ok ve).
  { destruct (validate_given args); [|eexists; reflexivity].
    destruct (Hvalidate eq_refl) as [Hv1 Hv2].
    destruct (error_total np_exp nf nts (weights t) validate Hs Hne Hwidth
                Hv1 (fits_error _ Hv2)) as (cv & _ & Hev).
    rewrite Hev. eexists. reflexivity. }
  destruct Hv as (ve & Hv). rewrite Hv. cbn [bind].
  destruct (ve <=? stop args)%float.
  { eexists. split; [reflexivity|]. unfold trainable. cbn [weights old train].
    split; [exact Hs|]. split; [exact Hne|]. split; [exact Ha|].
    split; [exact Ho|]. split; [exact Hdata | exact Hfit]. }
  destruct (cost_total (weights t) (train t) Hs Hne Hdata Hfit) as (tc & Htc).
  rewrite Htc. cbn [bind].
  assert (Hvc : exists vc,
             (if validate_given args
              then cost np_exp np_log validate (weights t) else Ok tc) = Ok vc).
  { destruct (validate_given args); [|eexists; reflexivity].
    destruct (Hvalidate eq_refl) as [Hv1 Hv2].
    apply (cost_total (weights t) validate Hs Hne Hv1 Hv2). }
  destruct Hvc as (vc & Hvc). rewrite Hvc. cbn [bind].
  pose proof (Hshuffle (S (gen t)) (train t)) as Hp.
  assert (Hfit' : Forall (fits nf nts) (shuffle (S (gen t)) (train t)))
    by (apply (Permutation_Forall Hp Hfit)).
  destruct (sweep_shaped args ratio batch (weights t) (old t) _ Hs Hne Ha Ho Hfit')
    as (st & Hst & H1 & H2 & H3).
  rewrite Hst. cbn [bind]. eexists. split; [reflexivity|].
  unfold trainable. cbn [weights old train].
  split; [exact H1|]. split.
  { intros E. rewrite E in H1. destruct nts; [|discriminate H1].
    destruct (weights t); [congruence | discriminate Hs]. }
  split; [exact H2|]. split; [exact H3|]. split; [|exact Hfit'].
  intros E. rewrite E in Hp. apply Permutation_sym, Permutation_nil in Hp.
  congruence.
Qed.

Lemma run_total (ratio : float) (batch : batch_limit) :
  forall (budget : nat) (t : trainer),
    trainable nf nts t ->
    exists e t',
      run np_exp np_log shuffle args validate ratio batch budget t = Ok (e, t') /\
      trainable nf nts t'.
Proof.
  induction budget as [|budget IH]; intros t Ht; cbn [run].
  - exists ExhaustedGenerations, t. split; [reflexivity | exact Ht].
  - destruct (generation_total ratio batch t Ht) as (r & Hr & Hinv).
    rewrite Hr. cbn [bind]. destruct r as [t'|t'].
    + exists Converged, t'. split; [reflexivity | exact Hinv].
    + apply IH, Hinv.
Qed.

End TrainingRun.


Lemma length_delta : forall (gs outs : list vector) (inp : vector),
  length (delta inp gs outs) = Nat.min (length gs) (length outs).
Proof.
  induction gs as [|g gs IH]; intros [|o outs] inp; cbn [delta length Nat.min];
    [reflexivity | reflexivity | reflexivity |].
  f_equal. apply IH.
Qed.

(** X11: [delta] pairs the gradients with the outputs and stops with the shorter
    list.  For the forward pass and the gradients of a sample that fits a
    network, it gives one matrix per layer, of the shape of the layer's
    weights; its entry [(i, j)] in layer [l] is the product of entry [i] of
    the layer's input, 1.0 in front, with entry [j] of the layer's gradient:
    the input of layer 0 is the sample's, the input of a later layer the
    output of the layer before. *)
Theorem delta_outer_products (np_exp : float -> float) (nf : nat)
  (nts : list nat) (ws : list matrix) (inp expect : vector) :
  shaped nf nts ws -> ws <> [] ->
  length inp = nf -> length expect = last nts 0 ->
  (forall (x : vector) (gs outs : list vector),
     length (delta x gs outs) = Nat.min (length gs) (length outs)) /\
  exists outs gs,
    execute np_exp inp ws = Ok outs /\
    gradients expect outs ws = Ok gs /\
    length (delta inp gs outs) = length ws /\
    shaped nf nts (delta inp gs outs) /\
    same_shapes ws (delta inp gs outs) /\
    forall l i j,
      l < length ws -> i < length (nth l ws []) ->
      j < length (nth i (nth l ws []) []) ->
      entry (delta inp gs outs) l i j
      = (nth i (1%float :: nth l (inp :: outs) []) 0
         * nth j (nth l gs []) 0)%float.
Proof.
  intros Hs Hne Hinp Hexp. split; [intros x gs outs; apply length_delta|].
  destruct (execute_forward np_exp nts nf inp ws Hs Hinp) as (outs & Hex & Hfw).
  destruct (forward_lengths np_exp nts inp ws outs Hfw) as [Hlen Houts].
  destruct (forward_last np_exp nts inp ws outs Hfw Hne) as (predict & Hlast & Hp).
  destruct (gradients_widths nf nts ws expect outs predict Hs Hne Hlast Hp Hexp)
    as (gs & Hgs & Hwid).
  pose proof (delta_shaped nts nf inp gs outs Hinp Hwid Houts) as Hd.
  pose proof (shaped_shapes nts nf ws _ Hs Hd) as Hsame.
  pose proof (Forall2_length Hwid) as Hgl.
  pose proof (Forall2_length Houts) as Hol.
  exists outs, gs.
  split; [exact Hex|]. split; [exact Hgs|].
  unfold matrix, vector in *.
  split; [rewrite length_delta; unfold vector; rewrite Hgl, <- Hol, Nat.min_id;
          exact Hlen|].
  split; [exact Hd|]. split; [exact Hsame|].
  intros l i j Hl Hi Hj.
  assert (Hgl' : length gs = length outs) by (rewrite Hgl, Hol; reflexivity).
  assert (Hl' : l < length gs) by (rewrite Hgl', Hlen; exact Hl).
  destruct (same_shapes_entry ws _ l i j Hsame Hl Hi Hj) as (_ & Hi' & Hj').
  (* the shapes of layer [l] of the delta *)
  assert (Hrows : forall (gs0 outs0 : list vector) (x : vector) (k : nat),
             length gs0 = length outs0 -> k < length gs0 ->
             length (nth k (delta x gs0 outs0) [])
             = S (length (nth k (x :: outs0) [])) /\
             forall r, r < S (length (nth k (x :: outs0) [])) ->
               length (nth r (nth k (delta x gs0 outs0) []) [])
               = length (nth k gs0 [])).
  { clear. induction gs0 as [|g gs0 IH]; intros outs0 x k Hlen Hk;
      [cbn in Hk; lia|].
    destruct outs0 as [|o outs0]; [discriminate|]. cbn [delta].
    destruct k as [|k].
    - cbn [nth]. pose proof (np_outer_shape (1%float :: x) g (length x) eq_refl) as H.
      apply layer_shape_iff in H. destruct H as [H1 H2].
      split; [exact H1|]. intros r Hr. apply H2. lia.
    - cbn [nth length] in *. apply IH; lia. }
  destruct (Hrows gs outs inp l Hgl' Hl') as [Hr1 Hr2].
  rewrite Hr1 in Hi'. rewrite (Hr2 i Hi') in Hj'.
  apply delta_entry; assumption.
Qed.

Lemma delta_outer_products_witness :
  exists outs gs,
    execute exp_ref first_pixel_image balanced_net = Ok outs /\
    gradients (one_hot 10 0) outs balanced_net = Ok gs /\
    entry (delta first_pixel_image gs outs) 1 1 0
    = (nth 1 (1%float :: nth 1 (first_pixel_image :: outs) []) 0
       * nth 0 (nth 1 gs []) 0)%float.
Proof.
  destruct (delta_outer_products exp_ref 784 [1; 10] balanced_net
              first_pixel_image (one_hot 10 0))
    as (_ & outs & gs & H1 & H2 & _ & _ & _ & H3).
  - vm_compute. reflexivity.
  - discriminate.
  - reflexivity.
  - reflexivity.
  - exists outs, gs. split; [exact H1|]. split; [exact H2|].
    apply (H3 1 1 0); cbn; lia.
Defined.

Lemma mlp_as_array (hidden : nat) (ws : list matrix) :
  mlp_shaped hidden ws -> hidden <> 784 -> as_array ws = Ok ws.
Proof.
  intros Hs Hh. unfold mlp_shaped in Hs.
  destruct ws as [|w1 ws]; [discriminate Hs|].
  apply shaped_cons in Hs. destruct Hs as [H1 Hs].
  destruct ws as [|w2 ws]; [discriminate Hs|].
  apply shaped_cons in Hs. destruct Hs as [H2 Hs].
  destruct ws as [|w3 ws]; [|discriminate Hs].
  apply layer_shape_rows in H1, H2. destruct H1 as [H1 _], H2 as [H2 _].
  unfold as_array. cbn [map all_equal forallb]. rewrite H1, H2.
  destruct (Nat.eqb_spec 785 (S hidden)) as [E|_]; [lia | reflexivity].
Qed.

Lemma mnist_fits (hidden : nat) (data : list sample) :
  Forall mnist_sample data <-> Forall (fits 784 [hidden; 10]) data.
Proof. split; apply Forall_impl; intros s H; exact H. Qed.

Section Safety.

Variable np_exp : float -> float.
Variable np_log : float -> float.
Variable randn : nat -> nat -> nat -> matrix.
Variable shuffle : nat -> list sample -> list sample.
Variable args : Args.
Variable validate : list sample.

(** X1: [mlp] does not raise on datasets that fit: when the batch size and the
    number of generations convert to integers, the hidden width is at least 1
    and not 784, [randn] draws matrices of the requested shapes and the
    datasets are not empty and hold samples of 784 inputs and 10 targets,
    [mlp] returns, and the weights and the old weights it ends with have the
    shapes of the network it drew. *)
Theorem mlp_never_raises (ratio batch : float) (hidden : Z)
  (train0 : list sample) (batch' : batch_limit) (g : Z) :
  convert_batch batch = Ok batch' ->
  (generations args =? infinity)%float = false ->
  py_int_of_float (generations args) = Ok g ->
  (1 <= hidden)%Z -> hidden <> 784%Z ->
  mlp_shaped (Z.to_nat hidden) (initial_weights randn hidden) ->
  (forall k d, Permutation d (shuffle k d)) ->
  train0 <> [] -> Forall mnist_sample train0 ->
  (validate_given args = true ->
   validate <> [] /\ Forall mnist_sample validate) ->
  exists e t,
    mlp np_exp np_log randn shuffle args validate ratio batch hidden train0
    = Ok (e, t) /\
    mlp_shaped (Z.to_nat hidden) (weights t) /\
    mlp_shaped (Z.to_nat hidden) (old t) /\
    Forall mnist_sample (train t).
Proof.
  intros Hb Hinf Hg Hh H784 Hs Hperm Htrain Hfit Hval.
  rewrite (mlp_run np_exp np_log randn shuffle args validate ratio batch hidden
             train0 batch' g Hb Hinf Hg ltac:(lia)).
  destruct (run_total np_exp np_log 784 [Z.to_nat hidden; 10] ltac:(cbn; lia)
              shuffle args validate Hperm) with
    (ratio := ratio) (batch := batch') (budget := Z.to_nat g)
    (t := initial_trainer (initial_weights randn hidden) train0)
    as (e & t & Hrun & Ht).
  - intros Hv. destruct (Hval Hv) as [H1 H2]. split; [exact H1|].
    apply (mnist_fits (Z.to_nat hidden)), H2.
  - unfold trainable. cbn [initial_trainer weights old train].
    split; [exact Hs|]. split; [discriminate|].
    split; [apply (mlp_as_array (Z.to_nat hidden) _ Hs); lia|].
    split; [exact Hs|]. split; [exact Htrain|].
    apply (mnist_fits (Z.to_nat hidden)), Hfit.
  - exists e, t. split; [exact Hrun|].
    destruct Ht as (H1 & _ & _ & H2 & _ & H3).
    split; [exact H1|]. split; [exact H2|].
    apply (mnist_fits (Z.to_nat hidden)), H3.
Qed.

End Safety.

Lemma mlp_never_raises_witness :
  exists e t,
    mlp exp_ref log_ref balanced_randn no_shuffle one_generation [] 1%float
      infinity 1%Z two_samples = Ok (e, t) /\
    mlp_shaped 1 (weights t).
Proof.
  destruct (mlp_never_raises exp_ref log_ref balanced_randn no_shuffle
              one_generation [] 1%float infinity 1%Z two_samples BatchInf 1%Z)
    as (e & t & H1 & H2 & _).
  - reflexivity.
  - reflexivity.
  - reflexivity.
  - lia.
  - lia.
  - vm_compute. reflexivity.
  - intros k d. apply Permutation_refl.
  - discriminate.
  - repeat constructor.
  - discriminate.
  - exists e, t. split; [exact H1 | exact H2].
Defined.


Lemma as_array_dims (a b : list matrix) :
  same_shapes a b -> as_array a = Raise ValueError -> as_array b = Raise ValueError.
Proof.
  intros Hsame. apply same_shapes_dims in Hsame. destruct Hsame as [H1 H2].
  unfold as_array. rewrite H1, H2.
  destruct (all_equal (map (@length vector) b) && negb (all_equal (map ncols b)));
    [reflexivity | discriminate].
Qed.

Lemma mlp_as_array_784 (ws : list matrix) :
  mlp_shaped 784 ws -> as_array ws = Raise ValueError.
Proof.
  intros Hs. unfold mlp_shaped in Hs.
  destruct ws as [|w1 ws]; [discriminate Hs|].
  apply shaped_cons in Hs. destruct Hs as [H1 Hs].
  destruct ws as [|w2 ws]; [discriminate Hs|].
  apply shaped_cons in Hs. destruct Hs as [H2 Hs].
  destruct ws as [|w3 ws]; [|discriminate Hs].
  pose proof (ncols_shape _ _ _ H1) as C1. pose proof (ncols_shape _ _ _ H2) as C2.
  apply layer_shape_rows in H1, H2. destruct H1 as [H1 _], H2 as [H2 _].
  unfold as_array. cbn [map all_equal forallb]. rewrite H1, H2, C1, C2.
  reflexivity.
Qed.

Section SquareHiddenLayer.

Variable np_exp : float -> float.
Variable np_log : float -> float.
Variable randn : nat -> nat -> nat -> matrix.
Variable shuffle : nat -> list sample -> list sample.
Variable args : Args.
Variable validate : list sample.

Lemma sweep_array_error (nf : nat) (nts : list nat) (ratio : float)
  (batch : batch_limit) (ws os : list matrix) (data : list sample) :
  shaped nf nts ws -> ws <> [] -> as_array ws = Raise ValueError ->
  data <> [] -> Forall (fits nf nts) data ->
  sweep np_exp args ratio batch ws os data = Raise ValueError.
Proof.
  intros Hs Hne Ha Hdata Hfit. destruct data as [|s data]; [congruence|].
  apply Forall_inv in Hfit. destruct s as [inp expect].
  destruct Hfit as [Hinp Hexp]. cbn [fst snd] in Hinp, Hexp.
  unfold sweep. cbn [length seq combine for_each].
  unfold sweep_body at 1. cbn [sw_weights sw_accum].
  destruct (execute_forward np_exp nts nf inp ws Hs Hinp) as (outs & Hex & Hfw).
  rewrite Hex. cbn [bind].
  destruct (forward_last np_exp nts inp ws outs Hfw Hne) as (predict & Hlast & Hp).
  destruct (gradients_widths nf nts ws expect outs predict Hs Hne Hlast Hp Hexp)
    as (gs & Hgs & _).
  rewrite Hgs. cbn [bind]. unfold layers_map2.
  rewrite (as_array_dims ws (zeros_like ws) (zeros_like_shapes ws) Ha).
  reflexivity.
Qed.

(** X6: a hidden layer of 784 units gives two weight matrices with the same
    number of rows, 785, and different numbers of columns: the list of the two
    is not an array, and the first addition to the accumulator raises
    [ValueError].  [mlp] raises it in generation 1, unless the convergence
    check stops the run before. *)
Theorem mlp_hidden_784 (ratio batch : float) (train0 : list sample)
  (batch' : batch_limit) (g : Z) (te ve : float) :
  convert_batch batch = Ok batch' ->
  (generations args =? infinity)%float = false ->
  py_int_of_float (generations args) = Ok g -> (1 <= g)%Z ->
  mlp_shaped 784 (initial_weights randn 784) ->
  (forall k d, Permutation d (shuffle k d)) ->
  train0 <> [] -> Forall mnist_sample train0 ->
  (validate_given args = true ->
   validate <> [] /\ Forall mnist_sample validate) ->
  error np_exp train0 (initial_weights randn 784) = Ok te ->
  (if validate_given args
   then error np_exp validate (initial_weights randn 784) else Ok te) = Ok ve ->
  (ve <=? stop args)%float = false ->
  mlp np_exp np_log randn shuffle args validate ratio batch 784 train0
  = Raise ValueError.
Proof.
  intros Hb Hinf Hg Hg1 Hs Hperm Htrain Hfit Hval He Hv Hstop.
  rewrite (mlp_run np_exp np_log randn shuffle args validate ratio batch 784
             train0 batch' g Hb Hinf Hg ltac:(lia)).
  destruct (Z.to_nat g) as [|budget] eqn:E; [lia|].
  cbn [run]. unfold generation. cbn [initial_trainer weights old train gen].
  rewrite He. cbn [bind]. rewrite Hv. cbn [bind]. rewrite Hstop.
  assert (Hne : initial_weights randn 784 <> []) by discriminate.
  apply (mnist_fits 784) in Hfit.
  destruct (cost_total np_exp np_log 784 [784; 10] _ train0 Hs Hne Htrain Hfit)
    as (tc & Htc).
  rewrite Htc. cbn [bind].
  assert (Hvc : exists vc,
             (if validate_given args
              then cost np_exp np_log validate (initial_weights randn 784)
              else Ok tc) = Ok vc).
  { destruct (validate_given args); [|eexists; reflexivity].
    destruct (Hval eq_refl) as [Hv1 Hv2]. apply (mnist_fits 784) in Hv2.
    apply (cost_total np_exp np_log 784 [784; 10] _ validate Hs Hne Hv1 Hv2). }
  destruct Hvc as (vc & Hvc). rewrite Hvc. cbn [bind].
  pose proof (Hperm 1 train0) as Hp.
  rewrite (sweep_array_error 784 [784; 10] ratio batch' _ _ (shuffle 1 train0)
             Hs Hne (mlp_as_array_784 _ Hs)).
  - reflexivity.
  - intros E1. rewrite E1 in Hp. apply Permutation_sym, Permutation_nil in Hp.
    congruence.
  - apply (Permutation_Forall Hp Hfit).
Qed.

End SquareHiddenLayer.


Lemma mlp_hidden_784_witness :
  mlp exp_ref log_ref zero_randn no_shuffle one_generation [] 1%float
    infinity 784%Z [(blank_image, one_hot 10 1)]
  = Raise ValueError.
Proof.
  apply (mlp_hidden_784 exp_ref log_ref zero_randn no_shuffle one_generation []
           1%float infinity [(blank_image, one_hot 10 1)] BatchInf 1%Z
           1%float 1%float).
  - reflexivity.
  - reflexivity.
  - reflexivity.
  - lia.
  - vm_compute. reflexivity.
  - intros k d. apply Permutation_refl.
  - discriminate.
  - repeat constructor.
  - discriminate.
  - vm_compute. reflexivity.
  - reflexivity.
  - reflexivity.
Defined.

(** ** The cost and the width of the targets *)

Lemma cost_body_width (np_exp np_log : float -> float) (nf : nat)
  (nts : list nat) (ws : list matrix) (accum : float) (s : sample) :
  shaped nf nts ws -> ws <> [] -> length (fst s) = nf ->
  length (snd s) <> last nts 0 ->
  cost_body np_exp np_log ws accum s = Raise IndexError.
Proof.
  intros Hs Hne Hinp Hexp. destruct s as [inp expect]. cbn [fst snd] in *.
  unfold cost_body.
  destruct (execute_forward np_exp nts nf inp ws Hs Hinp) as (outs & Hex & Hfw).
  rewrite Hex. cbn [bind].
  destruct (forward_last np_exp nts inp ws outs Hfw Hne) as (predict & Hlast & Hp).
  rewrite Hlast. cbn [bind].
  assert (E : (length expect
               =? length (if (0 <? fsum predict)%float
                          then map (fun p => (p / fsum predict)%float) predict
                          else predict))%nat = false).
  { apply Nat.eqb_neq. destruct (0 <? fsum predict)%float;
      [rewrite length_map|]; congruence. }
  rewrite E. reflexivity.
Qed.

(** X10: [cost] indexes the prediction by masks of the length of the target: on
    samples whose inputs fit the network it returns when every target has the
    width of the output layer, and raises [IndexError] when one has not.
    [error] takes the argmax of the target and accepts every target that is
    not empty. *)
Theorem cost_target_width (np_exp np_log : float -> float) (nf : nat)
  (nts : list nat) (ws : list matrix) (data : list sample) :
  shaped nf nts ws -> ws <> [] -> 0 < last nts 0 -> data <> [] ->
  Forall (fun s => length (fst s) = nf) data ->
  (Forall (fun s => length (snd s) = last nts 0) data ->
   exists c, cost np_exp np_log data ws = Ok c) /\
  (Exists (fun s => length (snd s) <> last nts 0) data ->
   cost np_exp np_log data ws = Raise IndexError) /\
  (Forall (fun s => snd s <> []) data ->
   exists e, error np_exp data ws = Ok e).
Proof.
  intros Hs Hne Hw Hdata Hinp. split; [|split].
  - intros Hexp. apply (cost_total np_exp np_log nf nts ws data Hs Hne Hdata).
    apply Forall_forall. intros s Hin. rewrite Forall_forall in Hinp, Hexp.
    split; [apply Hinp, Hin | apply Hexp, Hin].
  - intros Hex. unfold cost.
    assert (H : forall a,
               for_each (cost_body np_exp np_log ws) data a = Raise IndexError).
    { clear Hdata. revert Hinp.
      induction Hex as [s data Hbad | s data _ IH]; intros Hinp a;
        cbn [for_each]; apply Forall_cons_iff in Hinp; destruct Hinp as [Hi Hrest].
      - rewrite (cost_body_width np_exp np_log nf nts ws a s Hs Hne Hi Hbad).
        reflexivity.
      - destruct (Nat.eq_dec (length (snd s)) (last nts 0)) as [E|E].
        + destruct (cost_body_total np_exp np_log nf nts ws a s Hs Hne
                      (conj Hi E)) as (a' & Ha').
          rewrite Ha'. cbn [bind]. apply (IH Hrest).
        + rewrite (cost_body_width np_exp np_log nf nts ws a s Hs Hne Hi E).
          reflexivity. }
    rewrite H. reflexivity.
  - intros Hexp.
    destruct (error_total np_exp nf nts ws data Hs Hne Hw Hdata) as (c & _ & He).
    + apply Forall_forall. intros s Hin. rewrite Forall_forall in Hinp, Hexp.
      split; [apply Hinp, Hin | apply Hexp, Hin].
    + eexists. exact He.
Qed.

Lemma cost_target_width_witness :
  cost exp_ref log_ref [(first_pixel_image, [1%float; 0%float])] balanced_net
  = Raise IndexError /\
  exists e,
    error exp_ref [(first_pixel_image, [1%float; 0%float])] balanced_net = Ok e.
Proof.
  destruct (cost_target_width exp_ref log_ref 784 [1; 10] balanced_net
              [(first_pixel_image, [1%float; 0%float])])
    as (_ & H1 & H2).
  - vm_compute. reflexivity.
  - discriminate.
  - cbn. lia.
  - discriminate.
  - repeat constructor.
  - split.
    + apply H1. apply Exists_cons_hd. cbn. lia.
    + apply H2. repeat constructor. discriminate.
Defined.


(** ** The loader: line ends and negative labels *)

Lemma list_ascii_app (a b : string) :
  list_ascii_of_string (a ++ b)
  = list_ascii_of_string a ++ list_ascii_of_string b.
Proof. induction a as [|c a IH]; cbn; [reflexivity | f_equal; exact IH]. Qed.

Lemma lstrip_snoc (c : ascii) (f : list ascii) :
  is_space c = true ->
  lstrip (f ++ [c]) = match lstrip f with
                      | [] => []
                      | _ :: _ => lstrip f ++ [c]
                      end.
Proof.
  intros Hc. induction f as [|a f IH]; cbn [app lstrip].
  - rewrite Hc. reflexivity.
  - destruct (is_space a); [exact IH | reflexivity].
Qed.

Lemma strip_snoc (c : ascii) (f : list ascii) :
  is_space c = true -> strip (f ++ [c]) = strip f.
Proof.
  intros Hc. unfold strip. rewrite (lstrip_snoc c f Hc).
  destruct (lstrip f) as [|a l]; [reflexivity|].
  rewrite rev_app_distr. cbn [rev app lstrip]. rewrite Hc. reflexivity.
Qed.

Lemma py_int_snoc (c : ascii) (f : list ascii) :
  is_space c = true -> py_int (f ++ [c]) = py_int f.
Proof. intros Hc. unfold py_int. rewrite (strip_snoc c f Hc). reflexivity. Qed.

Lemma split_on_nonempty (sep : ascii) (s : list ascii) : split_on sep s <> [].
Proof.
  destruct s as [|c s]; cbn [split_on]; [discriminate|].
  destruct (Ascii.eqb c sep); [discriminate|].
  destruct (split_on sep s); discriminate.
Qed.

Lemma split_on_snoc (sep c : ascii) : c <> sep -> forall l,
  split_on sep (l ++ [c]) = on_last (fun f => f ++ [c]) (split_on sep l).
Proof.
  intros Hc. induction l as [|a l IH]; cbn [app split_on].
  - destruct (Ascii.eqb_spec c sep) as [E|_]; [congruence | reflexivity].
  - rewrite IH. pose proof (split_on_nonempty sep l) as Hne.
    destruct (Ascii.eqb a sep).
    + cbn [on_last]. destruct (split_on sep l); [congruence | reflexivity].
    + destruct (split_on sep l) as [|f fs]; [congruence|].
      destruct fs as [|f' fs]; reflexivity.
Qed.

Lemma map_res_last (c : ascii) : is_space c = true -> forall rest,
  map_res (fun f => z <- py_int f ;; float_of_Z z)
    (on_last (fun f => f ++ [c]) rest)
  = map_res (fun f => z <- py_int f ;; float_of_Z z) rest.
Proof.
  intros Hc. induction rest as [|f rest IH]; [reflexivity|].
  destruct rest as [|f' rest].
  - cbn [on_last map_res]. rewrite (py_int_snoc c f Hc). reflexivity.
  - change (on_last (fun f0 => f0 ++ [c]) (f :: f' :: rest))
      with (f :: on_last (fun f0 => f0 ++ [c]) (f' :: rest)).
    cbn [map_res]. rewrite IH. reflexivity.
Qed.

Lemma read_fields_last (c : ascii) (fields : list (list ascii)) :
  is_space c = true ->
  read_fields (on_last (fun f => f ++ [c]) fields) = read_fields fields.
Proof.
  intros Hc. destruct fields as [|first rest]; [reflexivity|].
  destruct rest as [|f rest].
  - cbn [on_last read_fields]. rewrite (py_int_snoc c first Hc). reflexivity.
  - change (on_last (fun f0 => f0 ++ [c]) (first :: f :: rest))
      with (first :: on_last (fun f0 => f0 ++ [c]) (f :: rest)).
    cbn [read_fields]. rewrite (map_res_last c Hc). reflexivity.
Qed.

Lemma is_space_not_comma (c : ascii) : is_space c = true -> c <> ","%char.
Proof. intros H ->. discriminate H. Qed.

Lemma read_line_snoc (c : ascii) (line : string) :
  is_space c = true ->
  read_line (line ++ String c EmptyString) = read_line line.
Proof.
  intros Hc. change (read_line line)
    with (read_fields (split_on ","%char (list_ascii_of_string line))).
  change (read_line (line ++ String c EmptyString))
    with (read_fields (split_on ","%char
                         (list_ascii_of_string (line ++ String c EmptyString)))).
  rewrite list_ascii_app. cbn [list_ascii_of_string].
  rewrite (split_on_snoc ","%char c (is_space_not_comma c Hc)).
  apply read_fields_last, Hc.
Qed.

Lemma append_snoc (line : string) (c : ascii) (s : string) :
  ((line ++ String c EmptyString) ++ s)%string = (line ++ String c s)%string.
Proof. induction line as [|a line IH]; cbn; [reflexivity | f_equal; exact IH]. Qed.

Lemma append_empty (line : string) : (line ++ EmptyString)%string = line.
Proof. induction line as [|a line IH]; cbn; [reflexivity | f_equal; exact IH]. Qed.

(** X13: the white space that [int] skips (the characters 9 to 13 and 32,
    U+0085 and U+00A0) does not change what a line loads as when it stands at
    the end of the line: [int] skips it at the end of the last field.  So the
    line feed that ends each line of the file, and a carriage return before
    it, are ignored; the sample or the exception is that of the line without
    them. *)
Theorem read_line_trailing_space (line ws : string) :
  forallb is_space (list_ascii_of_string ws) = true ->
  read_line (line ++ ws) = read_line line /\
  read_line (line ++ newline) = read_line line /\
  read_line (line ++ crlf) = read_line line.
Proof.
  assert (H : forall s l, forallb is_space (list_ascii_of_string s) = true ->
                          read_line (l ++ s) = read_line l).
  { induction s as [|c s IH]; intros l Hs.
    - rewrite append_empty. reflexivity.
    - cbn [list_ascii_of_string forallb] in Hs. apply andb_true_iff in Hs.
      destruct Hs as [Hc Hs]. rewrite <- append_snoc. rewrite (IH _ Hs).
      apply read_line_snoc, Hc. }
  intros Hws. split; [apply H, Hws|]. split; apply H; reflexivity.
Qed.

Lemma read_line_trailing_space_witness :
  read_line ("3,0,255" ++ crlf) = read_line "3,0,255".
Proof.
  apply (read_line_trailing_space "3,0,255" crlf). reflexivity.
Defined.

Lemma negative_label_column (label : Z) :
  (-10 <= label <= -1)%Z ->
  matrix_column (eye 10) label = Ok (one_hot 10 (Z.to_nat (label + 10))) /\
  np_argmax (one_hot 10 (Z.to_nat (label + 10))) = Ok (Z.to_nat (label + 10)).
Proof.
  intros H.
  assert (E : label = (-10)%Z \/ label = (-9)%Z \/ label = (-8)%Z \/
              label = (-7)%Z \/ label = (-6)%Z \/ label = (-5)%Z \/
              label = (-4)%Z \/ label = (-3)%Z \/ label = (-2)%Z \/
              label = (-1)%Z) by lia.
  repeat (destruct E as [->|E]; [split; vm_compute; reflexivity|]).
  subst. split; vm_compute; reflexivity.
Qed.

(** X14: a negative label is not rejected when it is at least -10: it indexes the
    identity matrix from the end, so that a record with the label [d] in
    -10..-1 loads with the one-hot target of the class [d + 10], which is the
    class [np.argmax] reads from the target. *)
Theorem read_line_negative_label (line : string) (label : Z)
  (pixels : list Z) (fs : list float) :
  map py_int (split_on ","%char (list_ascii_of_string line))
  = map Ok (label :: pixels) ->
  map float_of_Z pixels = map Ok fs ->
  (-10 <= label <= -1)%Z ->
  read_line line
  = Ok (map (fun p => (p / 255)%float) fs, one_hot 10 (Z.to_nat (label + 10))) /\
  np_argmax (one_hot 10 (Z.to_nat (label + 10))) = Ok (Z.to_nat (label + 10)).
Proof.
  intros Hline Hfs Hl. destruct (negative_label_column label Hl) as [Hc Ha].
  split; [|exact Ha]. unfold read_line.
  destruct (split_on ","%char (list_ascii_of_string line)) as [|first rest];
    [discriminate Hline|].
  cbn [map] in Hline. injection Hline as Hfirst Hrest.
  rewrite Hfirst. cbn [bind].
  rewrite (map_res_floats rest pixels fs Hrest Hfs). cbn [bind].
  rewrite Hc. reflexivity.
Qed.

Lemma read_line_negative_label_witness :
  read_line "-1,0,255" = Ok ([0%float; 1%float], one_hot 10 9).
Proof.
  apply (read_line_negative_label "-1,0,255" (-1) [0%Z; 255%Z] [0%float; 255%float]).
  - vm_compute. reflexivity.
  - vm_compute. reflexivity.
  - lia.
Defined.


(** ** Degenerate batch sizes *)

Lemma batches_degenerate (z : Z) : forall (data cur : list sample),
  (z <= 0 \/ Z.of_nat (length cur + length data) <= z)%Z ->
  data <> [] ->
  batches (BatchInt z) cur data = [cur ++ data].
Proof.
  induction data as [|s data IH]; intros cur Hz Hne; [congruence|].
  cbn [batches]. destruct data as [|s' data].
  - cbn [length Nat.eqb]. rewrite orb_true_r. reflexivity.
  - assert (E : batch_reached (length (cur ++ [s])) (BatchInt z) = false).
    { cbn [batch_reached]. apply Z.eqb_neq. rewrite length_app. cbn [length] in *.
      lia. }
    rewrite E. cbn [length Nat.eqb orb].
    rewrite (IH (cur ++ [s])); [rewrite <- app_assoc; reflexivity | | discriminate].
    rewrite length_app. cbn [length] in *. lia.
Qed.

Section DegenerateBatch.

Variable np_exp : float -> float.
Variable np_log : float -> float.
Variable randn : nat -> nat -> nat -> matrix.
Variable shuffle : nat -> list sample -> list sample.
Variable args : Args.
Variable validate : list sample.

Lemma sweep_degenerate (ratio : float) (z : Z) (ws os : list matrix)
  (data : list sample) :
  (z <= 0 \/ Z.of_nat (length data) <= z)%Z ->
  sweep np_exp args ratio (BatchInt z) ws os data
  = sweep np_exp args ratio BatchInf ws os data.
Proof.
  intros Hz. rewrite !sweep_batches. destruct data as [|s data]; [reflexivity|].
  rewrite (batches_degenerate z (s :: data) [] Hz) by discriminate.
  rewrite (batches_inf (s :: data) []) by discriminate. reflexivity.
Qed.

Lemma generation_degenerate (ratio : float) (z : Z) (t : trainer) :
  (forall k d, length (shuffle k d) = length d) ->
  (z <= 0 \/ Z.of_nat (length (train t)) <= z)%Z ->
  generation np_exp np_log shuffle args validate ratio (BatchInt z) t
  = generation np_exp np_log shuffle args validate ratio BatchInf t.
Proof.
  intros Hlen Hz. unfold generation.
  rewrite sweep_degenerate; [reflexivity|]. rewrite Hlen. exact Hz.
Qed.

Lemma run_degenerate (ratio : float) (z : Z) :
  (forall k d, length (shuffle k d) = length d) ->
  forall (budget : nat) (t : trainer),
    (z <= 0 \/ Z.of_nat (length (train t)) <= z)%Z ->
    run np_exp np_log shuffle args validate ratio (BatchInt z) budget t
    = run np_exp np_log shuffle args validate ratio BatchInf budget t.
Proof.
  intros Hlen. induction budget as [|budget IH]; intros t Hz; [reflexivity|].
  cbn [run]. rewrite (generation_degenerate ratio z t Hlen Hz).
  destruct (generation np_exp np_log shuffle args validate ratio BatchInf t)
    as [[t'|t']|e] eqn:G; cbn [bind]; [reflexivity | | reflexivity].
  apply IH.
  assert (Ht : length (train t') = length (train t)).
  { unfold generation in G.
    destruct (error np_exp (train t) (weights t)) as [te|x]; cbn [bind] in G;
      [|discriminate].
    destruct (if validate_given args then error np_exp validate (weights t)
              else Ok te) as [ve|x]; cbn [bind] in G; [|discriminate].
    destruct (ve <=? stop args)%float; [discriminate|].
    destruct (cost np_exp np_log (train t) (weights t)) as [tc|x];
      cbn [bind] in G; [|discriminate].
    destruct (if validate_given args
              then cost np_exp np_log validate (weights t) else Ok tc)
      as [vc|x]; cbn [bind] in G; [|discriminate].
    destruct (sweep np_exp args ratio BatchInf (weights t) (old t)
                (shuffle (S (gen t)) (train t))); cbn [bind] in G; [|discriminate].
    injection G as <-. cbn [train]. apply Hlen. }
  rewrite Ht. exact Hz.
Qed.

(** X5: a batch size that [int] truncates to zero or to a negative integer is
    never reached by the sample count, and a batch size of at least the
    length of the training set is reached with the last sample only: in both
    cases a sweep makes one update, from all the samples, and [mlp] runs as
    with the batch size [inf]. *)
Theorem mlp_degenerate_batch (ratio batch : float) (hidden : Z)
  (train0 : list sample) (z : Z) :
  (forall k d, length (shuffle k d) = length d) ->
  (batch =? infinity)%float = false ->
  py_int_of_float batch = Ok z ->
  (z <= 0 \/ Z.of_nat (length train0) <= z)%Z ->
  (forall ws os, train0 <> [] ->
     sweep np_exp args ratio (BatchInt z) ws os train0
     = (wo <- update_step np_exp (momentum args) ratio (ws, os) train0 ;;
        Ok {| sw_weights := fst wo; sw_old := snd wo;
              sw_accum := zeros_like (fst wo); sw_batch_size := 0 |})) /\
  mlp np_exp np_log randn shuffle args validate ratio batch hidden train0
  = mlp np_exp np_log randn shuffle args validate ratio infinity hidden train0.
Proof.
  intros Hlen Hinf Hint Hz. split.
  - intros ws os Hne. rewrite sweep_batches.
    rewrite (batches_degenerate z train0 [] Hz Hne). cbn [app for_each].
    destruct (update_step np_exp (momentum args) ratio (ws, os) train0);
      reflexivity.
  - unfold mlp. rewrite Hinf. cbn [negb]. rewrite Hint. cbn [bind].
    assert (E : (infinity =? infinity)%float = true) by reflexivity.
    rewrite E. cbn [negb bind].
    destruct (negb (generations args =? infinity)%float); cbn [bind];
      [|reflexivity].
    destruct (py_int_of_float (generations args)) as [g|e]; cbn [bind];
      [|reflexivity].
    destruct (hidden <? 0)%Z; [reflexivity|].
    apply (run_degenerate ratio z Hlen). exact Hz.
Qed.

End DegenerateBatch.

Lemma mlp_degenerate_batch_witness :
  mlp exp_ref log_ref balanced_randn no_shuffle one_generation [] 1%float
    0.5%float 1%Z two_samples
  = mlp exp_ref log_ref balanced_randn no_shuffle one_generation [] 1%float
      infinity 1%Z two_samples.
Proof.
  apply (mlp_degenerate_batch exp_ref log_ref balanced_randn no_shuffle
           one_generation [] 1%float 0.5%float 1%Z two_samples 0%Z).
  - reflexivity.
  - reflexivity.
  - reflexivity.
  - left. lia.
Defined.

(** ** Training sets that cannot be trained on *)

Section BadTrainingSet.

Variable np_exp : float -> float.
Variable np_log : float -> float.
Variable randn : nat -> nat -> nat -> matrix.
Variable shuffle : nat -> list sample -> list sample.
Variable args : Args.
Variable validate : list sample.

(** X4: [mlp] measures the training error first.  On an empty training set, as
    loaded from an empty file, that raises [ZeroDivisionError]; on a training
    set with a sample that has not 784 inputs it raises [ValueError]: in both
    cases in generation 1, before any weight update. *)
Theorem mlp_rejects_training_set (ratio batch : float) (hidden : Z)
  (train0 : list sample) (batch' : batch_limit) (g : Z) :
  convert_batch batch = Ok batch' ->
  (generations args =? infinity)%float = false ->
  py_int_of_float (generations args) = Ok g ->
  (1 <= g)%Z -> (0 <= hidden)%Z ->
  read_csv [] = Ok [] /\
  (train0 = [] ->
   mlp np_exp np_log randn shuffle args validate ratio batch hidden train0
   = Raise ZeroDivisionError) /\
  (mlp_shaped (Z.to_nat hidden) (initial_weights randn hidden) ->
   Exists (fun s => length (fst s) <> 784) train0 ->
   mlp np_exp np_log randn shuffle args validate ratio batch hidden train0
   = Raise ValueError).
Proof.
  intros Hb Hinf Hg Hg1 Hh. split; [reflexivity|].
  assert (Hrun : forall e,
             error np_exp train0 (initial_weights randn hidden) = Raise e ->
             mlp np_exp np_log randn shuffle args validate ratio batch hidden
               train0 = Raise e).
  { intros e He.
    rewrite (mlp_run np_exp np_log randn shuffle args validate ratio batch
               hidden train0 batch' g Hb Hinf Hg Hh).
    destruct (Z.to_nat g) as [|budget] eqn:E; [lia|].
    cbn [run]. unfold generation. cbn [initial_trainer weights train].
    rewrite He. reflexivity. }
  split.
  - intros ->. apply Hrun. reflexivity.
  - intros Hs Hex. apply Hrun.
    apply (error_mismatch np_exp 784 [Z.to_nat hidden; 10] _ train0 Hs);
      [discriminate | exact Hex].
Qed.

End BadTrainingSet.

Lemma mlp_rejects_training_set_witness :
  mlp exp_ref log_ref balanced_randn no_shuffle one_generation [] 1%float
    infinity 1%Z []
  = Raise ZeroDivisionError.
Proof.
  destruct (mlp_rejects_training_set exp_ref log_ref balanced_randn no_shuffle
              one_generation [] 1%float infinity 1%Z [] BatchInf 1%Z)
    as (_ & H & _).
  - reflexivity.
  - reflexivity.
  - reflexivity.
  - lia.
  - lia.
  - apply H. reflexivity.
Defined.

(** ** The tasks of the scheduler *)

Lemma or_default_nonempty {A : Type} (given : list A) (default : A) :
  or_default given default <> [].
Proof. destruct given; discriminate. Qed.

Lemma product3_nonempty (rs bs : list float) (hs : list Z) :
  rs <> [] -> bs <> [] -> hs <> [] -> product3 rs bs hs <> [].
Proof.
  intros Hr Hb Hh H. apply (f_equal (@length experiment)) in H.
  rewrite length_product3 in H. cbn [length] in H.
  destruct rs; [congruence|]. destruct bs; [congruence|].
  destruct hs; [congruence|]. cbn [length] in H. lia.
Qed.

Lemma unique_filter_nonempty (es : list experiment) :
  es <> [] -> unique_filter [] es <> [].
Proof. destruct es as [|e es]; [congruence|]. intros _. discriminate. Qed.

Lemma tasks_nth (es : list experiment) (k : nat) (e : experiment)
  (pos size : nat) :
  nth_error (tasks es) k = Some (e, pos, size) ->
  nth_error es k = Some e /\ pos = k /\ size = length es.
Proof.
  unfold tasks. intros H. rewrite nth_error_map in H.
  destruct (nth_error (combine (seq 0 (length es)) es) k) as [[i x]|] eqn:E;
    [|discriminate].
  cbn in H. injection H as <- <- <-.
  assert (Hk : k < length (combine (seq 0 (length es)) es))
    by (apply nth_error_Some; congruence).
  rewrite length_combine, length_seq, Nat.min_id in Hk.
  apply (nth_error_nth _ _ (0, x)) in E. rewrite combine_nth in E
    by (rewrite length_seq; reflexivity).
  injection E as E1 E2. rewrite seq_nth in E1 by exact Hk.
  split; [|split; [cbn in E1; lia | reflexivity]].
  rewrite <- E2. apply nth_error_nth'. exact Hk.
Qed.

(** X18: the scheduler always dispatches at least one task: an option that is not
    given counts as its default.  The tasks are the experiments without their
    duplicates, in their order; task [k] carries the position [k] and the
    number of tasks; each experiment takes its learning rate, batch size and
    hidden width from the given ones, or the defaults. *)
Theorem schedule_tasks (ratio batch : list float) (hidden : list Z)
  (default_ratio default_batch : float) (default_hidden : Z) :
  schedule ratio batch hidden default_ratio default_batch default_hidden <> [] /\
  schedule [] [] [] default_ratio default_batch default_hidden
  = [((default_ratio, default_batch, default_hidden), 0, 1)] /\
  (forall k e pos size,
     nth_error (schedule ratio batch hidden default_ratio default_batch
                  default_hidden) k = Some (e, pos, size) ->
     pos = k /\
     size = length (schedule ratio batch hidden default_ratio default_batch
                      default_hidden) /\
     In (fst (fst e)) (or_default ratio default_ratio) /\
     In (snd (fst e)) (or_default batch default_batch) /\
     In (snd e) (or_default hidden default_hidden)).
Proof.
  unfold schedule.
  set (es := unique_filter []
               (experiments (or_default ratio default_ratio)
                  (or_default batch default_batch)
                  (or_default hidden default_hidden))).
  assert (Hlen : length (tasks es) = length es).
  { unfold tasks. rewrite length_map, length_combine, length_seq, Nat.min_id.
    reflexivity. }
  split; [|split].
  - intros H. apply (f_equal (@length _)) in H. rewrite Hlen in H.
    cbn [length] in H. apply length_zero_iff_nil in H. revert H.
    apply unique_filter_nonempty. rewrite experiments_product3.
    apply product3_nonempty; apply or_default_nonempty.
  - reflexivity.
  - intros k e pos size H. apply tasks_nth in H. destruct H as (H & -> & ->).
    split; [reflexivity|]. split; [symmetry; exact Hlen|].
    apply nth_error_In in H. apply unique_filter_in in H. destruct H as [H _].
    rewrite experiments_product3 in H. destruct e as [[r b] h].
    apply in_product3 in H. exact H.
Qed.


(** ** Image export *)

Lemma string_app_assoc (a b c : string) :
  ((a ++ b) ++ c)%string = (a ++ b ++ c)%string.
Proof. induction a as [|x a IH]; cbn; [reflexivity | f_equal; exact IH]. Qed.

(** The values of a row, each followed by a space. *)
Lemma pgm_row_ok : forall (zs : list Z) (pixels rest : list float) (text : string),
  Forall2 (fun p z => py_int_of_float (p * 255)%float = Ok z) pixels zs ->
  pgm_row (length zs) (pixels ++ rest) text
  = ((text ++ fold_right (fun v s => (str_of_Z v ++ " " ++ s)%string)
                EmptyString (map (fun z => (255 - z)%Z) zs))%string,
     inr rest).
Proof.
  induction zs as [|z zs IH]; intros pixels rest text H.
  - inversion H; subst. cbn. f_equal.
    clear. induction text as [|x t IH]; cbn; [reflexivity | f_equal; exact IH].
  - inversion H as [|p ? pixels' ? Hp Hrest]; subst.
    cbn [length app pgm_row]. rewrite Hp. rewrite (IH pixels' rest _ Hrest).
    f_equal. cbn [map fold_right]. rewrite !string_app_assoc. reflexivity.
Qed.

Lemma pgm_line_eq (vs : list Z) :
  pgm_line vs
  = (fold_right (fun v s => (str_of_Z v ++ " " ++ s)%string) EmptyString vs
     ++ newline)%string.
Proof.
  unfold pgm_line. induction vs as [|v vs IH]; [reflexivity|].
  cbn [fold_right]. rewrite IH, !string_app_assoc. reflexivity.
Qed.

Lemma Forall2_firstn_skipn {A B : Type} (R : A -> B -> Prop) (n : nat) :
  forall (la : list A) (lb : list B),
    Forall2 R la lb ->
    Forall2 R (firstn n la) (firstn n lb) /\ Forall2 R (skipn n la) (skipn n lb).
Proof.
  induction n as [|n IH]; intros la lb H.
  - split; [constructor | exact H].
  - destruct H as [|a b la lb Hab H]; [split; constructor|].
    destruct (IH la lb H) as [H1 H2]. cbn [firstn skipn].
    split; [constructor; assumption | exact H2].
Qed.

Lemma pgm_rows_ok : forall (m : nat) (zs : list Z) (pixels rest : list float)
  (text : string),
  length zs = 28 * m ->
  Forall2 (fun p z => py_int_of_float (p * 255)%float = Ok z) pixels zs ->
  pgm_rows m (pixels ++ rest) text
  = ((text ++ pgm_lines m (map (fun z => (255 - z)%Z) zs))%string, inr rest).
Proof.
  induction m as [|m IH]; intros zs pixels rest text Hlen H.
  - destruct zs; [|discriminate]. inversion H; subst. cbn. f_equal.
    clear. induction text as [|x t IH]; cbn; [reflexivity | f_equal; exact IH].
  - destruct (Forall2_firstn_skipn _ 28 pixels zs H) as [H1 H2].
    assert (Hf : length (firstn 28 zs) = 28) by (rewrite length_firstn; lia).
    assert (Hs : length (skipn 28 zs) = 28 * m) by (rewrite length_skipn; lia).
    cbn [pgm_rows]. rewrite <- Hf at 1.
    rewrite <- (firstn_skipn 28 pixels) at 1. rewrite <- app_assoc.
    rewrite (pgm_row_ok _ _ (skipn 28 pixels ++ rest) text H1).
    rewrite (IH _ _ rest _ Hs H2). f_equal.
    cbn [pgm_lines]. rewrite <- firstn_map, <- skipn_map.
    rewrite pgm_line_eq, !string_app_assoc. reflexivity.
Qed.

Lemma pixels_back : forallb pixel_backb (map Z.of_nat (seq 0 256)) = true.
Proof. vm_compute. reflexivity. Qed.

Lemma pixel_back (p : Z) :
  (0 <= p <= 255)%Z -> py_int_of_float (pixel_float p * 255)%float = Ok p.
Proof.
  intros Hp. pose proof pixels_back as H. rewrite forallb_forall in H.
  assert (Hin : In p (map Z.of_nat (seq 0 256))).
  { apply in_map_iff. exists (Z.to_nat p). split; [lia|]. apply in_seq. lia. }
  specialize (H p Hin). unfold pixel_backb in H.
  destruct (py_int_of_float (pixel_float p * 255)%float) as [z|e]; [|discriminate].
  apply Z.eqb_eq in H. congruence.
Qed.

Lemma argmax_one_hot (d : Z) :
  (0 <= d <= 9)%Z -> np_argmax (one_hot 10 (Z.to_nat d)) = Ok (Z.to_nat d).
Proof.
  intros Hd.
  assert (H : In d (map Z.of_nat (seq 0 10))).
  { apply in_map_iff. exists (Z.to_nat d). split; [lia|]. apply in_seq. lia. }
  simpl in H.
  repeat (destruct H as [<-|H]; [vm_compute; reflexivity|]).
  contradiction.
Qed.

(** X16: [to_pgm] undoes the normalization of the loader: the sample of a
    well-formed record, with the label [d] and the 784 intensities [p], is
    written as the plain PGM image of 28 rows of 28 grey values [255 - p]
    under the maximum 255, to a file whose name starts with ['d_']. *)
Theorem to_pgm_of_record (line : string) (rc : record) :
  line_of_record line rc -> well_formed rc ->
  exists s,
    read_line line = Ok s /\
    to_pgm (fst s) (snd s)
    = PgmWritten (str_of_Z (fst rc) ++ "_")
        (pgm_image (map (fun p => (255 - p)%Z) (snd rc))) /\
    Forall (fun v => (0 <= v <= 255)%Z) (map (fun p => (255 - p)%Z) (snd rc)).
Proof.
  intros Hline Hwf. exists (sample_of_record rc).
  split; [apply read_line_well_formed; assumption|].
  destruct Hwf as (Hd & Hlen & Hpix). split.
  - unfold to_pgm, sample_of_record. cbn [fst snd].
    rewrite (argmax_one_hot (fst rc) Hd). rewrite Z2Nat.id by lia.
    assert (H : Forall2 (fun p z => py_int_of_float (p * 255)%float = Ok z)
                  (map pixel_float (snd rc)) (snd rc)).
    { clear -Hpix. induction Hpix as [|p ps Hp _ IH]; cbn [map]; constructor;
        [apply pixel_back, Hp | exact IH]. }
    rewrite <- (app_nil_r (map pixel_float (snd rc))).
    rewrite (pgm_rows_ok 28 (snd rc) _ [] pgm_header Hlen H). reflexivity.
  - apply Forall_map. revert Hpix. apply Forall_impl. intros p Hp. lia.
Qed.

Lemma to_pgm_of_record_witness :
  exists s,
    read_line seven_line = Ok s /\
    to_pgm (fst s) (snd s)
    = PgmWritten "7_" (pgm_image (map (fun p => (255 - p)%Z) (snd seven_record))).
Proof.
  destruct (to_pgm_of_record seven_line seven_record) as (s & H1 & H2 & _).
  - vm_compute. reflexivity.
  - split; [vm_compute; split; discriminate|].
    split; [reflexivity|].
    apply Forall_forall. intros p Hp.
    assert (H : forallb (fun p => (0 <=? p)%Z && (p <=? 255)%Z)
                  (snd seven_record) = true) by (vm_compute; reflexivity).
    rewrite forallb_forall in H. specialize (H p Hp).
    apply andb_true_iff in H. rewrite Z.leb_le, Z.leb_le in H. exact H.
  - exists s. split; [exact H1 | exact H2].
Defined.

Lemma pgm_row_extra : forall (n : nat) (pixels extra : list float) (text : string),
  n <= length pixels ->
  pgm_row n (pixels ++ extra) text
  = match pgm_row n pixels text with
    | (t, inr rest) => (t, inr (rest ++ extra))
    | (t, inl e) => (t, inl e)
    end /\
  match pgm_row n pixels text with
  | (_, inr rest) => length rest = length pixels - n
  | (_, inl _) => True
  end.
Proof.
  induction n as [|n IH]; intros pixels extra text Hn.
  - cbn [pgm_row]. split; [reflexivity | lia].
  - destruct pixels as [|p pixels]; [cbn in Hn; lia|].
    cbn [app pgm_row]. destruct (py_int_of_float (p * 255)%float) as [z|e].
    + cbn [length] in *. apply IH. lia.
    + split; [reflexivity | exact I].
Qed.

Lemma pgm_rows_extra : forall (m : nat) (pixels extra : list float) (text : string),
  28 * m <= length pixels ->
  pgm_rows m (pixels ++ extra) text
  = match pgm_rows m pixels text with
    | (t, inr rest) => (t, inr (rest ++ extra))
    | (t, inl e) => (t, inl e)
    end.
Proof.
  induction m as [|m IH]; intros pixels extra text Hm; [reflexivity|].
  cbn [pgm_rows].
  destruct (pgm_row_extra 28 pixels extra text ltac:(lia)) as [H1 H2].
  rewrite H1. destruct (pgm_row 28 pixels text) as [t [e|rest]]; [reflexivity|].
  apply IH. lia.
Qed.

Lemma pgm_row_short : forall (n : nat) (pixels : list float) (text : string),
  Forall (fun p => exists z, py_int_of_float (p * 255)%float = Ok z) pixels ->
  exists t,
    pgm_row n pixels text
    = (t, if (n <=? length pixels)%nat then inr (skipn n pixels)
          else inl StopIteration).
Proof.
  induction n as [|n IH]; intros pixels text H.
  - exists text. reflexivity.
  - destruct H as [|p pixels [z Hz] H]; [exists text; reflexivity|].
    cbn [pgm_row length skipn]. rewrite Hz. apply IH, H.
Qed.

Lemma pgm_rows_short : forall (m : nat) (pixels : list float) (text : string),
  Forall (fun p => exists z, py_int_of_float (p * 255)%float = Ok z) pixels ->
  length pixels < 28 * m ->
  exists t, pgm_rows m pixels text = (t, inl StopIteration).
Proof.
  induction m as [|m IH]; intros pixels text H Hlen; [lia|].
  cbn [pgm_rows]. destruct (pgm_row_short 28 pixels text H) as (t & Ht).
  rewrite Ht. destruct (Nat.leb_spec 28 (length pixels)) as [Hle|Hlt].
  - apply IH.
    + rewrite <- (firstn_skipn 28 pixels) in H. apply Forall_app in H. tauto.
    + rewrite length_skipn. lia.
  - exists t. reflexivity.
Qed.

(** X17: [to_pgm] takes 784 values from the image, whatever its length: the values
    after the first 784 do not change the file, and an image of fewer values
    ends the loops by [StopIteration], the file holding what was written; a
    target of no entries raises [ValueError] before a file is opened. *)
Theorem to_pgm_pixel_count (img extra expect : vector) :
  (784 <= length img -> to_pgm (img ++ extra) expect = to_pgm img expect) /\
  (length img < 784 ->
   Forall (fun p => exists z, py_int_of_float (p * 255)%float = Ok z) img ->
   forall digit, np_argmax expect = Ok digit ->
     exists text,
       to_pgm img expect
       = PgmRaised (str_of_Z (Z.of_nat digit) ++ "_") text StopIteration) /\
  (expect = [] -> forall x, to_pgm x expect = PgmNoFile ValueError).
Proof.
  split; [|split].
  - intros Hlen. unfold to_pgm. destruct (np_argmax expect) as [digit|e];
      [|reflexivity].
    rewrite (pgm_rows_extra 28 img extra pgm_header ltac:(lia)).
    destruct (pgm_rows 28 img pgm_header) as [t [e|rest]]; reflexivity.
  - intros Hlen Hconv digit Hd. unfold to_pgm. rewrite Hd.
    destruct (pgm_rows_short 28 img pgm_header Hconv ltac:(lia)) as (t & Ht).
    rewrite Ht. exists t. reflexivity.
  - intros -> x. reflexivity.
Qed.


(** ** How the parts compose *)

Lemma last_cons_default {A : Type} (a d : A) (l : list A) :
  last (a :: l) d = last l a.
Proof.
  revert a d. induction l as [|b l IH]; intros a d; [reflexivity|].
  change (last (a :: b :: l) d) with (last (b :: l) d).
  rewrite (IH b d), (IH b a). reflexivity.
Qed.

(** X12: the forward pass through the layers [ws1 ++ ws2] is the forward pass
    through [ws1], followed by the forward pass through [ws2] on the last
    output of [ws1] (on the input itself when [ws1] is empty); an exception of
    either part is the exception of the whole. *)
Theorem execute_app (np_exp : float -> float) (ws1 ws2 : list matrix) :
  forall inp : vector,
    execute np_exp inp (ws1 ++ ws2)
    = (o1 <- execute np_exp inp ws1 ;;
       o2 <- execute np_exp (last o1 inp) ws2 ;;
       Ok (o1 ++ o2)).
Proof.
  induction ws1 as [|w ws1 IH]; intros inp.
  - cbn [app execute bind last]. destruct (execute np_exp inp ws2); reflexivity.
  - cbn [app execute].
    destruct (np_dot (1%float :: inp) w) as [z|e]; cbn [bind]; [|reflexivity].
    rewrite IH.
    destruct (execute np_exp (sigm np_exp z) ws1) as [o1|e]; cbn [bind];
      [|reflexivity].
    rewrite last_cons_default.
    destruct (execute np_exp (last o1 (sigm np_exp z)) ws2); reflexivity.
Qed.

Lemma read_csv_acc (lines : list string) : forall acc : list sample,
  for_each (fun data line => s <- read_line line ;; Ok (data ++ [s])) lines acc
  = (d <- for_each (fun data line => s <- read_line line ;; Ok (data ++ [s]))
            lines [] ;;
     Ok (acc ++ d)).
Proof.
  induction lines as [|l lines IH]; intros acc; cbn [for_each bind].
  - rewrite app_nil_r. reflexivity.
  - destruct (read_line l) as [s|e]; cbn [bind app]; [|reflexivity].
    rewrite (IH (acc ++ [s])), (IH [s]).
    destruct (for_each (fun data line => s0 <- read_line line ;; Ok (data ++ [s0]))
                lines []) as [d|e]; cbn [bind]; [|reflexivity].
    rewrite <- app_assoc. reflexivity.
Qed.

(** X15: loading the lines of two files one after the other gives the dataset of
    the first followed by the dataset of the second, and the exception of the
    first line that does not load. *)
Theorem read_csv_app (lines1 lines2 : list string) :
  read_csv (lines1 ++ lines2)
  = (d1 <- read_csv lines1 ;; d2 <- read_csv lines2 ;; Ok (d1 ++ d2)).
Proof.
  unfold read_csv. rewrite for_each_app.
  destruct (for_each (fun data line => s <- read_line line ;; Ok (data ++ [s]))
              lines1 []) as [d1|e]; cbn [bind]; [|reflexivity].
  apply read_csv_acc.
Qed.

Lemma unique_filter_fixed : forall (es u : list experiment),
  NoDupA experiment_eq es ->
  (forall x, In x es -> existsb (experiment_eqb x) u = false) ->
  unique_filter u es = es.
Proof.
  induction es as [|e es IH]; intros u Hnd Hu; [reflexivity|].
  cbn [unique_filter]. rewrite (Hu e (or_introl eq_refl)).
  inversion Hnd as [|? ? Hnot Hnd']; subst. f_equal.
  apply IH; [exact Hnd'|].
  intros x Hx. cbn [existsb]. rewrite (Hu x (or_intror Hx)), orb_false_r.
  destruct (experiment_eqb x e) eqn:E; [|reflexivity].
  exfalso. apply Hnot. apply InA_alt. exists x. split; [|exact Hx].
  apply experiment_eq_sym. exact E.
Qed.

(** X19: removing the duplicates of a list without duplicates changes nothing: the
    filter of the scheduler is idempotent. *)
Theorem unique_filter_idempotent (es : list experiment) :
  unique_filter [] (unique_filter [] es) = unique_filter [] es.
Proof.
  apply unique_filter_fixed; [apply unique_filter_NoDupA|].
  intros x _. reflexivity.
Qed.

(** ** The number of updates of a sweep *)

Lemma length_concat_full {A : Type} (z : nat) : forall bs : list (list A),
  bs <> [] ->
  Forall (fun c => length c = z) (removelast bs) ->
  length (concat bs) = z * (length bs - 1) + length (last bs []).
Proof.
  induction bs as [|b bs IH]; intros Hne H; [congruence|].
  destruct bs as [|b' bs].
  - cbn. rewrite app_nil_r. lia.
  - change (removelast (b :: b' :: bs)) with (b :: removelast (b' :: bs)) in H.
    apply Forall_cons_iff in H. destruct H as [Hb H].
    change (concat (b :: b' :: bs)) with (b ++ concat (b' :: bs)).
    rewrite length_app, (IH ltac:(discriminate) H), Hb.
    change (last (b :: b' :: bs) []) with (last (b' :: bs) []).
    cbn [length]. lia.
Qed.

(** X7: with a batch size [z] of at least 1, a sweep over [n] samples makes
    [ceil (n / z)] weight updates: one per batch. *)
Theorem sweep_update_count (np_exp : float -> float) (args : Args)
  (ratio : float) (z : Z) (ws os : list matrix) (data : list sample) :
  (1 <= z)%Z ->
  sweep np_exp args ratio (BatchInt z) ws os data
  = (wo <- for_each (update_step np_exp (momentum args) ratio)
             (batches (BatchInt z) [] data) (ws, os) ;;
     Ok {| sw_weights := fst wo; sw_old := snd wo;
           sw_accum := zeros_like (fst wo); sw_batch_size := 0 |}) /\
  Z.of_nat (length (batches (BatchInt z) [] data))
  = ((Z.of_nat (length data) + z - 1) / z)%Z.
Proof.
  intros Hz. split; [apply sweep_batches|].
  destruct data as [|s data].
  - cbn [batches length]. symmetry. apply Z.div_small. cbn. lia.
  - set (bs := batches (BatchInt z) [] (s :: data)).
    assert (Hne : bs <> []).
    { intros E. apply batches_nil in E. discriminate E. }
    destruct (batches_sizes z (s :: data) []) as [Hle Hfull]; [cbn; lia|].
    fold bs in Hle, Hfull.
    pose proof (batches_nonempty (BatchInt z) (s :: data) []) as Hpos.
    fold bs in Hpos.
    pose proof (batches_concat (BatchInt z) (s :: data) [] ltac:(discriminate))
      as Hcat.
    fold bs in Hcat. cbn [app] in Hcat.
    assert (Hlast : In (last bs []) bs).
    { destruct bs as [|b bs']; [congruence|].
      destruct (@exists_last _ (b :: bs') ltac:(discriminate)) as (l' & x & E).
      rewrite E, last_last. apply in_or_app. right. left. reflexivity. }
    rewrite Forall_forall in Hle, Hpos.
    pose proof (Hle _ Hlast) as H1. pose proof (Hpos _ Hlast) as H2.
    assert (H3 : 0 < length (last bs [])) by (destruct (last bs []); [congruence | cbn; lia]).
    assert (Hfull' : Forall (fun c : list sample => length c = Z.to_nat z)
                       (removelast bs)).
    { revert Hfull. apply Forall_impl. intros c Hc. lia. }
    pose proof (length_concat_full (Z.to_nat z) bs Hne Hfull') as Hlen.
    rewrite Hcat in Hlen.
    assert (Hk : 0 < length bs) by (destruct bs; [congruence | cbn; lia]).
    apply (Z.div_unique _ _ _ (Z.of_nat (length (last bs [])) - 1)); [lia|].
    rewrite Hlen. nia.
Qed.

Lemma sweep_update_count_witness :
  Z.of_nat (length (batches (BatchInt 2) [] (two_samples ++ two_samples ++ [(blank_image, one_hot 10 1)])))
  = 3%Z.
Proof.
  destruct (sweep_update_count exp_ref one_generation 1%float 2 [] []
              (two_samples ++ two_samples ++ [(blank_image, one_hot 10 1)]))
    as [_ H]; [lia|].
  rewrite H. reflexivity.
Defined.
